(** * A shallow embedding of the multi-modal assistant front end

    The development follows the TypeScript sources:
    - [types.ts]                     the mode enumeration and the result records;
    - [services/geminiService.ts]    the five request wrappers around the
                                     generative-AI client;
    - [components/SpeechPanel.tsx]   the text-to-speech trigger and the
                                     recorder of the speech-to-text side;
    - [components/VisionPanel.tsx]   camera lifecycle, frame sampling and the
                                     self-rescheduling live-analysis loop;
    - [components/Sidebar.tsx], [App.tsx]  the menu and the choice of the panel.

    Asynchronous functions are cut at their [await]s: every piece between two
    suspension points is a state transformer, and the environment (timers, the
    canvas encoder, the inference service, the user) drives the pieces through
    events.  State cells of a component are record fields; a closure keeps the
    values of the render that created it. *)

From Stdlib Require Import QArith Ascii String.
From stdpp Require Import base list strings numbers.

Local Open Scope string_scope.
Local Open Scope nat_scope.

(** ** types.ts *)

Inductive AppMode :=
| CLASSIFICATION
| OBJECT_DETECTION
| HAND_GESTURES
| SPEECH_TO_TEXT
| TEXT_TO_SPEECH.

#[global] Instance AppMode_eq_dec : EqDecision AppMode.
Proof. solve_decision. Defined.

Record ClassificationResult := {
  label : string;
  confidence : string;
  details : string;
}.

Record DetectedObject := {
  name : string;
  description : string;
}.

Record DetectionResult := {
  objects : list DetectedObject;
}.

Record GestureResult := {
  gesture : string;
  gesture_confidence : string;
  meaning : string;
}.

(** [ClassificationResult | DetectionResult | GestureResult], the type of the
    panel's [result] cell (with [null] as [None]). *)
Inductive VisionResult :=
| Classified (r : ClassificationResult)
| Detected (r : DetectionResult)
| Recognized (r : GestureResult).

(** ** Values shared by the modules *)

(** What a rejected promise or a [throw] carries.  A [TypeError] is raised
    by the engine, which also words its message: the class is all the code
    determines, and all that is kept. *)
Inductive JsError :=
| Error (message : string)
| TypeError
| SyntaxError (message : string)
| Rejected (reason : string).

(** A [Blob]: its MIME type and where its bytes come from.  A canvas
    serialisation is kept symbolically as "the frame of this size encoded at
    this quality". *)
Inductive BlobContent :=
| CanvasFrame (quality : Q) (width height : nat)
| FileBytes (file : nat)
| Recording (chunks : nat).

Record Blob := {
  blob_type : string;
  blob_content : BlobContent;
}.

(** The settled outcome of a promise. *)
Definition Settled (A : Type) : Type := JsError + A.

Definition resolve {A} (a : A) : Settled A := inr a.
Definition reject {A} (e : JsError) : Settled A := inl e.

Definition await {A B} (p : Settled A) (k : A -> Settled B) : Settled B :=
  match p with
  | inl e => inl e
  | inr a => k a
  end.

Notation "'let!' x ':=' p 'in' k" := (await p (fun x => k))
  (at level 10, x name, p at level 100, k at level 200).

(** JavaScript truthiness of an optional string: [undefined] and the empty
    string are falsy. *)
Definition truthy (s : option string) : bool :=
  match s with
  | Some s => negb (String.eqb s "")
  | None => false
  end.

(** ** App.tsx *)

Module App.

(** Which panel the main area renders for [currentMode]: the vision panel
    stays mounted across the three vision modes and receives the mode as a
    prop; any other mode replaces it by the speech panel. *)
Definition shows_VisionPanel (currentMode : AppMode) : bool :=
  match currentMode with
  | CLASSIFICATION | OBJECT_DETECTION | HAND_GESTURES => true
  | _ => false
  end.

Definition shows_SpeechPanel (currentMode : AppMode) : bool :=
  match currentMode with
  | SPEECH_TO_TEXT | TEXT_TO_SPEECH => true
  | _ => false
  end.

End App.

(** ** services/geminiService.ts *)

Module geminiService.

Record InlineData := {
  data : option string;
  mimeType : string;
}.

Inductive Instruction :=
| ClassifyInstruction
| DetectInstruction
| GestureInstruction
| TranscribeInstruction.

Inductive RequestPart :=
| InlinePart (d : InlineData)
| TextPart (i : Instruction)
| SpokenText (text : string).

Inductive Schema := ClassificationSchema | DetectionSchema | GestureSchema.

Record GenerateContentRequest := {
  model : string;
  contents : list RequestPart;
  responseSchema : option Schema;   (* with responseMimeType application/json *)
  voiceName : option string;        (* with responseModalities [AUDIO] *)
}.

Record ResponsePart := {
  inlineData : option InlineData;
}.

Record Content := {
  parts : option (list ResponsePart);
}.

Record Candidate := {
  content : option Content;
}.

Record GenerateContentResponse := {
  text : option string;
  candidates : option (list Candidate);
}.

(** [s.split(',')] *)
Fixpoint split_comma (s : string) : list string :=
  match s with
  | EmptyString => [EmptyString]
  | String c r =>
      if Ascii.eqb c ","%char then EmptyString :: split_comma r
      else match split_comma r with
           | h :: t => String c h :: t
           | [] => [String c EmptyString]
           end
  end.

(** [s.includes(needle)] *)
Definition includes (needle s : string) : bool :=
  match String.index 0 needle s with
  | Some _ => true
  | None => false
  end.

Section Client.

(** The collaborators: [FileReader.readAsDataURL] with its
    [onloadend]/[onerror] outcome, [ai.models.generateContent], and
    [JSON.parse] into the value that is cast to the result type. *)
Context {Json : Type}.
Variable readAsDataURL : Blob -> Settled string.
Variable generateContent : GenerateContentRequest -> Settled GenerateContentResponse.
Variable JSON_parse : string -> Settled Json.

Definition fileToGenerativePart (file : Blob) : Settled InlineData :=
  let! base64String := readAsDataURL file in
  let base64Data := split_comma base64String !! 1 in
  resolve {| data := base64Data;
             mimeType := if String.eqb (blob_type file) "" then "image/jpeg"
                         else blob_type file |}.

(** The tail shared by the three image operations:
    [if (!text) throw new Error("No response text"); return JSON.parse(text)] *)
Definition parse_text (response : GenerateContentResponse) : Settled Json :=
  if truthy (text response) then
    match text response with
    | Some t => JSON_parse t
    | None => reject (Error "No response text")
    end
  else reject (Error "No response text").

Definition image_request (imagePart : InlineData) (i : Instruction) (s : Schema)
  : GenerateContentRequest :=
  {| model := "gemini-3-flash-preview";
     contents := [InlinePart imagePart; TextPart i];
     responseSchema := Some s;
     voiceName := None |}.

Definition classifyImage (imageFile : Blob) : Settled Json :=
  let! imagePart := fileToGenerativePart imageFile in
  let! response := generateContent
                (image_request imagePart ClassifyInstruction ClassificationSchema) in
  parse_text response.

Definition detectObjects (imageFile : Blob) : Settled Json :=
  let! imagePart := fileToGenerativePart imageFile in
  let! response := generateContent
                (image_request imagePart DetectInstruction DetectionSchema) in
  parse_text response.

Definition detectHandGestures (imageFile : Blob) : Settled Json :=
  let! imagePart := fileToGenerativePart imageFile in
  let! response := generateContent
                (image_request imagePart GestureInstruction GestureSchema) in
  parse_text response.

Definition transcribe_request (audioBlob : Blob) (base64Data : option string)
  : GenerateContentRequest :=
  {| model := "gemini-2.5-flash-native-audio-preview-12-2025";
     contents :=
       [InlinePart {| data := base64Data;
                      mimeType := if includes "wav" (blob_type audioBlob)
                                  then "audio/wav" else "audio/mp3" |};
        TextPart TranscribeInstruction];
     responseSchema := None;
     voiceName := None |}.

Definition transcribeAudio (audioBlob : Blob) : Settled string :=
  let! base64String := readAsDataURL audioBlob in
  let base64Data := split_comma base64String !! 1 in
  let! response := generateContent (transcribe_request audioBlob base64Data) in
  resolve (if truthy (text response)
           then default "" (text response)
           else "No transcription generated.").

Definition speech_request (text voice : string) : GenerateContentRequest :=
  {| model := "gemini-2.5-flash-preview-tts";
     contents := [SpokenText text];
     responseSchema := None;
     voiceName := Some voice |}.

Definition synthesizeSpeech (text voice : string) : Settled string :=
  let! response := generateContent (speech_request text voice) in
  match candidates response with
  | Some (candidate :: _) =>
      match content candidate with
      | None => reject TypeError   (* [candidates[0].content.parts] of no content *)
      | Some c =>
          match parts c with
          | Some (audioPart :: _) =>
              match inlineData audioPart with
              | Some i =>
                  if truthy (data i) then resolve (default "" (data i))
                  else reject (Error "No audio data returned")
              | None => reject (Error "No audio data returned")
              end
          | _ => reject (Error "No audio data returned")
          end
      end
  | _ => reject (Error "No audio data returned")
  end.

End Client.

(** The default of [synthesizeSpeech]'s second parameter. *)
Definition default_voice : string := "Puck".

End geminiService.

(** ** components/SpeechPanel.tsx *)

(** A JavaScript string as its UTF-16 code units, for the code that looks at
    characters. *)
Definition JsString : Type := list N.

Module SpeechPanel.

(** The code points [String.prototype.trim] strips: WhiteSpace and
    LineTerminator of ECMA-262. *)
Definition isWhiteSpace (c : N) : bool :=
  bool_decide (c ∈ [9; 10; 11; 12; 13; 32; 160; 5760; 8232; 8233; 8239; 8287;
                    12288; 65279]%N)
  || ((8192 <=? c)%N && (c <=? 8202)%N).

Fixpoint trimStart (s : JsString) : JsString :=
  match s with
  | c :: r => if isWhiteSpace c then trimStart r else s
  | [] => []
  end.

Definition trimEnd (s : JsString) : JsString := rev (trimStart (rev s)).

Definition trim (s : JsString) : JsString := trimEnd (trimStart s).

(** [!s] for a string. *)
Definition falsy (s : JsString) : bool :=
  match s with
  | [] => true
  | _ => false
  end.

(** The cells of [useState] the text-to-speech side reads and writes. *)
Record State := {
  textInput : JsString;
  audioUrl : option string;
  isPlaying : bool;
  selectedVoice : string;
  isLoading : bool;
  error : option string;
}.

(** What a handler does, in program order: state setters and the call to the
    service. *)
Inductive Action :=
| setIsLoading (b : bool)
| setError (e : option string)
| setAudioUrl (u : option string)
| call_synthesizeSpeech (text : JsString) (voice : string).

Definition perform (st : State) (a : Action) : State :=
  match a with
  | setIsLoading b =>
      {| textInput := textInput st; audioUrl := audioUrl st; isPlaying := isPlaying st;
         selectedVoice := selectedVoice st; isLoading := b; error := error st |}
  | setError e =>
      {| textInput := textInput st; audioUrl := audioUrl st; isPlaying := isPlaying st;
         selectedVoice := selectedVoice st; isLoading := isLoading st; error := e |}
  | setAudioUrl u =>
      {| textInput := textInput st; audioUrl := u; isPlaying := isPlaying st;
         selectedVoice := selectedVoice st; isLoading := isLoading st; error := error st |}
  | call_synthesizeSpeech _ _ => st
  end.

Definition performs (st : State) (l : list Action) : State := fold_left perform l st.

Definition is_call (a : Action) : bool :=
  match a with
  | call_synthesizeSpeech _ _ => true
  | _ => false
  end.

(** [handleTTS] up to its [await]. *)
Definition handleTTS (st : State) : list Action :=
  if falsy (trim (textInput st)) then []
  else [setIsLoading true;
        setError None;
        setAudioUrl None;
        call_synthesizeSpeech (textInput st) (selectedVoice st)].

Section Resume.

(** [window.atob] (which throws on malformed input) followed by the copy
    into a [Uint8Array], and [URL.createObjectURL] on the audio blob. *)
Variable atob : string -> Settled (list N).
Variable createObjectURL : Blob -> string.


End Resume.

(** The Generate Audio button: [disabled={!textInput.trim() || isLoading}]. *)
Definition generate_disabled (st : State) : bool :=
  falsy (trim (textInput st)) || isLoading st.

Definition click_generate (st : State) : list Action :=
  if generate_disabled st then [] else handleTTS st.

End SpeechPanel.

(** ** components/VisionPanel.tsx

    The component is a function of its [useState] cells; what React adds is
    modelled as follows.
    - A handler, an effect or the continuation of an [await] runs to its next
      suspension point; the setters it calls take effect in the render that
      follows, and every function created by a render reads the values of
      that render only.
    - An effect with a dependency array runs again after a render in which a
      dependency changed, its cleanup first.  The two locals of the loop
      effect, [mounted] and [timeoutId], belong to one run of the effect and
      are shared by the [analyzeLoop] and the cleanup of that run.
    - The suspension points are the three awaited calls: [getUserMedia], the
      callback of [canvas.toBlob] behind [captureFrame], and the service call
      behind [processImage]; and the timers.  Between the start of one of
      them and its completion any other event may be handled.
    - Refs ([streamRef], [videoRef], [canvasRef]) are plain mutable fields;
      the two elements exist while the camera view is rendered. *)

Module VisionPanel.

Inductive InputSource := upload | camera.
Inductive FacingMode := environment | user.

#[global] Instance InputSource_eq_dec : EqDecision InputSource.
Proof. solve_decision. Defined.

(** *** The component's values

    The [mode] prop and the [useState] cells.  [previewUrl] is set and
    cleared together with [selectedImage] and is not kept apart.  A render
    hands these values to every function it creates, so a closure is a copy
    of this record. *)
Record Cells := {
  mode : AppMode;
  source : InputSource;
  selectedImage : option Blob;
  isStreaming : bool;
  isAutoAnalyze : bool;
  cameraError : option string;
  facingMode : FacingMode;
  isLoading : bool;
  result : option VisionResult;
  error : option string;
}.

(** The [<video>] element behind [videoRef]: the stream it plays and the
    size of the frames it has decoded.  It reports a size of zero until a
    stream is attached and its first frame is known. *)
Record HTMLVideoElement := {
  srcObject : option nat;
  frameWidth : nat;
  frameHeight : nat;
}.

Definition videoWidth (v : HTMLVideoElement) : nat :=
  match srcObject v with Some _ => frameWidth v | None => 0 end.

Definition videoHeight (v : HTMLVideoElement) : nat :=
  match srcObject v with Some _ => frameHeight v | None => 0 end.

(** The [<canvas>] element behind [canvasRef]. *)
Record HTMLCanvasElement := {
  width : nat;
  height : nat;
  context2d : bool;          (* whether getContext('2d') yields a context *)
}.

(** One run of the Auto Analyze Loop effect: the render it closes over and
    its two locals. *)
Record LoopEffect := {
  closure : Cells;
  mounted : bool;
  timeoutId : option nat;
}.

(** Who waits for a capture or a request. *)
Inductive Origin :=
| FromLoop (effect : nat)      (* analyzeLoop of that effect run *)
| FromManual                   (* handleManualCapture *)
| FromUpload.                  (* the analyze button of the upload view *)

Inductive ServiceCall := classifyImage | detectObjects | detectHandGestures.

Record Timer := {
  t_id : nat;
  t_effect : nat;
  t_delay : nat;               (* milliseconds *)
}.

(** A [captureFrame] promise waiting for the encoder's callback. *)
Record PendingCapture := {
  pc_origin : Origin;
  pc_closure : Cells;
  pc_blob : option Blob;
}.

(** A [processImage] waiting for the service. *)
Record InFlight := {
  rq_origin : Origin;
  rq_closure : Cells;
  rq_call : ServiceCall;
  rq_image : Blob;
}.

Record State := {
  alive : bool;                              (* the component is mounted *)
  cells : Cells;
  streamRef : option nat;
  video : option HTMLVideoElement;           (* videoRef.current *)
  canvas : option HTMLCanvasElement;         (* canvasRef.current *)
  streams : list (list bool);                (* acquired streams, a track is true while live *)
  pendingUserMedia : list FacingMode;        (* getUserMedia calls not yet answered *)
  effects : list LoopEffect;                 (* every run of the loop effect, the last is current *)
  timers : list Timer;
  captures : list (nat * PendingCapture);
  requests : list (nat * InFlight);
  fresh : nat;
}.

(** *** Setters *)

Definition on_cells (f : Cells -> Cells) (st : State) : State :=
  {| alive := alive st; cells := f (cells st); streamRef := streamRef st;
     video := video st; canvas := canvas st; streams := streams st;
     pendingUserMedia := pendingUserMedia st; effects := effects st;
     timers := timers st; captures := captures st; requests := requests st;
     fresh := fresh st |}.

Definition with_mode (m : AppMode) (c : Cells) : Cells :=
  {| mode := m; source := source c; selectedImage := selectedImage c;
     isStreaming := isStreaming c; isAutoAnalyze := isAutoAnalyze c;
     cameraError := cameraError c; facingMode := facingMode c;
     isLoading := isLoading c; result := result c; error := error c |}.
Definition with_source (s : InputSource) (c : Cells) : Cells :=
  {| mode := mode c; source := s; selectedImage := selectedImage c;
     isStreaming := isStreaming c; isAutoAnalyze := isAutoAnalyze c;
     cameraError := cameraError c; facingMode := facingMode c;
     isLoading := isLoading c; result := result c; error := error c |}.
Definition with_selectedImage (i : option Blob) (c : Cells) : Cells :=
  {| mode := mode c; source := source c; selectedImage := i;
     isStreaming := isStreaming c; isAutoAnalyze := isAutoAnalyze c;
     cameraError := cameraError c; facingMode := facingMode c;
     isLoading := isLoading c; result := result c; error := error c |}.
Definition with_isStreaming (b : bool) (c : Cells) : Cells :=
  {| mode := mode c; source := source c; selectedImage := selectedImage c;
     isStreaming := b; isAutoAnalyze := isAutoAnalyze c;
     cameraError := cameraError c; facingMode := facingMode c;
     isLoading := isLoading c; result := result c; error := error c |}.
Definition with_isAutoAnalyze (b : bool) (c : Cells) : Cells :=
  {| mode := mode c; source := source c; selectedImage := selectedImage c;
     isStreaming := isStreaming c; isAutoAnalyze := b;
     cameraError := cameraError c; facingMode := facingMode c;
     isLoading := isLoading c; result := result c; error := error c |}.
Definition with_cameraError (e : option string) (c : Cells) : Cells :=
  {| mode := mode c; source := source c; selectedImage := selectedImage c;
     isStreaming := isStreaming c; isAutoAnalyze := isAutoAnalyze c;
     cameraError := e; facingMode := facingMode c;
     isLoading := isLoading c; result := result c; error := error c |}.
Definition with_facingMode (f : FacingMode) (c : Cells) : Cells :=
  {| mode := mode c; source := source c; selectedImage := selectedImage c;
     isStreaming := isStreaming c; isAutoAnalyze := isAutoAnalyze c;
     cameraError := cameraError c; facingMode := f;
     isLoading := isLoading c; result := result c; error := error c |}.
Definition with_isLoading (b : bool) (c : Cells) : Cells :=
  {| mode := mode c; source := source c; selectedImage := selectedImage c;
     isStreaming := isStreaming c; isAutoAnalyze := isAutoAnalyze c;
     cameraError := cameraError c; facingMode := facingMode c;
     isLoading := b; result := result c; error := error c |}.
Definition with_result (r : option VisionResult) (c : Cells) : Cells :=
  {| mode := mode c; source := source c; selectedImage := selectedImage c;
     isStreaming := isStreaming c; isAutoAnalyze := isAutoAnalyze c;
     cameraError := cameraError c; facingMode := facingMode c;
     isLoading := isLoading c; result := r; error := error c |}.
Definition with_error (e : option string) (c : Cells) : Cells :=
  {| mode := mode c; source := source c; selectedImage := selectedImage c;
     isStreaming := isStreaming c; isAutoAnalyze := isAutoAnalyze c;
     cameraError := cameraError c; facingMode := facingMode c;
     isLoading := isLoading c; result := result c; error := e |}.

(** The setters of [useState], as the handlers call them. *)
Definition setSource s := on_cells (with_source s).
Definition setSelectedImage i := on_cells (with_selectedImage i).
Definition setIsStreaming b := on_cells (with_isStreaming b).
Definition setIsAutoAnalyze b := on_cells (with_isAutoAnalyze b).
Definition setCameraError e := on_cells (with_cameraError e).
Definition setFacingMode f := on_cells (with_facingMode f).
Definition setIsLoading b := on_cells (with_isLoading b).
Definition setResult r := on_cells (with_result r).
Definition setError e := on_cells (with_error e).

Definition set_alive (b : bool) (st : State) : State :=
  {| alive := b; cells := cells st; streamRef := streamRef st;
     video := video st; canvas := canvas st; streams := streams st;
     pendingUserMedia := pendingUserMedia st; effects := effects st;
     timers := timers st; captures := captures st; requests := requests st;
     fresh := fresh st |}.
Definition set_streamRef (r : option nat) (st : State) : State :=
  {| alive := alive st; cells := cells st; streamRef := r;
     video := video st; canvas := canvas st; streams := streams st;
     pendingUserMedia := pendingUserMedia st; effects := effects st;
     timers := timers st; captures := captures st; requests := requests st;
     fresh := fresh st |}.
Definition set_video (v : option HTMLVideoElement) (st : State) : State :=
  {| alive := alive st; cells := cells st; streamRef := streamRef st;
     video := v; canvas := canvas st; streams := streams st;
     pendingUserMedia := pendingUserMedia st; effects := effects st;
     timers := timers st; captures := captures st; requests := requests st;
     fresh := fresh st |}.
Definition set_canvas (c : option HTMLCanvasElement) (st : State) : State :=
  {| alive := alive st; cells := cells st; streamRef := streamRef st;
     video := video st; canvas := c; streams := streams st;
     pendingUserMedia := pendingUserMedia st; effects := effects st;
     timers := timers st; captures := captures st; requests := requests st;
     fresh := fresh st |}.
Definition set_streams (s : list (list bool)) (st : State) : State :=
  {| alive := alive st; cells := cells st; streamRef := streamRef st;
     video := video st; canvas := canvas st; streams := s;
     pendingUserMedia := pendingUserMedia st; effects := effects st;
     timers := timers st; captures := captures st; requests := requests st;
     fresh := fresh st |}.
Definition set_pendingUserMedia (p : list FacingMode) (st : State) : State :=
  {| alive := alive st; cells := cells st; streamRef := streamRef st;
     video := video st; canvas := canvas st; streams := streams st;
     pendingUserMedia := p; effects := effects st;
     timers := timers st; captures := captures st; requests := requests st;
     fresh := fresh st |}.
Definition set_effects (e : list LoopEffect) (st : State) : State :=
  {| alive := alive st; cells := cells st; streamRef := streamRef st;
     video := video st; canvas := canvas st; streams := streams st;
     pendingUserMedia := pendingUserMedia st; effects := e;
     timers := timers st; captures := captures st; requests := requests st;
     fresh := fresh st |}.
Definition set_timers (t : list Timer) (st : State) : State :=
  {| alive := alive st; cells := cells st; streamRef := streamRef st;
     video := video st; canvas := canvas st; streams := streams st;
     pendingUserMedia := pendingUserMedia st; effects := effects st;
     timers := t; captures := captures st; requests := requests st;
     fresh := fresh st |}.
Definition set_captures (c : list (nat * PendingCapture)) (st : State) : State :=
  {| alive := alive st; cells := cells st; streamRef := streamRef st;
     video := video st; canvas := canvas st; streams := streams st;
     pendingUserMedia := pendingUserMedia st; effects := effects st;
     timers := timers st; captures := c; requests := requests st;
     fresh := fresh st |}.
Definition set_requests (r : list (nat * InFlight)) (st : State) : State :=
  {| alive := alive st; cells := cells st; streamRef := streamRef st;
     video := video st; canvas := canvas st; streams := streams st;
     pendingUserMedia := pendingUserMedia st; effects := effects st;
     timers := timers st; captures := captures st; requests := r;
     fresh := fresh st |}.
Definition set_fresh (n : nat) (st : State) : State :=
  {| alive := alive st; cells := cells st; streamRef := streamRef st;
     video := video st; canvas := canvas st; streams := streams st;
     pendingUserMedia := pendingUserMedia st; effects := effects st;
     timers := timers st; captures := captures st; requests := requests st;
     fresh := n |}.

Definition set_mounted (b : bool) (e : LoopEffect) : LoopEffect :=
  {| closure := closure e; mounted := b; timeoutId := timeoutId e |}.
Definition set_timeoutId (t : option nat) (e : LoopEffect) : LoopEffect :=
  {| closure := closure e; mounted := mounted e; timeoutId := t |}.

(** *** Bookkeeping of what is pending *)

Fixpoint find_id {A} (id : nat) (l : list (nat * A)) : option A :=
  match l with
  | [] => None
  | (k, a) :: r => if decide (k = id) then Some a else find_id id r
  end.

Definition drop_id {A} (id : nat) (l : list (nat * A)) : list (nat * A) :=
  filter (fun p => p.1 <> id) l.

Definition add_capture (pc : PendingCapture) (st : State) : State :=
  set_fresh (S (fresh st)) (set_captures (captures st ++ [(fresh st, pc)]) st).

Definition add_request (rq : InFlight) (st : State) : State :=
  set_fresh (S (fresh st)) (set_requests (requests st ++ [(fresh st, rq)]) st).

(** [timeoutId = setTimeout(analyzeLoop, delay)] inside effect run [i]. *)
Definition setTimeout (i delay : nat) (st : State) : State :=
  let id := fresh st in
  set_fresh (S id)
    (set_effects (alter (set_timeoutId (Some id)) i (effects st))
       (set_timers (timers st ++ [{| t_id := id; t_effect := i; t_delay := delay |}]) st)).

Definition clearTimeout (id : option nat) (st : State) : State :=
  match id with
  | Some id => set_timers (filter (fun t => t_id t <> id) (timers st)) st
  | None => st
  end.

(** *** Camera handlers *)

(** [startCamera] up to [await getUserMedia]; [facing] is the [facingMode]
    of the render the function belongs to. *)
Definition startCamera (facing : FacingMode) (st : State) : State :=
  set_pendingUserMedia (pendingUserMedia st ++ [facing]) (setCameraError None st).

(** [startCamera] after the [await], when a stream with so many tracks is
    granted. *)
Definition startCamera_granted (tracks : nat) (st : State) : State :=
  let stream := length (streams st) in
  let st1 := set_streamRef (Some stream)
               (set_streams (streams st ++ [replicate tracks true]) st) in
  let st2 := match video st1 with
             | Some _ => set_video (Some {| srcObject := Some stream;
                                            frameWidth := 0; frameHeight := 0 |}) st1
             | None => st1
             end in
  setIsStreaming true st2.

(** [startCamera]'s [catch]. *)
Definition startCamera_denied (st : State) : State :=
  setCameraError (Some "Unable to access camera. Please check permissions.") st.

Definition stopCamera (st : State) : State :=
  let st1 := match streamRef st with
             | Some s => set_streamRef None
                           (set_streams (alter (fmap (fun _ => false)) s (streams st)) st)
             | None => st
             end in
  let st2 := match video st1 with
             | Some _ => set_video (Some {| srcObject := None;
                                            frameWidth := 0; frameHeight := 0 |}) st1
             | None => st1
             end in
  setIsAutoAnalyze false (setIsStreaming false st2).

(** *** Frame sampling *)

(** [canvas.toBlob(callback, type, quality)]: the callback receives [null]
    when the bitmap has no pixels, and the encoded image otherwise. *)
Definition toBlob (c : HTMLCanvasElement) (type : string) (quality : Q) : option Blob :=
  if (width c =? 0) || (height c =? 0) then None
  else Some {| blob_type := type;
               blob_content := CanvasFrame quality (width c) (height c) |}.

(** What the promise of [captureFrame] is when the function returns: already
    resolved (the early [return null]s), or waiting for the encoder, which
    will call back in a later task with the given value (the bitmap is taken
    when [toBlob] is called). *)
Inductive Capture :=
| Resolved (b : option Blob)
| Encoding (b : option Blob).

Definition captureFrame (st : State) : State * Capture :=
  match video st, canvas st with
  | Some v, Some c =>
      let c' := {| width := videoWidth v; height := videoHeight v;
                   context2d := context2d c |} in
      let st' := set_canvas (Some c') st in
      if context2d c' then (st', Encoding (toBlob c' "image/jpeg" (8 # 10)))
      else (st', Resolved None)
  | _, _ => (st, Resolved None)
  end.

(** The value the promise of [captureFrame] settles to. *)
Definition captured (c : Capture) : option Blob :=
  match c with
  | Resolved b => b
  | Encoding b => b
  end.

(** *** Processing *)

Definition service_of (m : AppMode) : option ServiceCall :=
  match m with
  | CLASSIFICATION => Some classifyImage
  | OBJECT_DETECTION => Some detectObjects
  | HAND_GESTURES => Some detectHandGestures
  | _ => None
  end.

(** [mode === AppMode.HAND_GESTURES ? 500 : 2500] *)
Definition cadence (m : AppMode) : nat :=
  if decide (m = HAND_GESTURES) then 500 else 2500.

(** The delay of the "already loading" branch. *)
Definition retry_delay : nat := 200.

(** [analyzeLoop] of effect run [i] from the end of [await processImage]
    (or from a capture without a frame) on. *)
Definition analyzeLoop_tail (i : nat) (st : State) : State :=
  match effects st !! i with
  | Some e =>
      if mounted e && isAutoAnalyze (closure e)
      then setTimeout i (cadence (mode (closure e))) st
      else st
  | None => st
  end.

(** Whoever awaits [processImage] goes on: only [analyzeLoop] does. *)
Definition processImage_return (o : Origin) (st : State) : State :=
  match o with
  | FromLoop i => analyzeLoop_tail i st
  | _ => st
  end.

(** [processImage] of the render with values [c], up to the [await] of the
    service call. *)
Definition processImage (c : Cells) (o : Origin) (image : Blob) (st : State) : State :=
  let st1 := setIsLoading true st in
  let st2 := if isAutoAnalyze c then st1 else setResult None st1 in
  let st3 := setError None st2 in
  match service_of (mode c) with
  | Some call =>
      add_request {| rq_origin := o; rq_closure := c; rq_call := call;
                     rq_image := image |} st3
  | None => processImage_return o (setIsLoading false st3)
  end.

(** [processImage] after the [await]: [setResult(data)], or the [catch],
    then [finally]. *)
Definition processImage_settled (rq : InFlight) (r : Settled VisionResult)
    (st : State) : State :=
  let st1 := match r with
             | inr data => setResult (Some data) st
             | inl _ =>
                 if isAutoAnalyze (rq_closure rq) then st
                 else setError (Some "Failed to process image.") st
             end in
  processImage_return (rq_origin rq) (setIsLoading false st1).

(** *** The Auto Analyze Loop *)

(** [analyzeLoop] of effect run [i] after [await captureFrame()]. *)
Definition analyzeLoop_resume (i : nat) (c : Cells) (blob : option Blob)
    (st : State) : State :=
  match blob with
  | Some b => processImage c (FromLoop i) b st
  | None => analyzeLoop_tail i st
  end.

(** [analyzeLoop] of effect run [i], up to [await captureFrame()]. *)
Definition analyzeLoop (i : nat) (st : State) : State :=
  match effects st !! i with
  | None => st
  | Some e =>
      let c := closure e in
      if negb (isAutoAnalyze c) || negb (mounted e) || negb (isStreaming c) then st
      else if isLoading c then setTimeout i retry_delay st
      else match captureFrame st with
           | (st1, Resolved b) => analyzeLoop_resume i c b st1
           | (st1, Encoding b) =>
               add_capture {| pc_origin := FromLoop i; pc_closure := c;
                              pc_blob := b |} st1
           end
  end.

(** The dependency array [[isAutoAnalyze, isStreaming, isLoading, mode]]. *)
Definition deps (c : Cells) : bool * bool * bool * AppMode :=
  (isAutoAnalyze c, isStreaming c, isLoading c, mode c).

Definition current (st : State) : nat := pred (length (effects st)).

(** The function the effect returns: [mounted = false; clearTimeout(timeoutId)]. *)
Definition cleanup (i : nat) (st : State) : State :=
  match effects st !! i with
  | Some e =>
      clearTimeout (timeoutId e)
        (set_effects (alter (set_mounted false) i (effects st)) st)
  | None => st
  end.

(** The loop effect runs again: the previous run is cleaned up, a new run
    closes over the present render and calls [analyzeLoop] when
    [isAutoAnalyze] holds. *)
Definition loopEffect (st : State) : State :=
  let st1 := cleanup (current st) st in
  let i := length (effects st1) in
  let st2 := set_effects (effects st1 ++ [{| closure := cells st1; mounted := true;
                                             timeoutId := None |}]) st1 in
  if isAutoAnalyze (cells st2) then analyzeLoop i st2 else st2.

(** A render is committed: the loop effect runs again when one of its
    dependencies differs from the run before. *)
Definition rerender (st : State) : State :=
  match effects st !! current st with
  | Some e => if decide (deps (closure e) = deps (cells st)) then st else loopEffect st
  | None => loopEffect st
  end.

(** The effect on [[mode]]. *)
Definition modeResetEffect (st : State) : State :=
  setIsAutoAnalyze false (setError None (setResult None st)).

(** The [mode] prop changes.  The render with the new prop runs both
    effects that depend on [mode]; the three setters of the reset effect take
    effect in the render after it, so the loop effect of this render still
    sees the old [isAutoAnalyze]. *)
Definition onModeChange (m : AppMode) (st : State) : State :=
  modeResetEffect (loopEffect (on_cells (with_mode m) st)).

(** The component is removed: the refs are detached, then the cleanups of
    the loop effect and of the unmount effect ([stopCamera]) run.  Setters
    called from now on change nothing. *)
Definition unmount (st : State) : State :=
  let st1 := cleanup (current st) st in
  let st2 := set_canvas None (set_video None st1) in
  set_alive false (stopCamera st2).

(** *** Manual capture *)

Definition handleManualCapture (st : State) : State :=
  let c := cells st in
  match captureFrame st with
  | (st1, Resolved b) =>
      match b with
      | Some blob => processImage c FromManual blob st1
      | None => st1
      end
  | (st1, Encoding b) =>
      add_capture {| pc_origin := FromManual; pc_closure := c; pc_blob := b |} st1
  end.

(** The encoder calls back: whoever awaited [captureFrame] goes on. *)
Definition captureFrame_settled (pc : PendingCapture) (st : State) : State :=
  match pc_origin pc with
  | FromLoop i => analyzeLoop_resume i (pc_closure pc) (pc_blob pc) st
  | o =>
      match pc_blob pc with
      | Some blob => processImage (pc_closure pc) o blob st
      | None => st
      end
  end.

(** *** Events

    What the user can do through the rendered controls, and what the
    environment answers to the pending asynchronous calls. *)
Inductive Event :=
| SelectMode (m : AppMode)            (* the sidebar; App passes the mode down, or swaps the panel *)
| ClickSourceUpload
| ClickSourceCamera
| ClickStartCamera                    (* "Activate Camera" and "Try Again" *)
| ClickFlip
| ClickCapture                        (* "Capture & Analyze" *)
| ClickToggleAuto
| ClickAnalyze                        (* the analyze button of the upload view *)
| SelectFile (f : Blob)
| ClearImage
| UserMediaGranted (tracks : nat)
| UserMediaDenied
| VideoFrameSize (w h : nat)          (* the video element learns the size of its frames *)
| TimerFired (id : nat)
| BlobReady (id : nat)
| Response (id : nat) (r : Settled VisionResult).

Definition is_Some_b {A} (o : option A) : bool :=
  match o with Some _ => true | None => false end.

(** The conditions under which the JSX renders each camera control. *)
Definition camera_controls (c : Cells) : bool :=
  bool_decide (source c = camera) && isStreaming c.

(** [disabled={isLoading || isAutoAnalyze}] on "Capture & Analyze". *)
Definition capture_disabled (c : Cells) : bool :=
  isLoading c || isAutoAnalyze c.

Definition flip (f : FacingMode) : FacingMode :=
  match f with environment => user | user => environment end.

Definition new_video : HTMLVideoElement :=
  {| srcObject := None; frameWidth := 0; frameHeight := 0 |}.

Definition new_canvas : HTMLCanvasElement :=
  {| width := 300; height := 150; context2d := true |}.

Definition user_event (ev : Event) : bool :=
  match ev with
  | SelectMode _ | ClickSourceUpload | ClickSourceCamera | ClickStartCamera
  | ClickFlip | ClickCapture | ClickToggleAuto | ClickAnalyze | SelectFile _
  | ClearImage => true
  | _ => false
  end.

(** The handler an event runs, up to the next suspension point. *)
Definition handle (ev : Event) (st : State) : State :=
  let c := cells st in
  match ev with
  | SelectMode m =>
      if decide (m = mode c) then st
      else if App.shows_VisionPanel m then onModeChange m st
      else unmount st
  | ClickSourceUpload =>
      set_canvas None (set_video None (setSource upload st))
  | ClickSourceCamera =>
      let st1 := startCamera (facingMode c) (setSource camera st) in
      if decide (source c = camera) then st1
      else set_canvas (Some new_canvas) (set_video (Some new_video) st1)
  | ClickStartCamera =>
      if bool_decide (source c = camera)
         && (negb (isStreaming c) || is_Some_b (cameraError c))
      then startCamera (facingMode c) st
      else st
  | ClickFlip =>
      if camera_controls c then
        (* setFacingMode, then the effect on [facingMode] of the next render *)
        let st1 := setFacingMode (flip (facingMode c)) st in
        if isStreaming c then startCamera (flip (facingMode c)) (stopCamera st1)
        else st1
      else st
  | ClickCapture =>
      if camera_controls c && negb (capture_disabled c) then handleManualCapture st
      else st
  | ClickToggleAuto =>
      if camera_controls c then setIsAutoAnalyze (negb (isAutoAnalyze c)) st
      else st
  | ClickAnalyze =>
      match selectedImage c with
      | Some image =>
          if bool_decide (source c = upload) && negb (isLoading c)
          then processImage c FromUpload image st
          else st
      | None => st
      end
  | SelectFile f =>
      if bool_decide (source c = upload) && negb (is_Some_b (selectedImage c))
      then setError None (setResult None (setSelectedImage (Some f) st))
      else st
  | ClearImage =>
      if bool_decide (source c = upload) && is_Some_b (selectedImage c)
      then setError None (setResult None (setSelectedImage None st))
      else st
  | UserMediaGranted tracks =>
      match pendingUserMedia st with
      | _ :: rest => startCamera_granted tracks (set_pendingUserMedia rest st)
      | [] => st
      end
  | UserMediaDenied =>
      match pendingUserMedia st with
      | _ :: rest => startCamera_denied (set_pendingUserMedia rest st)
      | [] => st
      end
  | VideoFrameSize w h =>
      match video st with
      | Some v =>
          match srcObject v with
          | Some s => set_video (Some {| srcObject := Some s; frameWidth := w;
                                         frameHeight := h |}) st
          | None => st
          end
      | None => st
      end
  | TimerFired id =>
      match list_find (fun t => t_id t = id) (timers st) with
      | Some (_, t) =>
          analyzeLoop (t_effect t)
            (set_timers (filter (fun t => t_id t <> id) (timers st)) st)
      | None => st
      end
  | BlobReady id =>
      match find_id id (captures st) with
      | Some pc => captureFrame_settled pc (set_captures (drop_id id (captures st)) st)
      | None => st
      end
  | Response id r =>
      match find_id id (requests st) with
      | Some rq => processImage_settled rq r (set_requests (drop_id id (requests st)) st)
      | None => st
      end
  end.

(** One event: its handler, then the render it causes.  Once the component
    is gone there are no controls, and setters leave the cells as they were. *)
Definition step (st : State) (ev : Event) : State :=
  if negb (alive st) && user_event ev then st
  else
    let st' := handle ev st in
    if alive st' then rerender st'
    else on_cells (fun _ => cells st) st'.

Definition run (evs : list Event) (st : State) : State := fold_left step evs st.

(** The panel as App mounts it. *)
Definition initial_cells (m : AppMode) : Cells :=
  {| mode := m; source := upload; selectedImage := None; isStreaming := false;
     isAutoAnalyze := false; cameraError := None; facingMode := environment;
     isLoading := false; result := None; error := None |}.

Definition initial (m : AppMode) : State :=
  {| alive := true; cells := initial_cells m; streamRef := None; video := None;
     canvas := None; streams := []; pendingUserMedia := [];
     effects := [{| closure := initial_cells m; mounted := true; timeoutId := None |}];
     timers := []; captures := []; requests := []; fresh := 0 |}.

Definition reachable (st : State) : Prop :=
  exists m evs, App.shows_VisionPanel m = true /\ st = run evs (initial m).

End VisionPanel.

(** ** components/Sidebar.tsx *)

Module Sidebar.

Record MenuItem := {
  item_mode : AppMode;
  item_label : string;
  item_description : string;
}.

Definition menuItems : list MenuItem :=
  [ {| item_mode := CLASSIFICATION; item_label := "Image Classification";
       item_description := "Identify images with AI" |};
    {| item_mode := OBJECT_DETECTION; item_label := "Object Detection";
       item_description := "Find objects in scenes" |};
    {| item_mode := HAND_GESTURES; item_label := "Hand Gestures";
       item_description := "Recognize hand signs" |};
    {| item_mode := SPEECH_TO_TEXT; item_label := "Speech to Text";
       item_description := "Convert voice to text" |};
    {| item_mode := TEXT_TO_SPEECH; item_label := "Text to Speech";
       item_description := "Convert text to voice" |} ].

(** [currentMode === item.mode], which selects the highlighted style. *)
Definition highlighted (currentMode : AppMode) (item : MenuItem) : bool :=
  bool_decide (currentMode = item_mode item).

(** The [key] of each button. *)
Definition keys : list AppMode := item_mode <$> menuItems.

End Sidebar.

(** ** App.tsx, the shell *)

Module AppShell.
Import Sidebar.

Record State := {
  currentMode : AppMode;
  isSidebarOpen : bool;
}.

Definition initial : State :=
  {| currentMode := CLASSIFICATION; isSidebarOpen := false |}.

(** The [onModeSelect] that App hands to the sidebar. *)
Definition onModeSelect (mode : AppMode) (st : State) : State :=
  {| currentMode := mode; isSidebarOpen := false |}.

Definition toggleSidebar (st : State) : State :=
  {| currentMode := currentMode st; isSidebarOpen := negb (isSidebarOpen st) |}.

Inductive Event :=
| ClickMenuItem (i : nat)     (* the i-th button of the sidebar *)
| ClickMenuButton             (* the button of the mobile header *)
| ClickOverlay.               (* the overlay, rendered while the sidebar is open *)

Definition handle (ev : Event) (st : State) : State :=
  match ev with
  | ClickMenuItem i =>
      match menuItems !! i with
      | Some item => onModeSelect (item_mode item) st
      | None => st
      end
  | ClickMenuButton => toggleSidebar st
  | ClickOverlay =>
      if isSidebarOpen st
      then {| currentMode := currentMode st; isSidebarOpen := false |}
      else st
  end.

Definition run (evs : list Event) (st : State) : State :=
  fold_left (fun st ev => handle ev st) evs st.

End AppShell.

(** ** components/SpeechPanel.tsx, the recorder

    The speech-to-text side of the panel as a state machine, cut at its
    suspension points like the vision panel: [getUserMedia], the [stop]
    event of the [MediaRecorder], and the call of [transcribeAudio].  The
    text-to-speech side shares the cells [isLoading] and [error]; its
    setters may run between any two events. *)

Module SpeechRecorder.
Import SpeechPanel.

(** [MediaRecorder.state]; the panel never pauses. *)
Inductive RecordingState := inactive | recording.

(** A [MediaRecorder]: the stream it records, its state, and whether the
    [stop] event that [stop()] queues is still to be fired. *)
Record MediaRecorder := {
  rec_stream : nat;
  rec_state : RecordingState;
  rec_stopping : bool;
}.

(** The [useState] cells: the three of the speech-to-text side, and the
    record of the text-to-speech side with the shared [isLoading] and
    [error]. *)
Record Cells := {
  isRecording : bool;
  transcription : string;
  mediaRecorder : option nat;
  shared : State;
}.

(** The component and what it holds on to: the [mode] prop, the cells, the
    [audioChunks] ref (a chunk is kept by its size), the microphone streams
    handed out so far (live or stopped), the recorders created so far, the
    calls of [getUserMedia] that are not answered yet, and the calls of
    [transcribeAudio] that are not answered yet, each with the recorder
    whose [onstop] made it. *)
Record Panel := {
  alive : bool;
  mode : AppMode;
  cells : Cells;
  audioChunks : list nat;
  streams : list bool;
  recorders : list MediaRecorder;
  pendingUserMedia : nat;
  transcribing : list (nat * Blob);
}.

Definition with_isRecording (b : bool) (c : Cells) : Cells :=
  {| isRecording := b; transcription := transcription c;
     mediaRecorder := mediaRecorder c; shared := shared c |}.
Definition with_transcription (t : string) (c : Cells) : Cells :=
  {| isRecording := isRecording c; transcription := t;
     mediaRecorder := mediaRecorder c; shared := shared c |}.
Definition with_mediaRecorder (r : option nat) (c : Cells) : Cells :=
  {| isRecording := isRecording c; transcription := transcription c;
     mediaRecorder := r; shared := shared c |}.
Definition with_shared (a : Action) (c : Cells) : Cells :=
  {| isRecording := isRecording c; transcription := transcription c;
     mediaRecorder := mediaRecorder c; shared := perform (shared c) a |}.

(** A setter of [useState]: it changes nothing once the component is gone. *)
Definition on_cells (f : Cells -> Cells) (p : Panel) : Panel :=
  if alive p then
    {| alive := alive p; mode := mode p; cells := f (cells p);
       audioChunks := audioChunks p; streams := streams p; recorders := recorders p;
       pendingUserMedia := pendingUserMedia p; transcribing := transcribing p |}
  else p.

Definition setIsRecording b := on_cells (with_isRecording b).
Definition setTranscription t := on_cells (with_transcription t).
Definition setMediaRecorder r := on_cells (with_mediaRecorder r).
Definition setIsLoading b := on_cells (with_shared (SpeechPanel.setIsLoading b)).
Definition setError e := on_cells (with_shared (SpeechPanel.setError e)).

Definition set_alive (b : bool) (p : Panel) : Panel :=
  {| alive := b; mode := mode p; cells := cells p;
     audioChunks := audioChunks p; streams := streams p; recorders := recorders p;
     pendingUserMedia := pendingUserMedia p; transcribing := transcribing p |}.
Definition set_mode (m : AppMode) (p : Panel) : Panel :=
  {| alive := alive p; mode := m; cells := cells p;
     audioChunks := audioChunks p; streams := streams p; recorders := recorders p;
     pendingUserMedia := pendingUserMedia p; transcribing := transcribing p |}.
Definition set_audioChunks (l : list nat) (p : Panel) : Panel :=
  {| alive := alive p; mode := mode p; cells := cells p;
     audioChunks := l; streams := streams p; recorders := recorders p;
     pendingUserMedia := pendingUserMedia p; transcribing := transcribing p |}.
Definition set_streams (l : list bool) (p : Panel) : Panel :=
  {| alive := alive p; mode := mode p; cells := cells p;
     audioChunks := audioChunks p; streams := l; recorders := recorders p;
     pendingUserMedia := pendingUserMedia p; transcribing := transcribing p |}.
Definition set_recorders (l : list MediaRecorder) (p : Panel) : Panel :=
  {| alive := alive p; mode := mode p; cells := cells p;
     audioChunks := audioChunks p; streams := streams p; recorders := l;
     pendingUserMedia := pendingUserMedia p; transcribing := transcribing p |}.
Definition set_pendingUserMedia (n : nat) (p : Panel) : Panel :=
  {| alive := alive p; mode := mode p; cells := cells p;
     audioChunks := audioChunks p; streams := streams p; recorders := recorders p;
     pendingUserMedia := n; transcribing := transcribing p |}.
Definition set_transcribing (l : list (nat * Blob)) (p : Panel) : Panel :=
  {| alive := alive p; mode := mode p; cells := cells p;
     audioChunks := audioChunks p; streams := streams p; recorders := recorders p;
     pendingUserMedia := pendingUserMedia p; transcribing := l |}.

Definition access_denied : string := "Microphone access denied or not available.".
Definition transcription_failed : string :=
  "Failed to transcribe audio. Please try again.".

(** [startRecording] up to [await getUserMedia]. *)
Definition startRecording (p : Panel) : Panel :=
  set_pendingUserMedia (S (pendingUserMedia p)) p.

(** [startRecording] after the [await], when the microphone is granted.
    [new MediaRecorder(stream, { mimeType: 'audio/webm' })] throws where the
    container is not supported, and the [catch] takes over with the stream
    already handed out. *)
Definition startRecording_granted (supported : bool) (p : Panel) : Panel :=
  let stream := length (streams p) in
  let p1 := set_streams (streams p ++ [true])
              (set_pendingUserMedia (pred (pendingUserMedia p)) p) in
  if supported then
    let recorder := length (recorders p1) in
    let p2 := set_recorders
                (recorders p1 ++ [{| rec_stream := stream; rec_state := recording;
                                     rec_stopping := false |}]) p1 in
    setTranscription "" (setError None (setIsRecording true
      (setMediaRecorder (Some recorder) p2)))
  else setError (Some access_denied) p1.

(** [startRecording]'s [catch] when [getUserMedia] rejects. *)
Definition startRecording_denied (p : Panel) : Panel :=
  setError (Some access_denied) (set_pendingUserMedia (pred (pendingUserMedia p)) p).

(** [MediaRecorder.stop()]: the recorder becomes inactive at once and its
    [stop] event is queued. *)
Definition MediaRecorder_stop (r : MediaRecorder) : MediaRecorder :=
  match rec_state r with
  | recording => {| rec_stream := rec_stream r; rec_state := inactive;
                    rec_stopping := true |}
  | inactive => r
  end.

Definition stopRecording (p : Panel) : Panel :=
  match mediaRecorder (cells p) with
  | Some r =>
      if isRecording (cells p)
      then setIsRecording false
             (set_recorders (alter MediaRecorder_stop r (recorders p)) p)
      else p
  | None => p
  end.

(** [recorder.ondataavailable] *)
Definition ondataavailable (size : nat) (p : Panel) : Panel :=
  if 0 <? size then set_audioChunks (audioChunks p ++ [size]) p else p.

(** [new Blob(audioChunks.current, { type: 'audio/webm' })] *)
Definition recorded (chunks : list nat) : Blob :=
  {| blob_type := "audio/webm"; blob_content := Recording (sum_list chunks) |}.

Definition finish (r : MediaRecorder) : MediaRecorder :=
  {| rec_stream := rec_stream r; rec_state := rec_state r; rec_stopping := false |}.

(** [recorder.onstop] of recorder [r], up to the [await] inside
    [handleTranscription]. *)
Definition onstop (r : nat) (p : Panel) : Panel :=
  let audioBlob := recorded (audioChunks p) in
  let p1 := set_audioChunks [] (set_recorders (alter finish r (recorders p)) p) in
  set_transcribing (transcribing p1 ++ [(r, audioBlob)]) (setIsLoading true p1).

(** [stream.getTracks().forEach(track => track.stop())] *)
Definition release (stream : nat) (p : Panel) : Panel :=
  set_streams (<[stream := false]> (streams p)) p.

(** [handleTranscription] after its [await], then the rest of [onstop]. *)
Definition onstop_resume (r : nat) (text : Settled string) (p : Panel) : Panel :=
  let p1 := match text with
            | inr t => setTranscription t p
            | inl _ => setError (Some transcription_failed) p
            end in
  let p2 := setIsLoading false p1 in
  match recorders p2 !! r with
  | Some rec => release (rec_stream rec) p2
  | None => p2
  end.

(** What happens to the panel. *)
Inductive Event :=
| SelectMode (m : AppMode)             (* the sidebar *)
| ClickMic                             (* the round button of the speech-to-text view *)
| Speech (a : Action)                  (* a setter of the text-to-speech side *)
| MicGranted (supported : bool)
| MicDenied
| DataAvailable (r size : nat)
| Stopped (r : nat)                    (* the stop event of recorder r *)
| Transcribed (r : nat) (text : Settled string).

Definition user_event (ev : Event) : bool :=
  match ev with
  | SelectMode _ | ClickMic => true
  | _ => false
  end.

Definition handle (ev : Event) (p : Panel) : Panel :=
  match ev with
  | SelectMode m =>
      if App.shows_SpeechPanel m then set_mode m p else set_alive false p
  | ClickMic =>
      (* rendered in the speech-to-text view, [disabled={isLoading}] *)
      if bool_decide (mode p = SPEECH_TO_TEXT) && negb (isLoading (shared (cells p)))
      then if isRecording (cells p) then stopRecording p else startRecording p
      else p
  | Speech a => on_cells (with_shared a) p
  | MicGranted supported =>
      if 0 <? pendingUserMedia p then startRecording_granted supported p else p
  | MicDenied =>
      if 0 <? pendingUserMedia p then startRecording_denied p else p
  | DataAvailable r size =>
      match recorders p !! r with
      | Some rec =>
          match rec_state rec with
          | recording => ondataavailable size p
          | inactive => if rec_stopping rec then ondataavailable size p else p
          end
      | None => p
      end
  | Stopped r =>
      match recorders p !! r with
      | Some rec => if rec_stopping rec then onstop r p else p
      | None => p
      end
  | Transcribed r text =>
      match VisionPanel.find_id r (transcribing p) with
      | Some _ =>
          onstop_resume r text
            (set_transcribing (VisionPanel.drop_id r (transcribing p)) p)
      | None => p
      end
  end.

(** One event; the controls are gone with the component. *)
Definition step (p : Panel) (ev : Event) : Panel :=
  if negb (alive p) && user_event ev then p else handle ev p.

Definition run (evs : list Event) (p : Panel) : Panel := fold_left step evs p.

Definition initial_cells : Cells :=
  {| isRecording := false; transcription := ""; mediaRecorder := None;
     shared := {| textInput := []; audioUrl := None; isPlaying := false;
                  selectedVoice := "Puck"; isLoading := false; error := None |} |}.

(** The panel as App mounts it for a speech mode. *)
Definition initial (m : AppMode) : Panel :=
  {| alive := true; mode := m; cells := initial_cells; audioChunks := [];
     streams := []; recorders := []; pendingUserMedia := 0; transcribing := [] |}.

Definition reachable (p : Panel) : Prop :=
  exists m evs, App.shows_SpeechPanel m = true /\ p = run evs (initial m).

End SpeechRecorder.

(** ** App.tsx, the main area

    What [<main>] shows.  For the three vision modes it is the vision panel,
    for the two speech modes the speech panel.  When [currentMode] changes
    within a group, the panel that is mounted stays and receives the new
    mode as its prop; when it changes across the groups, the panel is
    removed and the other one is mounted, with the initial values of its
    [useState] cells.  A removed panel is not shown again: what its pending
    callbacks do is the business of [VisionPanel.step] and
    [SpeechRecorder.step] with [alive] off. *)

Module AppMain.

Inductive Shown :=
| Vision (st : VisionPanel.State)
| Speech (p : SpeechRecorder.Panel).

(** The [mode] prop of the panel on display, which is [currentMode]. *)
Definition currentMode (s : Shown) : AppMode :=
  match s with
  | Vision st => VisionPanel.mode (VisionPanel.cells st)
  | Speech p => SpeechRecorder.mode p
  end.

(** The [error] cell of the panel on display. *)
Definition error_shown (s : Shown) : option string :=
  match s with
  | Vision st => VisionPanel.error (VisionPanel.cells st)
  | Speech p => SpeechPanel.error (SpeechRecorder.shared (SpeechRecorder.cells p))
  end.

(** The panel that App mounts for a mode, in its initial state. *)
Definition mount (m : AppMode) : Shown :=
  if App.shows_VisionPanel m then Vision (VisionPanel.initial m)
  else Speech (SpeechRecorder.initial m).

(** [setCurrentMode(mode)], as the sidebar calls it, and the render of App
    that follows. *)
Definition setCurrentMode (m : AppMode) (s : Shown) : Shown :=
  match s with
  | Vision st =>
      if App.shows_VisionPanel m
      then Vision (VisionPanel.step st (VisionPanel.SelectMode m))
      else mount m
  | Speech p =>
      if App.shows_SpeechPanel m
      then Speech (SpeechRecorder.step p (SpeechRecorder.SelectMode m))
      else mount m
  end.

(** What happens in the main area: a button of the sidebar is clicked, or
    the panel on display receives one of its own events.  The mode of a
    panel changes through App only. *)
Inductive Event :=
| Select (m : AppMode)
| InVision (ev : VisionPanel.Event)
| InSpeech (ev : SpeechRecorder.Event).

Definition step (s : Shown) (ev : Event) : Shown :=
  match ev, s with
  | Select m, _ => setCurrentMode m s
  | InVision (VisionPanel.SelectMode _), _ => s
  | InVision ev, Vision st => Vision (VisionPanel.step st ev)
  | InSpeech (SpeechRecorder.SelectMode _), _ => s
  | InSpeech ev, Speech p => Speech (SpeechRecorder.step p ev)
  | _, _ => s
  end.

Definition run (evs : list Event) (s : Shown) : Shown := fold_left step evs s.

(** [useState<AppMode>(AppMode.CLASSIFICATION)] *)
Definition initial : Shown := mount CLASSIFICATION.

Definition reachable (s : Shown) : Prop := exists evs, s = run evs initial.

End AppMain.

(** * Properties *)

(** ** The request wrappers and an empty answer *)

Module geminiServiceSpec.
Import geminiService.

(** The service answered without a payload: no text and no candidate. *)
Definition EmptyResponse (r : GenerateContentResponse) : Prop :=
  truthy (text r) = false /\ (candidates r = None \/ candidates r = Some []).

(** Sample collaborators: an answer without payload, two blobs, and a reader
    that succeeds. *)
Definition empty_response : GenerateContentResponse :=
  {| text := None; candidates := None |}.

Definition webm : Blob := {| blob_type := "audio/webm"; blob_content := Recording 3 |}.
Definition jpeg : Blob := {| blob_type := "image/jpeg"; blob_content := FileBytes 0 |}.

Definition reader (b : Blob) : Settled string :=
  resolve ("data:" ++ blob_type b ++ ";base64,AAAA").

Section EmptyAnswer.

Context {Json : Type}.
Variable readAsDataURL : Blob -> Settled string.
Variable generateContent : GenerateContentRequest -> Settled GenerateContentResponse.
Variable JSON_parse : string -> Settled Json.

Lemma parse_text_empty (r : GenerateContentResponse) :
  EmptyResponse r -> parse_text JSON_parse r = reject (Error "No response text").
Proof.
  intros [Htext _]. unfold parse_text. now rewrite Htext.
Qed.

Lemma image_operation_empty (imageFile : Blob) (i : Instruction) (s : Schema) r :
  (forall rq, generateContent rq = resolve r) -> EmptyResponse r ->
  exists e,
    (let! imagePart := fileToGenerativePart readAsDataURL imageFile in
     let! response := generateContent (image_request imagePart i s) in
     parse_text JSON_parse response) = reject e.
Proof.
  intros Hgen Hempty. unfold fileToGenerativePart.
  destruct (readAsDataURL imageFile) as [e|url]; simpl.
  - now exists e.
  - rewrite Hgen. simpl. rewrite parse_text_empty by assumption. now eexists.
Qed.

Lemma synthesizeSpeech_empty (text voice : string) r :
  (forall rq, generateContent rq = resolve r) -> EmptyResponse r ->
  synthesizeSpeech generateContent text voice = reject (Error "No audio data returned").
Proof.
  intros Hgen [_ Hcand]. unfold synthesizeSpeech. rewrite Hgen. simpl.
  destruct Hcand as [-> | ->]; reflexivity.
Qed.

Lemma transcribeAudio_empty (audioBlob : Blob) url r :
  readAsDataURL audioBlob = resolve url ->
  (forall rq, generateContent rq = resolve r) -> EmptyResponse r ->
  transcribeAudio readAsDataURL generateContent audioBlob
  = resolve "No transcription generated.".
Proof.
  intros Hread Hgen [Htext _]. unfold transcribeAudio.
  rewrite Hread. simpl. rewrite Hgen. simpl. now rewrite Htext.
Qed.

End EmptyAnswer.

(** C4, as stated, fails for the transcription wrapper: on an answer without
    any payload [transcribeAudio] resolves, with a placeholder text. *)
Lemma transcribeAudio_empty_response_resolves :
  EmptyResponse empty_response /\
  transcribeAudio reader (fun _ => resolve empty_response) webm
  = resolve "No transcription generated.".
Proof. split; [split; [reflexivity | now left] | reflexivity]. Qed.

(** C4 (amended): when the service answers every request with an empty
    response, [classifyImage], [detectObjects], [detectHandGestures] and
    [synthesizeSpeech] reject (the image wrappers with "No response text"
    once the image was read, the synthesis with "No audio data returned"),
    while [transcribeAudio] resolves to the text
    "No transcription generated." once the recording was read. *)
Theorem empty_response_outcomes {Json : Type}
    (readAsDataURL : Blob -> Settled string)
    (generateContent : GenerateContentRequest -> Settled GenerateContentResponse)
    (JSON_parse : string -> Settled Json)
    (image audio : Blob) (text voice : string) (r : GenerateContentResponse) :
  (forall rq, generateContent rq = resolve r) ->
  EmptyResponse r ->
  (exists e, classifyImage readAsDataURL generateContent JSON_parse image = reject e) /\
  (exists e, detectObjects readAsDataURL generateContent JSON_parse image = reject e) /\
  (exists e, detectHandGestures readAsDataURL generateContent JSON_parse image = reject e) /\
  (forall url, readAsDataURL image = resolve url ->
     classifyImage readAsDataURL generateContent JSON_parse image
       = reject (Error "No response text") /\
     detectObjects readAsDataURL generateContent JSON_parse image
       = reject (Error "No response text") /\
     detectHandGestures readAsDataURL generateContent JSON_parse image
       = reject (Error "No response text")) /\
  synthesizeSpeech generateContent text voice = reject (Error "No audio data returned") /\
  (forall url, readAsDataURL audio = resolve url ->
     transcribeAudio readAsDataURL generateContent audio
       = resolve "No transcription generated.").
Proof.
  intros Hgen Hempty.
  split; [eapply image_operation_empty; eassumption|].
  split; [eapply image_operation_empty; eassumption|].
  split; [eapply image_operation_empty; eassumption|].
  split.
  - intros url Hread.
    unfold classifyImage, detectObjects, detectHandGestures, fileToGenerativePart.
    rewrite Hread. simpl. rewrite !Hgen. simpl.
    rewrite !parse_text_empty by assumption. auto.
  - split; [eapply synthesizeSpeech_empty; eassumption|].
    intros url Hread. now apply transcribeAudio_empty with (url := url) (r := r).
Qed.

Lemma empty_response_outcomes_witness :
  (exists e, classifyImage reader (fun _ => resolve empty_response)
               (fun s => resolve s) jpeg = reject e) /\
  synthesizeSpeech (fun _ => resolve empty_response) "hello" default_voice
    = reject (Error "No audio data returned") /\
  transcribeAudio reader (fun _ => resolve empty_response) webm
    = resolve "No transcription generated.".
Proof.
  destruct (empty_response_outcomes reader (fun _ => resolve empty_response)
              (fun s => resolve s) jpeg webm "hello" default_voice empty_response)
    as (Hc & _ & _ & _ & Hs & Ht).
  - reflexivity.
  - split; [reflexivity | now left].
  - split; [exact Hc | split; [exact Hs | exact (Ht _ eq_refl)]].
Defined.

End geminiServiceSpec.

(** ** The text-to-speech trigger *)

Module SpeechPanelSpec.
Import SpeechPanel.

Lemma trimStart_nil (s : JsString) :
  trimStart s = [] <-> forallb isWhiteSpace s = true.
Proof.
  induction s as [|c r IH]; simpl.
  - tauto.
  - destruct (isWhiteSpace c); simpl; [exact IH | split; discriminate].
Qed.

Lemma trimStart_head (s : JsString) c r :
  trimStart s = c :: r -> isWhiteSpace c = false.
Proof.
  induction s as [|d t IH]; simpl; [discriminate|].
  destruct (isWhiteSpace d) eqn:Hd; [exact IH|].
  intros [= <- _]. exact Hd.
Qed.

(** [!s.trim()] holds exactly for the strings made of white space only,
    the empty one included. *)
Lemma falsy_trim (s : JsString) : falsy (trim s) = forallb isWhiteSpace s.
Proof.
  unfold trim, trimEnd.
  destruct (forallb isWhiteSpace s) eqn:Hall.
  - apply trimStart_nil in Hall. rewrite Hall. reflexivity.
  - destruct (trimStart s) as [|c r] eqn:Hts.
    + apply trimStart_nil in Hts. congruence.
    + apply trimStart_head in Hts.
      destruct (trimStart (rev (c :: r))) as [|d t] eqn:Hrev.
      * apply trimStart_nil in Hrev. simpl in Hrev.
        rewrite forallb_app in Hrev. simpl in Hrev. rewrite Hts in Hrev.
        rewrite !andb_false_r in Hrev. discriminate.
      * destruct (rev (d :: t)) eqn:Hr; [|reflexivity].
        apply (f_equal (@length N)) in Hr. rewrite length_rev in Hr. discriminate.
Qed.

(** C10: [handleTTS] does nothing on a text that is empty or white space
    only (no call to the service, every cell as before); on any other text
    it clears the error and the audio URL before it calls
    [synthesizeSpeech], which it calls once, last, with the text and the
    selected voice. *)
Theorem handleTTS_blank_or_cleared (st : State) :
  if forallb isWhiteSpace (textInput st)
  then handleTTS st = [] /\ performs st (handleTTS st) = st
  else exists before,
      handleTTS st
      = (before ++ [call_synthesizeSpeech (textInput st) (selectedVoice st)])%list
      /\ existsb is_call before = false
      /\ audioUrl (performs st before) = None
      /\ error (performs st before) = None.
Proof.
  unfold handleTTS. rewrite falsy_trim.
  destruct (forallb isWhiteSpace (textInput st)).
  - split; reflexivity.
  - exists [setIsLoading true; setError None; setAudioUrl None].
    repeat split.
Qed.

(** The button agrees with the handler: it is disabled on such a text. *)
Lemma click_generate_blank (st : State) :
  forallb isWhiteSpace (textInput st) = true -> click_generate st = [].
Proof.
  intros H. unfold click_generate, generate_disabled.
  rewrite falsy_trim, H. reflexivity.
Qed.

Example handleTTS_spaces :
  handleTTS {| textInput := [32; 9; 10; 160]%N; audioUrl := Some "blob:1";
               isPlaying := false; selectedVoice := "Puck"; isLoading := false;
               error := Some "Failed to convert text to speech." |} = [].
Proof. reflexivity. Qed.

Example handleTTS_hi :
  handleTTS {| textInput := [32; 104; 105]%N; audioUrl := Some "blob:1";
               isPlaying := false; selectedVoice := "Kore"; isLoading := false;
               error := Some "Failed to convert text to speech." |}
  = [setIsLoading true; setError None; setAudioUrl None;
     call_synthesizeSpeech [32; 104; 105]%N "Kore"].
Proof. reflexivity. Qed.

End SpeechPanelSpec.

(** ** The vision panel *)

Module VisionPanelSpec.
Import VisionPanel.

(** *** Tactics *)

Ltac cases := repeat (case_match; simplify_eq/=; try done).

Ltac bools :=
  repeat match goal with
    | H : _ || _ = false |- _ => apply orb_false_elim in H; destruct H
    | H : _ && _ = true |- _ => apply andb_prop in H; destruct H
    | H : negb _ = false |- _ => apply negb_false_iff in H
    | H : negb _ = true |- _ => apply negb_true_iff in H
    | H : bool_decide _ = true |- _ => apply bool_decide_eq_true in H
    end.

(** *** What the closures of pending work know

    A capture or a request started by [analyzeLoop] belongs to a render in
    which [isAutoAnalyze] held; one started by the capture button belongs to
    a render in which it did not. *)
Definition origin_ok (o : Origin) (c : Cells) : Prop :=
  match o with
  | FromLoop _ => isAutoAnalyze c = true
  | FromManual => isAutoAnalyze c = false
  | FromUpload => True
  end.

Definition capture_ok (pc : PendingCapture) : Prop :=
  origin_ok (pc_origin pc) (pc_closure pc).

Definition request_ok (rq : InFlight) : Prop :=
  origin_ok (rq_origin rq) (rq_closure rq).

(** The video element plays a stream only while [isStreaming] holds, and it
    is rendered together with a canvas that has a 2d context. *)
Definition video_ok (st : State) : Prop :=
  forall v, video st = Some v ->
    (is_Some (srcObject v) -> isStreaming (cells st) = true) /\
    exists c, canvas st = Some c /\ context2d c = true.

Record Inv (st : State) : Prop := {
  inv_captures : Forall (fun p => capture_ok p.2) (captures st);
  inv_requests : Forall (fun p => request_ok p.2) (requests st);
  inv_video : video_ok st;
  inv_gone : alive st = false -> video st = None;
}.

(** The size of the video surface as [captureFrame] reads it. *)
Definition surface (st : State) : nat * nat :=
  match video st with
  | Some v => (videoWidth v, videoHeight v)
  | None => (0, 0)
  end.

(** A stream is held while one of its tracks is live. *)
Definition live (tracks : list bool) : bool := existsb id tracks.

Definition released (st : State) : Prop :=
  forall s tracks, streams st !! s = Some tracks -> live tracks = false.

(** The stream behind [streamRef] is the only one that may be live. *)
Definition only_ref_live (st : State) : Prop :=
  forall s tracks, streams st !! s = Some tracks -> live tracks = true ->
                   streamRef st = Some s.

(** Sample runs: the camera view is opened, access is granted and the first
    frame size is known. *)
Definition camera_on : list Event :=
  [ClickSourceCamera; UserMediaGranted 1; VideoFrameSize 1280 720].

Definition cat : VisionResult :=
  Classified {| label := "Persian Cat"; confidence := "98%";
                details := "A long-haired cat." |}.

Definition waving : VisionResult :=
  Recognized {| gesture := "Waving"; gesture_confidence := "91%";
                meaning := "A greeting." |}.

Definition offline : JsError := Rejected "Failed to fetch".

(** The camera streams and nothing else goes on. *)
Definition streaming (m : AppMode) : State := run camera_on (initial m).

(** The loop is on and its first frame is being encoded. *)
Definition encoding (m : AppMode) : State := step (streaming m) ClickToggleAuto.

(** The loop is on and its first request is with the service. *)
Definition requesting (m : AppMode) : State := step (encoding m) (BlobReady 0).

(** How the list of effect runs changes while no run is added: a run keeps
    its closure, and a run that is not mounted stays so. *)
Definition evolves (l l' : list LoopEffect) : Prop :=
  length l' = length l /\
  forall i e e', l !! i = Some e -> l' !! i = Some e' ->
    closure e' = closure e /\ (mounted e' = true -> mounted e = true).

Definition stable (Q : LoopEffect -> Prop) : Prop :=
  forall e e', closure e' = closure e -> (mounted e' = true -> mounted e = true) ->
               Q e -> Q e'.

(** The run that waits for a capture or a request has the property [Q]. *)
Definition run_of (l : list LoopEffect) (o : Origin) (Q : LoopEffect -> Prop) : Prop :=
  match o with
  | FromLoop i => exists e, l !! i = Some e /\ Q e
  | _ => True
  end.

(** The run saw no request outstanding when it started. *)
Definition idle (e : LoopEffect) : Prop := isLoading (closure e) = false.

(** The run has been cleaned up. *)
Definition finished (e : LoopEffect) : Prop := mounted e = false.

(** The run is about to be cleaned up: it saw [isLoading] false, and the
    cell now holds [b], which is true. *)
Definition superseded (b : bool) (e : LoopEffect) : Prop :=
  mounted e = true -> isLoading (closure e) = false /\ b = true.

(** Only the current run of a mounted component can be mounted; a pending
    capture of the loop belongs to a run that started idle; a request of the
    loop belongs to a run with property [Q]. *)
Record Runs (Q : LoopEffect -> Prop) (st : State) : Prop := {
  runs_mounted : forall i e, effects st !! i = Some e -> mounted e = true ->
                             i = current st /\ alive st = true;
  runs_captures : Forall (fun p => run_of (effects st) (pc_origin p.2) idle) (captures st);
  runs_requests : Forall (fun p => run_of (effects st) (rq_origin p.2) Q) (requests st);
}.

(** The current run of the loop effect closes over the committed render. *)
Definition current_ok (st : State) : Prop :=
  alive st = true ->
  exists e, effects st !! current st = Some e /\ deps (closure e) = deps (cells st).

Lemma find_id_Forall {A} (Q : A -> Prop) id (l : list (nat * A)) a :
  Forall (fun p => Q p.2) l -> find_id id l = Some a -> Q a.
Proof.
  induction 1 as [|[k b] l Hb Hl IH]; simpl; [discriminate|].
  case_decide; [intros [= <-]; exact Hb | exact IH].
Qed.

Lemma Forall_drop_id {A} (Q : nat * A -> Prop) id (l : list (nat * A)) :
  Forall Q l -> Forall Q (drop_id id l).
Proof.
  unfold drop_id. induction 1 as [|p l Hp Hl IH]; [constructor|].
  rewrite filter_cons. case_decide; [constructor|]; assumption.
Qed.

(** A state that differs only in fields the invariant does not read. *)
Lemma Inv_frame (st st' : State) :
  captures st' = captures st -> requests st' = requests st ->
  video st' = video st -> canvas st' = canvas st ->
  isStreaming (cells st') = isStreaming (cells st) ->
  alive st' = alive st ->
  Inv st -> Inv st'.
Proof.
  intros Hc Hr Hv Hcan Hs Ha [Ic Ir Iv Ig]. split.
  - now rewrite Hc.
  - now rewrite Hr.
  - unfold video_ok. rewrite Hv, Hcan, Hs. exact Iv.
  - now rewrite Hv, Ha.
Qed.

Ltac frame st := apply (Inv_frame st); [reflexivity..|].

(** *** The pieces keep the invariant *)

Lemma setTimeout_inv i d st : Inv st -> Inv (setTimeout i d st).
Proof. intros H. now frame st. Qed.

Lemma clearTimeout_inv t st : Inv st -> Inv (clearTimeout t st).
Proof. intros H. destruct t; [now frame st | exact H]. Qed.

Lemma analyzeLoop_tail_inv i st : Inv st -> Inv (analyzeLoop_tail i st).
Proof.
  intros H. unfold analyzeLoop_tail. cases. now apply setTimeout_inv.
Qed.

Lemma processImage_return_inv o st : Inv st -> Inv (processImage_return o st).
Proof. destruct o; simpl; auto using analyzeLoop_tail_inv. Qed.

Lemma processImage_inv c o image st :
  origin_ok o c -> Inv st -> Inv (processImage c o image st).
Proof.
  intros Ho H. unfold processImage.
  set (st3 := setError None _).
  assert (H3 : Inv st3).
  { subst st3. destruct (isAutoAnalyze c); now frame st. }
  destruct (service_of (mode c)).
  - destruct H3 as [Ic Ir Iv Ig]. split; [exact Ic | | exact Iv | exact Ig].
    simpl. apply Forall_app. split; [exact Ir|].
    constructor; [exact Ho | constructor].
  - apply processImage_return_inv. now frame st3.
Qed.

Lemma processImage_settled_inv rq r st : Inv st -> Inv (processImage_settled rq r st).
Proof.
  intros H. unfold processImage_settled. apply processImage_return_inv.
  destruct r; [destruct (isAutoAnalyze (rq_closure rq))|]; now frame st.
Qed.

Lemma captureFrame_inv st : Inv st -> Inv (captureFrame st).1.
Proof.
  intros H. unfold captureFrame.
  destruct (video st) as [v|] eqn:Hv; [|exact H].
  destruct (canvas st) as [c|] eqn:Hc; [|exact H].
  destruct H as [Ic Ir Iv Ig].
  destruct (Iv v Hv) as (Hs & c0 & Hc0 & Hctx).
  assert (c0 = c) as -> by congruence.
  simpl. rewrite Hctx. split; [exact Ic | exact Ir | | exact Ig].
  intros v' Hv'. simpl in *. rewrite Hv in Hv'. simplify_eq.
  split; [exact Hs | eauto].
Qed.

(** The early returns of [captureFrame] carry no frame. *)
Lemma captureFrame_resolved st b : (captureFrame st).2 = Resolved b -> b = None.
Proof. unfold captureFrame. cases; congruence. Qed.

Lemma analyzeLoop_inv i st : Inv st -> Inv (analyzeLoop i st).
Proof.
  intros H. unfold analyzeLoop.
  destruct (effects st !! i) as [e|]; [|exact H].
  destruct (_ || _) eqn:Hguard; [exact H|]. bools.
  destruct (isLoading (closure e)); [now apply setTimeout_inv|].
  pose proof (captureFrame_inv st H) as Hcf.
  pose proof (captureFrame_resolved st) as Hres.
  destruct (captureFrame st) as [st1 [b|b]]; simpl in *.
  - rewrite (Hres b eq_refl). now apply analyzeLoop_tail_inv.
  - destruct Hcf as [Ic Ir Iv Ig]. split; [| exact Ir | exact Iv | exact Ig].
    simpl. apply Forall_app. split; [exact Ic|].
    constructor; [assumption | constructor].
Qed.

Lemma cleanup_inv i st : Inv st -> Inv (cleanup i st).
Proof.
  intros H. unfold cleanup. destruct (effects st !! i); [|exact H].
  apply clearTimeout_inv. now frame st.
Qed.

Lemma loopEffect_inv st : Inv st -> Inv (loopEffect st).
Proof.
  intros H. unfold loopEffect.
  set (st1 := cleanup _ st). assert (H1 : Inv st1) by now apply cleanup_inv.
  set (st2 := set_effects _ st1). assert (H2 : Inv st2) by now frame st1.
  destruct (isAutoAnalyze (cells st2)); [now apply analyzeLoop_inv | exact H2].
Qed.

Lemma rerender_inv st : Inv st -> Inv (rerender st).
Proof.
  intros H. unfold rerender. cases; now apply loopEffect_inv.
Qed.

Lemma modeResetEffect_inv st : Inv st -> Inv (modeResetEffect st).
Proof. intros H. now frame st. Qed.

Lemma onModeChange_inv m st : Inv st -> Inv (onModeChange m st).
Proof.
  intros H. unfold onModeChange.
  apply modeResetEffect_inv, loopEffect_inv. now frame st.
Qed.

Lemma startCamera_inv f st : Inv st -> Inv (startCamera f st).
Proof. intros H. now frame st. Qed.

Lemma startCamera_denied_inv st : Inv st -> Inv (startCamera_denied st).
Proof. intros H. now frame st. Qed.

Lemma startCamera_granted_inv tracks st : Inv st -> Inv (startCamera_granted tracks st).
Proof.
  intros [Ic Ir Iv Ig]. unfold startCamera_granted. simpl.
  destruct (video st) as [v|] eqn:Hv.
  - split; [exact Ic | exact Ir | | simpl; intros Ha; specialize (Ig Ha); congruence].
    intros v' [= <-]. simpl. split; [reflexivity|].
    destruct (Iv v Hv) as (_ & c & Hc & Hctx). eauto.
  - split; [exact Ic | exact Ir | | intros _; exact Hv].
    intros v'. simpl. congruence.
Qed.

Lemma stopCamera_inv st : Inv st -> Inv (stopCamera st).
Proof.
  intros [Ic Ir Iv Ig]. unfold stopCamera.
  assert (Hvid : forall st0, video st0 = video st -> canvas st0 = canvas st ->
            captures st0 = captures st -> requests st0 = requests st ->
            alive st0 = alive st ->
            Inv (setIsAutoAnalyze false (setIsStreaming false
                   match video st0 with
                   | Some _ => set_video (Some {| srcObject := None; frameWidth := 0;
                                                  frameHeight := 0 |}) st0
                   | None => st0
                   end))).
  { intros st0 Hv Hcan Hc Hr Ha. destruct (video st0) as [v|] eqn:Hv0.
    - split; simpl; [now rewrite Hc | now rewrite Hr | |].
      + intros v' [= <-]. simpl. split; [intros [? [=]]|].
        rewrite Hcan. symmetry in Hv. destruct (Iv v Hv) as (_ & c & ? & ?). eauto.
      + rewrite Ha. intros Hd. specialize (Ig Hd). congruence.
    - split; simpl; [now rewrite Hc | now rewrite Hr | | now rewrite Hv0].
      intros v'. simpl. rewrite Hv0. discriminate. }
  destruct (streamRef st); now apply Hvid.
Qed.

Lemma unmount_inv st : Inv st -> Inv (unmount st).
Proof.
  intros H. unfold unmount.
  set (st1 := cleanup _ st). assert (H1 : Inv st1) by now apply cleanup_inv.
  destruct H1 as [Ic Ir Iv Ig].
  assert (H2 : Inv (set_canvas None (set_video None st1))).
  { split; [exact Ic | exact Ir | intros v [=] | reflexivity]. }
  apply stopCamera_inv in H2.
  assert (Hvid : video (stopCamera (set_canvas None (set_video None st1))) = None).
  { unfold stopCamera. simpl. now destruct (streamRef st1). }
  revert H2 Hvid. generalize (stopCamera (set_canvas None (set_video None st1))).
  intros st3 [Ic3 Ir3 Iv3 Ig3] Hvid.
  split; [exact Ic3 | exact Ir3 | exact Iv3 | intros _; exact Hvid].
Qed.

Lemma handleManualCapture_inv st :
  isAutoAnalyze (cells st) = false -> Inv st -> Inv (handleManualCapture st).
Proof.
  intros Hauto H. unfold handleManualCapture.
  pose proof (captureFrame_inv st H) as Hcf.
  pose proof (captureFrame_resolved st) as Hres.
  destruct (captureFrame st) as [st1 [b|b]]; simpl in *.
  - now rewrite (Hres b eq_refl).
  - destruct Hcf as [Ic Ir Iv Ig]. split; [| exact Ir | exact Iv | exact Ig].
    simpl. apply Forall_app. split; [exact Ic|].
    constructor; [exact Hauto | constructor].
Qed.

Lemma captureFrame_settled_inv pc st :
  capture_ok pc -> Inv st -> Inv (captureFrame_settled pc st).
Proof.
  intros Hpc H. unfold captureFrame_settled, capture_ok in *.
  destruct (pc_origin pc) eqn:Ho; simpl in *.
  - unfold analyzeLoop_resume. destruct (pc_blob pc).
    + now apply processImage_inv.
    + now apply analyzeLoop_tail_inv.
  - destruct (pc_blob pc); [now apply processImage_inv | exact H].
  - destruct (pc_blob pc); [now apply processImage_inv | exact H].
Qed.

Lemma handle_inv ev st :
  alive st = true \/ user_event ev = false -> Inv st -> Inv (handle ev st).
Proof.
  intros Hlive H. destruct ev; simpl.
  - cases; [now apply onModeChange_inv | now apply unmount_inv].
  - destruct H as [Ic Ir Iv Ig]. split; [exact Ic | exact Ir | intros v [=] | reflexivity].
  - destruct Hlive as [Hlive|[=]].
    case_decide.
    + apply startCamera_inv. now frame st.
    + destruct H as [Ic Ir Iv Ig].
      split; [exact Ic | exact Ir | | simpl; congruence].
      intros v [= <-]. split; [intros [? [=]] | eexists; split; reflexivity].
  - cases. now apply startCamera_inv.
  - cases.
    + apply startCamera_inv, stopCamera_inv. now frame st.
    + now frame st.
  - destruct (_ && _) eqn:Hg; [|exact H]. bools. unfold capture_disabled in *. bools.
    now apply handleManualCapture_inv.
  - cases. now frame st.
  - cases. now apply processImage_inv.
  - cases. now frame st.
  - cases. now frame st.
  - cases. apply startCamera_granted_inv. now frame st.
  - cases. apply startCamera_denied_inv. now frame st.
  - destruct (video st) as [v|] eqn:Hv; [|exact H].
    destruct (srcObject v) as [s|] eqn:Hs; [|exact H].
    destruct H as [Ic Ir Iv Ig]. split; [exact Ic | exact Ir | | simpl; intros Ha; specialize (Ig Ha); congruence].
    intros v' [= <-]. simpl. destruct (Iv v Hv) as (Hst & Hcan). split; [|exact Hcan].
    intros _. apply Hst. rewrite Hs. eauto.
  - cases. apply analyzeLoop_inv. now frame st.
  - destruct (find_id id (captures st)) as [pc|] eqn:Hf; [|exact H].
    apply captureFrame_settled_inv.
    + exact (find_id_Forall capture_ok _ _ _ (inv_captures _ H) Hf).
    + destruct H as [Ic Ir Iv Ig]. split; [|exact Ir|exact Iv|exact Ig].
      now apply Forall_drop_id.
  - destruct (find_id id (requests st)) as [rq|] eqn:Hf; [|exact H].
    apply processImage_settled_inv.
    destruct H as [Ic Ir Iv Ig]. split; [exact Ic| |exact Iv|exact Ig].
    now apply Forall_drop_id.
Qed.

(** *** A render changes no cell, and leaves the current effect run in step
    with the cells *)

Lemma analyzeLoop_tail_cells i st : cells (analyzeLoop_tail i st) = cells st.
Proof. unfold analyzeLoop_tail. cases. Qed.

Lemma captureFrame_cells st : cells (captureFrame st).1 = cells st.
Proof. unfold captureFrame. cases. Qed.

Lemma captureFrame_effects st : effects (captureFrame st).1 = effects st.
Proof. unfold captureFrame. cases. Qed.

Lemma captureFrame_alive st : alive (captureFrame st).1 = alive st.
Proof. unfold captureFrame. cases. Qed.

Lemma analyzeLoop_cells i st : cells (analyzeLoop i st) = cells st.
Proof.
  unfold analyzeLoop.
  pose proof (captureFrame_cells st) as Hc.
  pose proof (captureFrame_resolved st) as Hres.
  destruct (captureFrame st) as [st1 [b|b]]; cases; simpl in *.
  rewrite (Hres _ eq_refl) in *. simplify_eq. simpl.
  now rewrite analyzeLoop_tail_cells.
Qed.

Lemma analyzeLoop_alive i st : alive (analyzeLoop i st) = alive st.
Proof.
  unfold analyzeLoop.
  pose proof (captureFrame_alive st) as Hc.
  pose proof (captureFrame_resolved st) as Hres.
  destruct (captureFrame st) as [st1 [b|b]]; cases; simpl in *.
  rewrite (Hres _ eq_refl) in *. simplify_eq. simpl.
  unfold analyzeLoop_tail. cases.
Qed.

Lemma cleanup_cells i st : cells (cleanup i st) = cells st.
Proof. unfold cleanup, clearTimeout. cases. Qed.

Lemma cleanup_alive i st : alive (cleanup i st) = alive st.
Proof. unfold cleanup, clearTimeout. cases. Qed.

Lemma loopEffect_cells st : cells (loopEffect st) = cells st.
Proof.
  unfold loopEffect. case_match; simpl; rewrite ?analyzeLoop_cells; simpl;
    apply cleanup_cells.
Qed.

Lemma loopEffect_alive st : alive (loopEffect st) = alive st.
Proof.
  unfold loopEffect. case_match; simpl; rewrite ?analyzeLoop_alive; simpl;
    apply cleanup_alive.
Qed.

Lemma rerender_cells st : cells (rerender st) = cells st.
Proof. unfold rerender. cases; apply loopEffect_cells. Qed.

Lemma rerender_alive st : alive (rerender st) = alive st.
Proof. unfold rerender. cases; apply loopEffect_alive. Qed.

(** [analyzeLoop] touches [timeoutId] of its own run at most. *)
Lemma analyzeLoop_tail_effects i st :
  exists f, effects (analyzeLoop_tail i st) = alter f i (effects st) /\
            forall e, closure (f e) = closure e.
Proof.
  unfold analyzeLoop_tail. cases.
  - eexists. split; [reflexivity | reflexivity].
  - exists id. now rewrite list_alter_id.
  - exists id. now rewrite list_alter_id.
Qed.

Lemma analyzeLoop_effects i st :
  exists f, effects (analyzeLoop i st) = alter f i (effects st) /\
            forall e, closure (f e) = closure e.
Proof.
  assert (Hid : exists f, effects st = alter f i (effects st) /\
                          forall e : LoopEffect, closure (f e) = closure e).
  { exists id. now rewrite list_alter_id. }
  unfold analyzeLoop.
  destruct (effects st !! i) as [e|]; [|exact Hid].
  destruct (_ || _); [exact Hid|].
  destruct (isLoading (closure e)).
  - eexists. split; reflexivity.
  - pose proof (captureFrame_effects st) as He.
    pose proof (captureFrame_resolved st) as Hres.
    destruct (captureFrame st) as [st1 [b|b]]; simpl in *.
    + rewrite (Hres _ eq_refl). simpl. rewrite <- He. apply analyzeLoop_tail_effects.
    + now rewrite He.
Qed.

Lemma loopEffect_current st : current_ok (loopEffect st).
Proof.
  intros _. unfold loopEffect.
  set (st1 := cleanup _ st).
  set (new := {| closure := cells st1; mounted := true; timeoutId := None |}).
  set (st2 := set_effects _ st1).
  assert (Hlast : forall f : LoopEffect -> LoopEffect,
             let l := alter f (length (effects st1)) (effects st2) in
             l !! pred (length l) = Some (f new)).
  { intros f l. subst l st2. simpl.
    rewrite length_alter, length_app, Nat.add_1_r. simpl.
    rewrite list_lookup_alter, decide_True by done.
    rewrite lookup_app_r, Nat.sub_diag by lia. reflexivity. }
  destruct (isAutoAnalyze (cells st2)).
  - destruct (analyzeLoop_effects (length (effects st1)) st2) as (f & Hf & Hclo).
    exists (f new). unfold current. rewrite Hf, Hlast, Hclo, analyzeLoop_cells.
    split; reflexivity.
  - exists new. unfold current.
    specialize (Hlast id). simpl in Hlast. rewrite list_alter_id in Hlast by done.
    split; [exact Hlast | reflexivity].
Qed.

Lemma rerender_current st : current_ok (rerender st).
Proof.
  unfold rerender.
  destruct (effects st !! current st) as [e|] eqn:He; [|apply loopEffect_current].
  case_decide; [|apply loopEffect_current].
  intros _. eauto.
Qed.

(** Committing a render twice is committing it once. *)
Lemma rerender_settled st : current_ok st -> alive st = true -> rerender st = st.
Proof.
  intros Hc Ha. destruct (Hc Ha) as (e & He & Hd).
  unfold rerender. rewrite He. now case_decide.
Qed.

(** *** Every step keeps the invariant *)

Lemma step_inv st ev : Inv st -> Inv (step st ev).
Proof.
  intros H. unfold step.
  destruct (negb (alive st) && user_event ev) eqn:Hg; [exact H|].
  assert (Hh : Inv (handle ev st)).
  { apply handle_inv; [|exact H].
    destruct (alive st); [now left | right]. simpl in Hg. exact Hg. }
  destruct (alive (handle ev st)) eqn:Ha.
  - now apply rerender_inv.
  - destruct Hh as [Ic Ir Iv Ig]. specialize (Ig Ha).
    split; simpl; [exact Ic | exact Ir | | intros _; exact Ig].
    intros v. simpl. rewrite Ig. discriminate.
Qed.

Lemma step_current st ev : current_ok st -> current_ok (step st ev).
Proof.
  intros H. unfold step.
  destruct (negb (alive st) && user_event ev); [exact H|].
  destruct (alive (handle ev st)) eqn:Ha.
  - apply rerender_current.
  - intros Ha'. simpl in Ha'. congruence.
Qed.

Lemma initial_inv m : Inv (initial m).
Proof. split; simpl; [constructor | constructor | intros v [=] | reflexivity]. Qed.

Lemma initial_current m : current_ok (initial m).
Proof. intros _. eexists. split; reflexivity. Qed.

Lemma run_inv evs st : Inv st -> current_ok st -> Inv (run evs st) /\ current_ok (run evs st).
Proof.
  revert st. induction evs as [|ev evs IH]; intros st Hi Hc; simpl; [now split|].
  apply IH; [now apply step_inv | now apply step_current].
Qed.

Lemma reachable_inv st : reachable st -> Inv st /\ current_ok st.
Proof.
  intros (m & evs & _ & ->). apply run_inv; [apply initial_inv | apply initial_current].
Qed.

Lemma reachable_step st ev : reachable st -> reachable (step st ev).
Proof.
  intros (m & evs & Hm & ->). exists m, (evs ++ [ev])%list. split; [exact Hm|].
  unfold run. now rewrite fold_left_app.
Qed.

(** *** Mode switch *)

(** What a switch of the mode does to the mounted vision panel.  When the
    new mode is one of the vision modes, the panel stays and ends up with the
    new mode, an empty result, an empty error and the live-analyze flag off;
    when it is a speech mode, App removes the panel. *)
Lemma step_SelectMode_resets (st : State) (m : AppMode) :
  alive st = true -> m <> mode (cells st) ->
  let st' := step st (SelectMode m) in
  if App.shows_VisionPanel m
  then mode (cells st') = m /\
       result (cells st') = None /\
       error (cells st') = None /\
       isAutoAnalyze (cells st') = false
  else alive st' = false.
Proof.
  intros Ha Hm. unfold step. rewrite Ha. simpl.
  rewrite decide_False by exact Hm.
  destruct (App.shows_VisionPanel m); [|reflexivity].
  assert (Hal : alive (onModeChange m st) = true).
  { unfold onModeChange, modeResetEffect. simpl. now rewrite loopEffect_alive. }
  rewrite Hal, rerender_cells.
  unfold onModeChange, modeResetEffect. simpl. rewrite loopEffect_cells.
  repeat split.
Qed.

Lemma initial_is_reset (m : AppMode) :
  result (cells (initial m)) = None /\ error (cells (initial m)) = None /\
  isAutoAnalyze (cells (initial m)) = false.
Proof. repeat split. Qed.

(** *** Requests and what they do to the display *)

Lemma analyzeLoop_tail_alive i st : alive (analyzeLoop_tail i st) = alive st.
Proof. unfold analyzeLoop_tail. cases. Qed.

Lemma processImage_return_cells o st : cells (processImage_return o st) = cells st.
Proof. destruct o; simpl; auto using analyzeLoop_tail_cells. Qed.

Lemma processImage_return_alive o st : alive (processImage_return o st) = alive st.
Proof. destruct o; simpl; auto using analyzeLoop_tail_alive. Qed.

Lemma processImage_alive c o image st : alive (processImage c o image st) = alive st.
Proof.
  unfold processImage. destruct (service_of (mode c)); simpl;
    rewrite ?processImage_return_alive; now destruct (isAutoAnalyze c).
Qed.

(** A [processImage] of a render with [isAutoAnalyze] leaves [result] alone
    when it starts. *)
Lemma processImage_result c o image st :
  isAutoAnalyze c = true ->
  result (cells (processImage c o image st)) = result (cells st).
Proof.
  intros Hauto. unfold processImage. rewrite Hauto.
  destruct (service_of (mode c)); simpl; rewrite ?processImage_return_cells; reflexivity.
Qed.

Lemma processImage_settled_alive rq r st :
  alive (processImage_settled rq r st) = alive st.
Proof.
  unfold processImage_settled. rewrite processImage_return_alive.
  destruct r; [destruct (isAutoAnalyze (rq_closure rq))|]; reflexivity.
Qed.

Lemma processImage_settled_cells rq r st :
  cells (processImage_settled rq r st)
  = with_isLoading false
      match r with
      | inr data => with_result (Some data) (cells st)
      | inl _ => if isAutoAnalyze (rq_closure rq) then cells st
                 else with_error (Some "Failed to process image.") (cells st)
      end.
Proof.
  unfold processImage_settled. rewrite processImage_return_cells.
  destruct r; [destruct (isAutoAnalyze (rq_closure rq))|]; reflexivity.
Qed.

Lemma captureFrame_settled_alive pc st : alive (captureFrame_settled pc st) = alive st.
Proof.
  unfold captureFrame_settled, analyzeLoop_resume.
  cases; rewrite ?processImage_alive, ?analyzeLoop_tail_alive; reflexivity.
Qed.

(** The cells after the answer to request [id] has been handled and the
    render committed. *)
Lemma step_Response_cells st id rq r :
  alive st = true -> find_id id (requests st) = Some rq ->
  cells (step st (Response id r))
  = with_isLoading false
      match r with
      | inr data => with_result (Some data) (cells st)
      | inl _ => if isAutoAnalyze (rq_closure rq) then cells st
                 else with_error (Some "Failed to process image.") (cells st)
      end.
Proof.
  intros Ha Hf. unfold step. rewrite Ha. simpl. rewrite Hf.
  rewrite processImage_settled_alive. simpl. rewrite Ha.
  now rewrite rerender_cells, processImage_settled_cells.
Qed.

(** C8: a request of the continuous loop leaves the displayed result alone
    when it starts, and when it fails neither the result nor the error
    changes; a failing request of the capture button sets the error. *)
Theorem loop_failures_absorbed_manual_failures_shown (st : State) :
  reachable st -> alive st = true ->
  (forall id pc i,
      find_id id (captures st) = Some pc -> pc_origin pc = FromLoop i ->
      result (cells (step st (BlobReady id))) = result (cells st)) /\
  (forall id rq e,
      find_id id (requests st) = Some rq ->
      let st' := step st (Response id (inl e)) in
      match rq_origin rq with
      | FromLoop _ =>
          result (cells st') = result (cells st) /\ error (cells st') = error (cells st)
      | FromManual => error (cells st') = Some "Failed to process image."
      | FromUpload => True
      end).
Proof.
  intros Hreach Ha. destruct (reachable_inv st Hreach) as [[Ic Ir _ _] _]. split.
  - intros id pc i Hf Ho.
    pose proof (find_id_Forall capture_ok _ _ _ Ic Hf) as Hok.
    unfold capture_ok in Hok. rewrite Ho in Hok. simpl in Hok.
    unfold step. rewrite Ha. simpl. rewrite Hf.
    rewrite captureFrame_settled_alive. simpl. rewrite Ha, rerender_cells.
    unfold captureFrame_settled, analyzeLoop_resume. rewrite Ho.
    destruct (pc_blob pc).
    + now rewrite processImage_result.
    + now rewrite analyzeLoop_tail_cells.
  - intros id rq e Hf st'. subst st'.
    pose proof (find_id_Forall request_ok _ _ _ Ir Hf) as Hok.
    rewrite (step_Response_cells st id rq _ Ha Hf).
    unfold request_ok in Hok.
    destruct (rq_origin rq); simpl in Hok; [| |exact I]; rewrite Hok; simpl; auto.
Qed.

(** The answer to a request reaches a panel that is gone: no cell changes. *)
Lemma step_Response_gone st id r :
  alive st = false -> cells (step st (Response id r)) = cells st.
Proof.
  intros Ha. unfold step. rewrite Ha. simpl.
  destruct (find_id id (requests st)) as [rq|]; [|now rewrite Ha].
  rewrite processImage_settled_alive. simpl. now rewrite Ha.
Qed.

(** C2 (amended): when the loop is stopped while one of its requests is
    outstanding, the answer is dropped only where the stop was the removal
    of the panel (a switch to a speech mode): then no cell changes.  Where
    the panel stays (the loop is toggled off, the camera is stopped, or the
    mode is switched to another vision mode, each of which leaves the
    live-analyze flag off) the answer is not dropped: a successful answer
    replaces the displayed result, a failed one leaves it as it is, and the
    error is as before in both cases. *)
Theorem stopped_loop_answer_dropped_only_when_unmounted (st : State) (id : nat)
    (rq : InFlight) (r : Settled VisionResult) :
  reachable st ->
  find_id id (requests st) = Some rq ->
  (exists i, rq_origin rq = FromLoop i) ->
  alive st = false \/ isAutoAnalyze (cells st) = false ->
  let st' := step st (Response id r) in
  if alive st
  then result (cells st') = match r with
                            | inr data => Some data
                            | inl _ => result (cells st)
                            end /\
       error (cells st') = error (cells st)
  else cells st' = cells st.
Proof.
  intros Hreach Hf [i Ho] _ st'. subst st'.
  destruct (alive st) eqn:Ha; [|now apply step_Response_gone].
  destruct (reachable_inv st Hreach) as [[_ Ir _ _] _].
  pose proof (find_id_Forall request_ok _ _ _ Ir Hf) as Hok.
  unfold request_ok in Hok. rewrite Ho in Hok. simpl in Hok.
  rewrite (step_Response_cells st id rq _ Ha Hf), Hok.
  destruct r; split; reflexivity.
Qed.

(** C7: while the live-analyze flag is on, the capture button does
    nothing: the state after the click is the state before it, so no frame
    is drawn or encoded and no request is issued. *)
Theorem manual_capture_rejected_while_looping (st : State) :
  reachable st -> isAutoAnalyze (cells st) = true -> step st ClickCapture = st.
Proof.
  intros Hreach Hauto. destruct (reachable_inv st Hreach) as [_ Hcur].
  unfold step. destruct (alive st) eqn:Ha; [|reflexivity]. simpl.
  unfold capture_disabled. rewrite Hauto, orb_true_r, andb_false_r, Ha.
  now apply rerender_settled.
Qed.

(** *** Frame sampling *)

(** C9: in every state the panel can reach, [captureFrame] settles to a
    JPEG blob of quality 0.8 with the size of the video surface when the
    session is active and that surface has a non-zero width and height, and
    to no frame otherwise (session inactive, or a zero dimension). *)
Theorem captureFrame_frame_or_nothing (st : State) :
  reachable st ->
  captured (captureFrame st).2
  = if isStreaming (cells st) && (0 <? (surface st).1) && (0 <? (surface st).2)
    then Some {| blob_type := "image/jpeg";
                 blob_content := CanvasFrame (8 # 10) (surface st).1 (surface st).2 |}
    else None.
Proof.
  intros Hreach. destruct (reachable_inv st Hreach) as [[_ _ Iv _] _].
  unfold captureFrame, surface.
  destruct (video st) as [v|] eqn:Hv; simpl.
  - destruct (Iv v Hv) as (Hs & c & Hc & Hctx). rewrite Hc. simpl. rewrite Hctx. simpl.
    unfold toBlob. simpl.
    destruct (videoWidth v) as [|w] eqn:Hw; simpl.
    { now rewrite andb_false_r. }
    destruct (videoHeight v) as [|h] eqn:Hh; simpl.
    { now rewrite andb_false_r. }
    rewrite Hs; [reflexivity|].
    unfold videoWidth in Hw. destruct (srcObject v); [eauto | discriminate].
  - now rewrite andb_false_r.
Qed.

(** *** The device stream *)

Lemma cleanup_device i st :
  streams (cleanup i st) = streams st /\ streamRef (cleanup i st) = streamRef st.
Proof. unfold cleanup, clearTimeout. cases. Qed.

Lemma analyzeLoop_tail_device i st :
  streams (analyzeLoop_tail i st) = streams st /\
  streamRef (analyzeLoop_tail i st) = streamRef st.
Proof. unfold analyzeLoop_tail. cases. Qed.

Lemma analyzeLoop_device i st :
  streams (analyzeLoop i st) = streams st /\ streamRef (analyzeLoop i st) = streamRef st.
Proof.
  unfold analyzeLoop.
  pose proof (captureFrame_resolved st) as Hres.
  assert (Hcf : streams (captureFrame st).1 = streams st /\
                streamRef (captureFrame st).1 = streamRef st).
  { unfold captureFrame. cases. }
  destruct (captureFrame st) as [st1 [b|b]]; cases; simpl in *.
  rewrite (Hres _ eq_refl) in *. simplify_eq. simpl.
  destruct (analyzeLoop_tail_device i st1) as [-> ->]. exact Hcf.
Qed.

Lemma loopEffect_device st :
  streams (loopEffect st) = streams st /\ streamRef (loopEffect st) = streamRef st.
Proof.
  unfold loopEffect. destruct (cleanup_device (current st) st) as [Hs Hr].
  case_match; simpl; [|now split].
  match goal with |- context [analyzeLoop ?i ?s] =>
    destruct (analyzeLoop_device i s) as [-> ->] end.
  now split.
Qed.

Lemma rerender_device st :
  streams (rerender st) = streams st /\ streamRef (rerender st) = streamRef st.
Proof. unfold rerender. cases; apply loopEffect_device. Qed.

Lemma live_stopped (tracks : list bool) : live ((fun _ => false) <$> tracks) = false.
Proof. unfold live. induction tracks; simpl; auto. Qed.

Lemma stopCamera_streams st :
  streams (stopCamera st)
  = match streamRef st with
    | Some s => alter (fmap (fun _ => false)) s (streams st)
    | None => streams st
    end.
Proof.
  unfold stopCamera. destruct (streamRef st); simpl; now destruct (video st).
Qed.

Lemma stopCamera_streamRef st : streamRef (stopCamera st) = None.
Proof.
  unfold stopCamera. destruct (streamRef st) eqn:Href; simpl;
    destruct (video st); simpl; auto.
Qed.

(** [stopCamera] stops every track of the stream behind [streamRef] and
    forgets the stream. *)
Lemma stopCamera_released st :
  only_ref_live st -> released (stopCamera st) /\ streamRef (stopCamera st) = None.
Proof.
  intros Honly. split; [|apply stopCamera_streamRef].
  intros s' tracks. rewrite stopCamera_streams.
  destruct (streamRef st) as [s|] eqn:Href.
  - rewrite list_lookup_alter. case_decide as Hs; [subst s'|].
    + destruct (streams st !! s); intros [= <-]. apply live_stopped.
    + intros Hl. destruct (live tracks) eqn:Hlive; [|reflexivity].
      specialize (Honly s' tracks Hl Hlive). congruence.
  - intros Hl. destruct (live tracks) eqn:Hlive; [|reflexivity].
    specialize (Honly s' tracks Hl Hlive). congruence.
Qed.

Lemma unmount_released_alive st : alive (unmount st) = false.
Proof. reflexivity. Qed.

Lemma unmount_released st :
  only_ref_live st ->
  alive (unmount st) = false /\ released (unmount st) /\ streamRef (unmount st) = None.
Proof.
  intros Honly. unfold unmount.
  set (st1 := set_canvas None (set_video None (cleanup (current st) st))).
  assert (H1 : only_ref_live st1).
  { intros s tracks. subst st1. simpl.
    destruct (cleanup_device (current st) st) as [-> ->]. apply Honly. }
  destruct (stopCamera_released st1 H1) as [Hrel Href].
  revert Hrel Href. generalize (stopCamera st1). intros st2 Hrel Href.
  split; [reflexivity|]. split; [exact Hrel | exact Href].
Qed.

Lemma step_unmount st m :
  alive st = true -> App.shows_VisionPanel m = false -> m <> mode (cells st) ->
  step st (SelectMode m) = on_cells (fun _ => cells st) (unmount st).
Proof.
  intros Ha Hm Hne. unfold step, handle. rewrite Ha. cbn [negb andb].
  rewrite decide_False by exact Hne. rewrite Hm.
  now rewrite unmount_released_alive.
Qed.

(** Why the stream behind [streamRef] need not be the only live one: the
    Camera button starts the camera again while it streams, and the second
    stream replaces the first in [streamRef] without stopping it. *)
Example restarted_camera_orphans_a_stream :
  let st := run [ClickSourceCamera; UserMediaGranted 1] (streaming CLASSIFICATION) in
  streamRef st = Some 1 /\ streams st = [[true]; [true]] /\
  streams (stopCamera st) = [[true]; [false]].
Proof. vm_compute. repeat split. Qed.

(** C3 (amended): [stopCamera], and with it the removal of the panel,
    stops every track of the stream the panel holds and drops the
    reference, so that nothing stays acquired when that stream was the only
    live one; a switch between vision modes does not touch the stream: it
    stays acquired and the panel keeps streaming. *)
Theorem camera_released_on_stop_and_teardown_only (st : State) :
  alive st = true -> only_ref_live st ->
  (released (stopCamera st) /\ streamRef (stopCamera st) = None) /\
  (forall m, App.shows_VisionPanel m = false -> m <> mode (cells st) ->
     let st' := step st (SelectMode m) in
     alive st' = false /\ released st' /\ streamRef st' = None) /\
  (forall m, App.shows_VisionPanel m = true ->
     let st' := step st (SelectMode m) in
     streams st' = streams st /\ streamRef st' = streamRef st /\
     isStreaming (cells st') = isStreaming (cells st)).
Proof.
  intros Ha Honly. split; [now apply stopCamera_released|]. split.
  - intros m Hm Hne st'. subst st'.
    rewrite (step_unmount st m Ha Hm Hne).
    destruct (unmount_released st Honly) as (Hal & Hrel & Href).
    revert Hal Hrel Href. generalize (unmount st). intros st2 Hal Hrel Href.
    split; [exact Hal|]. split; [exact Hrel | exact Href].
  - intros m Hm st'. subst st'. unfold step. rewrite Ha. simpl.
    case_decide as Hmode.
    + rewrite Ha. destruct (rerender_device st) as [-> ->].
      now rewrite rerender_cells.
    + rewrite Hm.
      assert (Hal : alive (onModeChange m st) = true).
      { unfold onModeChange, modeResetEffect. simpl. now rewrite loopEffect_alive. }
      rewrite Hal. destruct (rerender_device (onModeChange m st)) as [-> ->].
      rewrite rerender_cells. unfold onModeChange, modeResetEffect. simpl.
      match goal with |- context [loopEffect ?s] =>
        destruct (loopEffect_device s) as [-> ->]; rewrite (loopEffect_cells s) end.
      repeat split.
Qed.

(** *** The loop *)

Lemma run_reachable m evs :
  App.shows_VisionPanel m = true -> reachable (run evs (initial m)).
Proof. intros Hm. now exists m, evs. Qed.

(** The tick itself honours the busy flag: with [isLoading] in its closure
    [analyzeLoop] draws and encodes nothing and issues no request, and when
    its run is live it sets the 200 ms timer. *)
Lemma analyzeLoop_busy i e st :
  effects st !! i = Some e -> isLoading (closure e) = true ->
  let st' := analyzeLoop i st in
  captures st' = captures st /\ requests st' = requests st /\ canvas st' = canvas st /\
  timers st'
  = if isAutoAnalyze (closure e) && mounted e && isStreaming (closure e)
    then (timers st ++ [{| t_id := fresh st; t_effect := i; t_delay := retry_delay |}])%list
    else timers st.
Proof.
  intros He Hbusy. unfold analyzeLoop. rewrite He, Hbusy.
  destruct (isAutoAnalyze (closure e)), (mounted e), (isStreaming (closure e));
    simpl; repeat split.
Qed.

(** The delays [analyzeLoop] chooses between. *)
Lemma cadence_values (m : AppMode) :
  cadence HAND_GESTURES = 500 /\
  (m <> HAND_GESTURES -> cadence m = 2500) /\
  retry_delay = 200 /\ retry_delay <> cadence m.
Proof.
  unfold cadence, retry_delay. repeat split; try case_decide; try done.
Qed.

(** A concrete state is reachable when a run from [initial] computes to it. *)
Ltac reached m evs :=
  exists m, evs; split; [reflexivity | vm_compute; reflexivity].

(** C1 fails on the code: when the mode is switched while the frame of a
    tick is still being encoded, the loop effect of the render with the new
    mode starts a second capture before the reset of [isAutoAnalyze] takes
    effect; both captures then go on to [processImage], and two requests are
    outstanding at once. *)
Theorem two_requests_in_flight :
  let st := run [SelectMode OBJECT_DETECTION; BlobReady 0; BlobReady 1]
                (encoding CLASSIFICATION) in
  reachable st /\
  map (fun p => (rq_origin p.2, rq_call p.2)) (requests st)
  = [(FromLoop 2, classifyImage); (FromLoop 3, detectObjects)].
Proof.
  split; [|vm_compute; reflexivity].
  reached CLASSIFICATION
    (camera_on ++ [ClickToggleAuto; SelectMode OBJECT_DETECTION;
                   BlobReady 0; BlobReady 1])%list.
Qed.

(** The same overlap without a mode switch: the loop is switched off and on
    again, or switched on after the capture button, within one encoding. *)
Example two_requests_by_toggling :
  length (requests (run [ClickToggleAuto; ClickToggleAuto; BlobReady 0; BlobReady 1]
                        (encoding CLASSIFICATION))) = 2.
Proof. vm_compute. reflexivity. Qed.

Example two_requests_by_capture_then_loop :
  map (fun p => rq_origin p.2)
      (requests (run [ClickCapture; ClickToggleAuto; BlobReady 0; BlobReady 1]
                     (streaming CLASSIFICATION)))
  = [FromManual; FromLoop 2].
Proof. vm_compute. reflexivity. Qed.

(** C6 fails on the code: in gesture mode the loop captures a frame and
    sends it; when the answer arrives no timer is set at all (the run that
    awaited it was cleaned up when [isLoading] changed), and the effect run
    of the next render has already started the next capture. *)
Theorem no_delay_after_a_frame :
  let st := requesting HAND_GESTURES in
  let st' := step st (Response 1 (inr waving)) in
  map (fun p => rq_origin p.2) (requests st) = [FromLoop 2] /\
  requests st' = [] /\
  timers st' = [] /\
  map (fun p => (p.1, pc_origin p.2)) (captures st') = [(3, FromLoop 4)].
Proof. vm_compute. repeat split. Qed.

(** The delay of the mode is what separates two attempts that find no
    frame. *)
Example cadence_without_frame :
  timers (run [ClickSourceCamera; UserMediaGranted 1; ClickToggleAuto; BlobReady 0]
              (initial HAND_GESTURES))
  = [{| t_id := 1; t_effect := 2; t_delay := 500 |}].
Proof. vm_compute. reflexivity. Qed.

(** *** Counterexamples to the claims as stated *)

(** C2, as stated, fails: the loop is switched off while its request is
    outstanding, and the answer still replaces the displayed result. *)
Lemma stopped_loop_answer_is_shown :
  let st := step (requesting CLASSIFICATION) ClickToggleAuto in
  let st' := step st (Response 1 (inr cat)) in
  isAutoAnalyze (cells st) = false /\
  map (fun p => (p.1, rq_origin p.2)) (requests st) = [(1, FromLoop 2)] /\
  result (cells st) = None /\
  result (cells st') = Some cat /\
  result (cells st') <> result (cells st).
Proof. vm_compute. repeat split. discriminate. Qed.

(** C3, as stated, fails: after a switch from classification to detection
    the stream is still referenced, its track is live and the panel still
    streams. *)
Lemma mode_switch_keeps_the_stream :
  let st' := step (streaming CLASSIFICATION) (SelectMode OBJECT_DETECTION) in
  mode (cells st') = OBJECT_DETECTION /\
  streamRef st' = Some 0 /\
  streams st' = [[true]] /\
  isStreaming (cells st') = true /\
  ~ released st'.
Proof.
  cbv zeta. repeat split; try (vm_compute; reflexivity).
  intros H. specialize (H 0 [true]). vm_compute in H. specialize (H eq_refl).
  discriminate.
Qed.

(** *** Instances *)

Lemma manual_capture_rejected_while_looping_witness :
  step (requesting OBJECT_DETECTION) ClickCapture = requesting OBJECT_DETECTION.
Proof.
  apply (manual_capture_rejected_while_looping (requesting OBJECT_DETECTION)).
  - reached OBJECT_DETECTION (camera_on ++ [ClickToggleAuto; BlobReady 0])%list.
  - vm_compute. reflexivity.
Defined.

Lemma loop_failures_absorbed_manual_failures_shown_witness :
  let looping := requesting HAND_GESTURES in
  let manual := run [ClickCapture; BlobReady 0] (streaming HAND_GESTURES) in
  (result (cells (step looping (Response 1 (inl offline)))) = result (cells looping) /\
   error (cells (step looping (Response 1 (inl offline)))) = error (cells looping)) /\
  error (cells (step manual (Response 1 (inl offline))))
    = Some "Failed to process image.".
Proof.
  split.
  - assert (Hreach : reachable (requesting HAND_GESTURES))
      by reached HAND_GESTURES (camera_on ++ [ClickToggleAuto; BlobReady 0])%list.
    assert (Ha : alive (requesting HAND_GESTURES) = true) by (vm_compute; reflexivity).
    pose proof (proj2 (loop_failures_absorbed_manual_failures_shown _ Hreach Ha)) as H.
    eassert (Hf : find_id 1 (requests (requesting HAND_GESTURES)) = Some _)
      by (vm_compute; reflexivity).
    exact (H 1 _ offline Hf).
  - assert (Hreach : reachable (run [ClickCapture; BlobReady 0] (streaming HAND_GESTURES)))
      by reached HAND_GESTURES (camera_on ++ [ClickCapture; BlobReady 0])%list.
    assert (Ha : alive (run [ClickCapture; BlobReady 0] (streaming HAND_GESTURES)) = true)
      by (vm_compute; reflexivity).
    pose proof (proj2 (loop_failures_absorbed_manual_failures_shown _ Hreach Ha)) as H.
    eassert (Hf : find_id 1 (requests (run [ClickCapture; BlobReady 0]
                                           (streaming HAND_GESTURES))) = Some _)
      by (vm_compute; reflexivity).
    exact (H 1 _ offline Hf).
Defined.

Lemma stopped_loop_answer_dropped_only_when_unmounted_witness :
  (* the loop is toggled off: the panel stays *)
  (let st := step (requesting CLASSIFICATION) ClickToggleAuto in
   (result (cells (step st (Response 1 (inr cat)))) = Some cat /\
    error (cells (step st (Response 1 (inr cat)))) = error (cells st)) /\
   (result (cells (step st (Response 1 (inl offline)))) = result (cells st) /\
    error (cells (step st (Response 1 (inl offline)))) = error (cells st))) /\
  (* the mode is switched to another vision mode: the panel stays *)
  (let st := step (requesting CLASSIFICATION) (SelectMode OBJECT_DETECTION) in
   result (cells (step st (Response 1 (inr cat)))) = Some cat /\
   error (cells (step st (Response 1 (inr cat)))) = error (cells st)) /\
  (* the mode is switched to a speech mode: the panel is removed *)
  (let st := step (requesting CLASSIFICATION) (SelectMode TEXT_TO_SPEECH) in
   cells (step st (Response 1 (inr cat))) = cells st).
Proof.
  assert (Hreach : forall ev, reachable (step (requesting CLASSIFICATION) ev)).
  { intros ev. apply reachable_step.
    reached CLASSIFICATION (camera_on ++ [ClickToggleAuto; BlobReady 0])%list. }
  eassert (Hf1 : find_id 1 (requests (step (requesting CLASSIFICATION) ClickToggleAuto))
                 = Some _) by (vm_compute; reflexivity).
  eassert (Hf2 : find_id 1 (requests (step (requesting CLASSIFICATION)
                                           (SelectMode OBJECT_DETECTION)))
                 = Some _) by (vm_compute; reflexivity).
  eassert (Hf3 : find_id 1 (requests (step (requesting CLASSIFICATION)
                                           (SelectMode TEXT_TO_SPEECH)))
                 = Some _) by (vm_compute; reflexivity).
  split; [split|split].
  - exact (stopped_loop_answer_dropped_only_when_unmounted _ 1 _ (inr cat)
             (Hreach _) Hf1 (ex_intro _ 2 eq_refl) (or_intror eq_refl)).
  - exact (stopped_loop_answer_dropped_only_when_unmounted _ 1 _ (inl offline)
             (Hreach _) Hf1 (ex_intro _ 2 eq_refl) (or_intror eq_refl)).
  - exact (stopped_loop_answer_dropped_only_when_unmounted _ 1 _ (inr cat)
             (Hreach _) Hf2 (ex_intro _ 2 eq_refl) (or_intror eq_refl)).
  - exact (stopped_loop_answer_dropped_only_when_unmounted _ 1 _ (inr cat)
             (Hreach _) Hf3 (ex_intro _ 2 eq_refl) (or_introl eq_refl)).
Defined.

Lemma captureFrame_frame_or_nothing_witness :
  captured (captureFrame (streaming CLASSIFICATION)).2
  = (if isStreaming (cells (streaming CLASSIFICATION))
        && (0 <? (surface (streaming CLASSIFICATION)).1)
        && (0 <? (surface (streaming CLASSIFICATION)).2)
     then Some {| blob_type := "image/jpeg";
                  blob_content := CanvasFrame (8 # 10)
                                    (surface (streaming CLASSIFICATION)).1
                                    (surface (streaming CLASSIFICATION)).2 |}
     else None)
  /\ surface (streaming CLASSIFICATION) = (1280, 720).
Proof.
  split; [|vm_compute; reflexivity].
  apply (captureFrame_frame_or_nothing (streaming CLASSIFICATION)).
  reached CLASSIFICATION camera_on.
Defined.

Lemma streaming_only_ref_live : only_ref_live (streaming CLASSIFICATION).
Proof.
  intros s tracks Hl _. vm_compute in Hl. vm_compute.
  destruct s as [|s]; [reflexivity|]. destruct s; discriminate.
Defined.

Lemma camera_released_on_stop_and_teardown_only_witness :
  let st := streaming CLASSIFICATION in
  (released (stopCamera st) /\ streamRef (stopCamera st) = None) /\
  (alive (step st (SelectMode TEXT_TO_SPEECH)) = false /\
   released (step st (SelectMode TEXT_TO_SPEECH)) /\
   streamRef (step st (SelectMode TEXT_TO_SPEECH)) = None) /\
  streams (step st (SelectMode HAND_GESTURES)) = streams st.
Proof.
  assert (Ha : alive (streaming CLASSIFICATION) = true) by (vm_compute; reflexivity).
  destruct (camera_released_on_stop_and_teardown_only (streaming CLASSIFICATION)
              Ha streaming_only_ref_live) as (Hstop & Hgone & Hkeep).
  split; [exact Hstop|]. split.
  - apply (Hgone TEXT_TO_SPEECH); [reflexivity | vm_compute; discriminate].
  - exact (proj1 (Hkeep HAND_GESTURES eq_refl)).
Defined.

(** *** Effect runs and what awaits them *)

Lemma evolves_refl l : evolves l l.
Proof. split; [reflexivity|]. intros i e e' H1 H2. now simplify_eq. Qed.

Lemma evolves_trans l1 l2 l3 : evolves l1 l2 -> evolves l2 l3 -> evolves l1 l3.
Proof.
  intros [Hl12 H12] [Hl23 H23]. split; [congruence|].
  intros i e1 e3 H1 H3.
  destruct (l2 !! i) as [e2|] eqn:H2.
  - destruct (H12 i e1 e2 H1 H2) as [Hc Hm], (H23 i e2 e3 H2 H3) as [Hc' Hm'].
    split; [congruence | auto].
  - apply lookup_ge_None in H2. apply lookup_lt_Some in H1. lia.
Qed.

Lemma evolves_alter (f : LoopEffect -> LoopEffect) i l :
  (forall e, closure (f e) = closure e /\ (mounted (f e) = true -> mounted e = true)) ->
  evolves l (alter f i l).
Proof.
  intros Hf. split; [apply length_alter|].
  intros j e e' H1 H2. rewrite list_lookup_alter in H2.
  case_decide; [|now simplify_eq].
  subst j. rewrite H1 in H2. simpl in H2. simplify_eq. apply Hf.
Qed.

Lemma evolves_lookup l l' i e :
  evolves l l' -> l !! i = Some e ->
  exists e', l' !! i = Some e' /\ closure e' = closure e /\
             (mounted e' = true -> mounted e = true).
Proof.
  intros [Hlen H] Hl.
  destruct (l' !! i) as [e'|] eqn:Hl'.
  - exists e'. split; [reflexivity|]. eauto.
  - apply lookup_ge_None in Hl'. apply lookup_lt_Some in Hl. lia.
Qed.

Lemma run_of_evolves l l' o Q :
  stable Q -> evolves l l' -> run_of l o Q -> run_of l' o Q.
Proof.
  intros HQ Hev. destruct o as [i| |]; simpl; [|auto..].
  intros (e & He & Hq). destruct (evolves_lookup _ _ _ _ Hev He) as (e' & He' & Hc & Hm).
  exists e'. split; [exact He'|]. eapply HQ; eauto.
Qed.

Lemma stable_idle : stable idle.
Proof. intros e e' Hc _. unfold idle. now rewrite Hc. Qed.

Lemma stable_finished : stable finished.
Proof.
  intros e e' _ Hm. unfold finished. intros H.
  destruct (mounted e') eqn:H'; [|reflexivity]. rewrite Hm in H; [discriminate | reflexivity].
Qed.

Lemma stable_superseded b : stable (superseded b).
Proof.
  intros e e' Hc Hm. unfold superseded. rewrite Hc. auto.
Qed.

Lemma Runs_evolve Q st st' :
  stable Q -> evolves (effects st) (effects st') ->
  captures st' = captures st -> requests st' = requests st -> alive st' = alive st ->
  Runs Q st -> Runs Q st'.
Proof.
  intros HQ Hev Hc Hr Ha [R1 R2 R3]. split.
  - intros i e' He' Hm.
    destruct (effects st !! i) as [e|] eqn:He.
    + destruct Hev as [Hlen Hev]. destruct (Hev i e e' He He') as [_ Hm'].
      destruct (R1 i e He (Hm' Hm)) as [Hi Hal].
      unfold current in *. rewrite Hlen, Ha. auto.
    + destruct Hev as [Hlen _].
      apply lookup_ge_None in He. apply lookup_lt_Some in He'. lia.
  - rewrite Hc. eapply List.Forall_impl; [|exact R2].
    intros p Hp. eapply run_of_evolves; eauto using stable_idle.
  - rewrite Hr. eapply List.Forall_impl; [|exact R3].
    intros p Hp. eapply run_of_evolves; eauto.
Qed.

Ltac evolve st :=
  apply (Runs_evolve _ st);
  [ assumption
  | first [ apply evolves_refl | apply evolves_alter; intros; split; auto ]
  | reflexivity.. | ].

Ltac unchanged st :=
  apply (Runs_evolve finished st); [apply stable_finished | apply evolves_refl
                                   | reflexivity.. | ].

Lemma Runs_weaken b st : Runs finished st -> Runs (superseded b) st.
Proof.
  intros [R1 R2 R3]. split; [exact R1 | exact R2 |].
  eapply List.Forall_impl; [|exact R3]. intros p. simpl.
  destruct (rq_origin p.2); simpl; auto.
  intros (e & He & Hf). exists e. split; [exact He|].
  unfold finished, superseded in *. congruence.
Qed.

Section Pieces.

Variable Q : LoopEffect -> Prop.
Hypothesis HQ : stable Q.

Lemma setTimeout_runs i d st : Runs Q st -> Runs Q (setTimeout i d st).
Proof. intros H. now evolve st. Qed.

Lemma clearTimeout_runs t st : Runs Q st -> Runs Q (clearTimeout t st).
Proof. intros H. destruct t; [now evolve st | exact H]. Qed.

Lemma analyzeLoop_tail_runs i st : Runs Q st -> Runs Q (analyzeLoop_tail i st).
Proof. intros H. unfold analyzeLoop_tail. cases. now apply setTimeout_runs. Qed.

Lemma processImage_return_runs o st : Runs Q st -> Runs Q (processImage_return o st).
Proof. destruct o; simpl; auto using analyzeLoop_tail_runs. Qed.

Lemma processImage_settled_runs rq r st :
  Runs Q st -> Runs Q (processImage_settled rq r st).
Proof.
  intros H. unfold processImage_settled. apply processImage_return_runs.
  destruct r; [destruct (isAutoAnalyze (rq_closure rq))|]; now evolve st.
Qed.

Lemma captureFrame_runs st : Runs Q st -> Runs Q (captureFrame st).1.
Proof. intros H. unfold captureFrame. cases; now evolve st. Qed.

Lemma analyzeLoop_runs i st : Runs Q st -> Runs Q (analyzeLoop i st).
Proof.
  intros H. unfold analyzeLoop.
  destruct (effects st !! i) as [e|] eqn:He; [|exact H].
  destruct (_ || _); [exact H|].
  destruct (isLoading (closure e)) eqn:Hbusy; [now apply setTimeout_runs|].
  pose proof (captureFrame_runs st H) as Hcf.
  pose proof (captureFrame_resolved st) as Hres.
  pose proof (captureFrame_effects st) as Heff.
  destruct (captureFrame st) as [st1 [b|b]]; simpl in *.
  - rewrite (Hres b eq_refl). now apply analyzeLoop_tail_runs.
  - destruct Hcf as [R1 R2 R3]. split; [exact R1 | | exact R3].
    simpl. apply Forall_app. split; [exact R2|].
    constructor; [|constructor]. simpl. rewrite Heff. eauto.
Qed.

Lemma cleanup_runs i st : Runs Q st -> Runs Q (cleanup i st).
Proof.
  intros H. unfold cleanup. destruct (effects st !! i); [|exact H].
  apply clearTimeout_runs. evolve st; [discriminate | exact H].
Qed.

End Pieces.

(** After the cleanup of the current run no run is mounted. *)
Lemma cleanup_current_finished Q st i e :
  Runs Q st -> effects (cleanup (current st) st) !! i = Some e -> mounted e = false.
Proof.
  intros [R1 _ _]. unfold cleanup.
  destruct (effects st !! current st) as [ec|] eqn:Hc.
  - assert (Heff : effects (clearTimeout (timeoutId ec)
                     (set_effects (alter (set_mounted false) (current st) (effects st)) st))
                   = alter (set_mounted false) (current st) (effects st))
      by now destruct (timeoutId ec).
    rewrite Heff, list_lookup_alter. case_decide as Hi.
    + subst i. rewrite Hc. now intros [= <-].
    + intros He. destruct (mounted e) eqn:Hm; [|reflexivity].
      destruct (R1 i e He Hm). congruence.
  - intros He. destruct (mounted e) eqn:Hm; [|reflexivity].
    destruct (R1 i e He Hm). congruence.
Qed.

Lemma run_of_app l new o Q : run_of l o Q -> run_of (l ++ [new]) o Q.
Proof.
  destruct o as [i| |]; simpl; auto.
  intros (e & He & Hq). exists e. split; [|exact Hq].
  now apply lookup_app_l_Some.
Qed.

(** A new run of the loop effect leaves every earlier run cleaned up. *)
Lemma loopEffect_runs Q st :
  stable Q -> alive st = true -> Runs Q st -> Runs finished (loopEffect st).
Proof.
  intros HQ Ha H. unfold loopEffect.
  pose proof (cleanup_runs Q HQ (current st) st H) as [R1 R2 R3].
  pose proof (fun i e => cleanup_current_finished Q st i e H) as Hfin.
  pose proof (cleanup_alive (current st) st) as Hal.
  set (st1 := cleanup _ st) in *.
  set (new := {| closure := cells st1; mounted := true; timeoutId := None |}).
  assert (H2 : Runs finished (set_effects (effects st1 ++ [new]) st1)).
  { split; simpl.
    - intros i e He Hm. apply lookup_app_Some in He as [He|[Hi He]].
      + rewrite (Hfin i e He) in Hm. discriminate.
      + split; [|congruence]. unfold current. simpl.
        rewrite length_app, Nat.add_1_r. simpl.
        apply lookup_lt_Some in He. simpl in He. lia.
    - eapply List.Forall_impl; [|exact R2]. intros p. apply run_of_app.
    - eapply List.Forall_impl; [|exact R3]. intros p Hp. apply run_of_app.
      simpl in Hp. destruct (rq_origin p.2); simpl; auto.
      destruct Hp as (e & He & _). exists e. split; [exact He|]. exact (Hfin _ _ He). }
  destruct (isAutoAnalyze _); [|exact H2].
  apply analyzeLoop_runs; [apply stable_finished | exact H2].
Qed.

(** Committing the render turns "about to be cleaned up" into "cleaned up". *)
Lemma rerender_runs st :
  alive st = true -> Runs (superseded (isLoading (cells st))) st ->
  Runs finished (rerender st).
Proof.
  intros Ha H. unfold rerender.
  destruct (effects st !! current st) as [ec|] eqn:Hc;
    [|now apply (loopEffect_runs (superseded (isLoading (cells st))) st (stable_superseded _))].
  case_decide as Hd; [|now apply (loopEffect_runs (superseded (isLoading (cells st))) st (stable_superseded _))].
  destruct H as [R1 R2 R3]. split; [exact R1 | exact R2 |].
  eapply List.Forall_impl; [|exact R3]. intros p. simpl.
  destruct (rq_origin p.2); simpl; auto.
  intros (e & He & Hs). exists e. split; [exact He|].
  unfold finished. destruct (mounted e) eqn:Hm; [|reflexivity].
  destruct (R1 _ _ He Hm) as [-> _]. destruct (Hs Hm) as [Hidle Hbusy].
  assert (e = ec) as -> by congruence.
  unfold deps in Hd. congruence.
Qed.

Lemma processImage_runs c o image st :
  Runs finished st -> run_of (effects st) o idle ->
  Runs (superseded (isLoading (cells (processImage c o image st))))
       (processImage c o image st).
Proof.
  intros H Ho. unfold processImage.
  set (st3 := setError None _).
  assert (H3 : Runs finished st3).
  { subst st3. destruct (isAutoAnalyze c); now unchanged st. }
  assert (He3 : effects st3 = effects st).
  { subst st3. now destruct (isAutoAnalyze c). }
  assert (Hl : isLoading (cells st3) = true).
  { subst st3. now destruct (isAutoAnalyze c). }
  clearbody st3. rewrite <- He3 in Ho. clear He3 H st.
  destruct (service_of (mode c)).
  - unfold add_request. cbn [cells set_fresh set_requests]. rewrite Hl.
    destruct (Runs_weaken true st3 H3) as [R1 R2 R3].
    split; [exact R1 | exact R2 |]. cbn [requests effects set_fresh set_requests].
    apply Forall_app. split; [exact R3|]. constructor; [|constructor].
    cbn [snd rq_origin].
    destruct o; simpl in *; auto.
    destruct Ho as (e & He & Hi). exists e. split; [exact He|]. intros _. now split.
  - apply Runs_weaken, processImage_return_runs; [apply stable_finished|].
    now unchanged st3.
Qed.

Lemma captureFrame_settled_runs pc st :
  Runs finished st -> run_of (effects st) (pc_origin pc) idle ->
  Runs (superseded (isLoading (cells (captureFrame_settled pc st))))
       (captureFrame_settled pc st).
Proof.
  intros H Ho. unfold captureFrame_settled.
  destruct (pc_origin pc) as [i| |] eqn:Hor; unfold analyzeLoop_resume;
    destruct (pc_blob pc).
  - now apply processImage_runs.
  - apply Runs_weaken, analyzeLoop_tail_runs; [apply stable_finished | exact H].
  - now apply processImage_runs.
  - now apply Runs_weaken.
  - now apply processImage_runs.
  - now apply Runs_weaken.
Qed.

Lemma handleManualCapture_runs st :
  Runs finished st ->
  Runs (superseded (isLoading (cells (handleManualCapture st)))) (handleManualCapture st).
Proof.
  intros H. unfold handleManualCapture.
  pose proof (captureFrame_runs _ stable_finished st H) as Hcf.
  destruct (captureFrame st) as [st1 [b|b]]; simpl in *.
  - destruct b; [now apply processImage_runs | now apply Runs_weaken].
  - apply Runs_weaken. destruct Hcf as [R1 R2 R3]. split; [exact R1 | | exact R3].
    simpl. apply Forall_app. split; [exact R2|]. constructor; [exact I | constructor].
Qed.

Lemma stopCamera_effects st :
  effects (stopCamera st) = effects st /\ captures (stopCamera st) = captures st /\
  requests (stopCamera st) = requests st /\ alive (stopCamera st) = alive st.
Proof. unfold stopCamera. cases. Qed.

Lemma stopCamera_runs Q st : stable Q -> Runs Q st -> Runs Q (stopCamera st).
Proof.
  intros HQ H. destruct (stopCamera_effects st) as (He & Hc & Hr & Ha).
  apply (Runs_evolve Q st); auto. rewrite He. apply evolves_refl.
Qed.

Lemma onModeChange_runs m st :
  alive st = true -> Runs finished st -> Runs finished (onModeChange m st).
Proof.
  intros Ha H. unfold onModeChange.
  set (st1 := on_cells (with_mode m) st).
  assert (H1 : Runs finished (loopEffect st1)).
  { apply (loopEffect_runs finished); [apply stable_finished | exact Ha |].
    now unchanged st. }
  revert H1. generalize (loopEffect st1). intros st2 H2.
  now unchanged st2.
Qed.

Lemma unmount_runs st : Runs finished st -> Runs finished (unmount st).
Proof.
  intros H. unfold unmount.
  pose proof (cleanup_runs _ stable_finished (current st) st H) as H1.
  pose proof (fun i e => cleanup_current_finished _ st i e H) as Hfin.
  set (st1 := cleanup _ st) in *.
  assert (H2 : Runs finished (set_canvas None (set_video None st1)))
    by now unchanged st1.
  apply (stopCamera_runs _ _ stable_finished) in H2.
  destruct (stopCamera_effects (set_canvas None (set_video None st1))) as (He & _).
  revert H2 He. generalize (stopCamera (set_canvas None (set_video None st1))).
  intros st3 [R1 R2 R3] He. split; [| exact R2 | exact R3].
  simpl. intros i e Hl Hm. rewrite He in Hl. simpl in Hl.
  rewrite (Hfin i e Hl) in Hm. discriminate.
Qed.

Lemma handle_runs ev st :
  alive st = true \/ user_event ev = false ->
  Runs finished st ->
  Runs (superseded (isLoading (cells (handle ev st)))) (handle ev st).
Proof.
  intros Hlive H.
  assert (Hframe : forall b st', effects st' = effects st -> captures st' = captures st ->
            requests st' = requests st -> alive st' = alive st ->
            Runs (superseded b) st').
  { intros b st' He Hc Hr Ha. apply Runs_weaken.
    apply (Runs_evolve finished st); auto using stable_finished.
    rewrite He. apply evolves_refl. }
  destruct ev; unfold handle.
  - destruct Hlive as [Hlive|[=]].
    case_decide; [now apply Runs_weaken|].
    destruct (App.shows_VisionPanel _); apply Runs_weaken;
      [now apply onModeChange_runs | now apply unmount_runs].
  - now apply Hframe.
  - case_decide; now apply Hframe.
  - cases; now apply Hframe.
  - destruct (camera_controls _); [|now apply Runs_weaken].
    destruct (isStreaming _); [|now apply Hframe].
    apply Runs_weaken.
    unchanged (stopCamera (setFacingMode (flip (facingMode (cells st))) st)).
    apply stopCamera_runs; [apply stable_finished|]. now unchanged st.
  - destruct (_ && _); [now apply handleManualCapture_runs | now apply Runs_weaken].
  - cases; now apply Hframe.
  - destruct (selectedImage (cells st)); [|now apply Runs_weaken].
    destruct (_ && _); [now apply processImage_runs | now apply Runs_weaken].
  - cases; now apply Hframe.
  - cases; now apply Hframe.
  - cases; apply Hframe; unfold startCamera_granted; cases; reflexivity.
  - cases; now apply Hframe.
  - cases; now apply Hframe.
  - cases; try now apply Runs_weaken.
    apply Runs_weaken, analyzeLoop_runs; [apply stable_finished|].
    now unchanged st.
  - destruct (find_id id (captures st)) as [pc|] eqn:Hf; [|now apply Runs_weaken].
    destruct H as [R1 R2 R3].
    apply captureFrame_settled_runs.
    + split; [exact R1 | | exact R3]. simpl. now apply Forall_drop_id.
    + simpl. exact (find_id_Forall (fun pc => run_of (effects st) (pc_origin pc) idle)
                      _ _ _ R2 Hf).
  - destruct (find_id id (requests st)) as [rq|] eqn:Hf; [|now apply Runs_weaken].
    apply Runs_weaken, processImage_settled_runs; [apply stable_finished|].
    destruct H as [R1 R2 R3]. split; [exact R1 | exact R2 |]. simpl.
    now apply Forall_drop_id.
Qed.

Lemma step_runs st ev : Runs finished st -> Runs finished (step st ev).
Proof.
  intros H. unfold step.
  destruct (negb (alive st) && user_event ev) eqn:Hg; [exact H|].
  assert (Hh : Runs (superseded (isLoading (cells (handle ev st)))) (handle ev st)).
  { apply handle_runs; [|exact H].
    destruct (alive st); [now left | right]. simpl in Hg. exact Hg. }
  destruct (alive (handle ev st)) eqn:Ha.
  - now apply rerender_runs.
  - revert Hh Ha. generalize (handle ev st). intros st' [R1 R2 R3] Ha.
    split; [exact R1 | exact R2 |]. simpl.
    eapply List.Forall_impl; [|exact R3]. intros p. simpl.
    destruct (rq_origin p.2); simpl; auto.
    intros (e & He & _). exists e. split; [exact He|].
    unfold finished. destruct (mounted e) eqn:Hm; [|reflexivity].
    destruct (R1 _ _ He Hm). congruence.
Qed.

Lemma initial_runs m : Runs finished (initial m).
Proof.
  split; simpl; [|constructor..].
  intros [|i] e; simpl; [|discriminate]. now intros [= <-].
Qed.

Lemma reachable_runs st : reachable st -> Runs finished st.
Proof.
  intros (m & evs & _ & ->). generalize (initial_runs m). generalize (initial m).
  induction evs as [|ev evs IH]; intros st H; simpl; [exact H|].
  apply IH. now apply step_runs.
Qed.

(** X9: Whenever a request of the loop is outstanding, the effect run that
    awaits it has been cleaned up already; when the answer comes,
    [analyzeLoop] resumes with [mounted] false and sets no timer. *)
Theorem awaiting_run_is_finished (st : State) (id : nat) (rq : InFlight) (i : nat) :
  reachable st -> find_id id (requests st) = Some rq -> rq_origin rq = FromLoop i ->
  (exists e, effects st !! i = Some e /\ mounted e = false) /\
  forall r, timers (handle (Response id r) st) = timers st /\
            effects (handle (Response id r) st) = effects st.
Proof.
  intros Hreach Hf Ho. destruct (reachable_runs st Hreach) as [_ _ R3].
  pose proof (find_id_Forall (fun rq => run_of (effects st) (rq_origin rq) finished)
                _ _ _ R3 Hf) as Hrun.
  cbv beta in Hrun. rewrite Ho in Hrun.
  destruct Hrun as (e & He & Hfin). split; [eauto|].
  intros r. simpl. rewrite Hf. unfold processImage_settled. rewrite Ho. simpl.
  unfold analyzeLoop_tail.
  assert (Heff : forall st', effects st' = effects st ->
            match effects st' !! i with
            | Some e0 => if mounted e0 && isAutoAnalyze (closure e0)
                         then setTimeout i (cadence (mode (closure e0))) st' else st'
            | None => st'
            end = st').
  { intros st' ->. rewrite He, Hfin. reflexivity. }
  rewrite Heff by (destruct r; [destruct (isAutoAnalyze (rq_closure rq))|]; reflexivity).
  destruct r; [destruct (isAutoAnalyze (rq_closure rq))|]; split; reflexivity.
Qed.

End VisionPanelSpec.

(** ** More on the request wrappers *)

Module geminiServiceOutcomes.
Import geminiService.

(** A piece of text without a comma. *)
Fixpoint comma_free (s : string) : bool :=
  match s with
  | EmptyString => true
  | String c r => negb (Ascii.eqb c ","%char) && comma_free r
  end.

Lemma split_comma_free (s : string) : comma_free s = true -> split_comma s = [s].
Proof.
  induction s as [|c r IH]; simpl; [reflexivity|].
  intros [Hc Hr]%andb_prop. apply negb_true_iff in Hc. rewrite Hc, (IH Hr).
  reflexivity.
Qed.

Lemma split_comma_head (h p : string) :
  comma_free h = true -> split_comma (h ++ "," ++ p) = h :: split_comma p.
Proof.
  induction h as [|c r IH]; simpl; [reflexivity|].
  intros [Hc Hr]%andb_prop. apply negb_true_iff in Hc. rewrite Hc, (IH Hr).
  reflexivity.
Qed.

Lemma split_comma_first (s : string) : exists h t, split_comma s = h :: t.
Proof.
  induction s as [|c r (h & t & IH)]; simpl; [eauto|].
  destruct (Ascii.eqb c ","%char); [eauto|]. rewrite IH. eauto.
Qed.

(** The wrappers that show an image to the model share their shape. *)
Definition image_operation {Json : Type}
    (readAsDataURL : Blob -> Settled string)
    (generateContent : GenerateContentRequest -> Settled GenerateContentResponse)
    (JSON_parse : string -> Settled Json)
    (i : Instruction) (s : Schema) (imageFile : Blob) : Settled Json :=
  let! imagePart := fileToGenerativePart readAsDataURL imageFile in
  let! response := generateContent (image_request imagePart i s) in
  parse_text JSON_parse response.

Section Outcomes.

Context {Json : Type}.
Variable readAsDataURL : Blob -> Settled string.
Variable generateContent : GenerateContentRequest -> Settled GenerateContentResponse.
Variable JSON_parse : string -> Settled Json.

(** X12: [fileToGenerativePart] fails only when the reader does.  The payload it
    passes on is the text between the first and the second comma of the data
    URL (the base64 text of a well-formed URL), nothing when the URL has no
    comma; the media type is never empty, [image/jpeg] standing in for a
    blob without a type. *)
Theorem fileToGenerativePart_payload (file : Blob) :
  (forall e, readAsDataURL file = reject e ->
     fileToGenerativePart readAsDataURL file = reject e) /\
  (forall url, readAsDataURL file = resolve url ->
     exists part,
       fileToGenerativePart readAsDataURL file = resolve part /\
       mimeType part <> "" /\
       (blob_type file <> "" -> mimeType part = blob_type file) /\
       (blob_type file = "" -> mimeType part = "image/jpeg") /\
       (forall header payload, comma_free header = true -> comma_free payload = true ->
          url = header ++ "," ++ payload -> data part = Some payload) /\
       (forall header payload rest,
          comma_free header = true -> comma_free payload = true ->
          url = header ++ "," ++ payload ++ "," ++ rest -> data part = Some payload) /\
       (comma_free url = true -> data part = None)).
Proof.
  unfold fileToGenerativePart. split.
  - intros e ->. reflexivity.
  - intros url ->. simpl. eexists. split; [reflexivity|]. simpl.
    destruct (String.eqb_spec (blob_type file) "") as [He|Hne].
    + repeat split; try discriminate; try congruence.
      * intros h p Hh Hp ->. cbn [data]. rewrite (split_comma_head h p Hh).
        now rewrite (split_comma_free p Hp).
      * intros h p rest Hh Hp ->. cbn [data]. rewrite (split_comma_head h _ Hh).
        cbn [lookup list_lookup]. now rewrite (split_comma_head p rest Hp).
      * intros Hu. now rewrite (split_comma_free url Hu).
    + repeat split; try congruence.
      * intros h p Hh Hp ->. cbn [data]. rewrite (split_comma_head h p Hh).
        now rewrite (split_comma_free p Hp).
      * intros h p rest Hh Hp ->. cbn [data]. rewrite (split_comma_head h _ Hh).
        cbn [lookup list_lookup]. now rewrite (split_comma_head p rest Hp).
      * intros Hu. now rewrite (split_comma_free url Hu).
Qed.

Lemma image_operation_resolves (i : Instruction) (s : Schema) (file : Blob) (j : Json) :
  image_operation readAsDataURL generateContent JSON_parse i s file = resolve j ->
  exists part response t,
    fileToGenerativePart readAsDataURL file = resolve part /\
    generateContent (image_request part i s) = resolve response /\
    text response = Some t /\ t <> "" /\ JSON_parse t = resolve j.
Proof.
  unfold image_operation.
  destruct (fileToGenerativePart readAsDataURL file) as [e|part]; simpl; [discriminate|].
  destruct (generateContent (image_request part i s)) as [e|r] eqn:Hg; simpl;
    [discriminate|].
  unfold parse_text, truthy. destruct (text r) as [t|] eqn:Ht; [|discriminate].
  destruct (String.eqb_spec t "") as [->|Hne]; simpl; [discriminate|].
  intros Hj. exists part, r, t. auto.
Qed.

Lemma image_operation_rejects (i : Instruction) (s : Schema) (file : Blob) (e : JsError) :
  image_operation readAsDataURL generateContent JSON_parse i s file = reject e ->
  readAsDataURL file = reject e \/
  (exists rq, generateContent rq = reject e) \/
  (exists t, JSON_parse t = reject e) \/
  e = Error "No response text".
Proof.
  unfold image_operation, fileToGenerativePart.
  destruct (readAsDataURL file) as [e0|url]; simpl; [intros [= ->]; now left|].
  match goal with |- context [generateContent ?rq] =>
    destruct (generateContent rq) as [e0|r] eqn:Hg end; simpl.
  { intros [= ->]. right. left. eauto. }
  unfold parse_text, truthy. destruct (text r) as [t|];
    [|intros [= <-]; now repeat right].
  destruct (String.eqb t ""); simpl; [intros [= <-]; now repeat right|].
  intros Hj. right. right. left. eauto.
Qed.

(** X13: What [classifyImage], [detectObjects] and [detectHandGestures] can
    return.  A result is what [JSON.parse] makes of the non-empty text of the
    answer to the request that carries the image and the schema of that
    operation.  A failure is the failure of the reader, of the service or of
    the parser, passed on unchanged, or the error "No response text". *)
Theorem image_operations_outcomes (file : Blob) :
  let outcome (op : Blob -> Settled Json) (i : Instruction) (s : Schema) :=
    (forall j, op file = resolve j ->
       exists part response t,
         fileToGenerativePart readAsDataURL file = resolve part /\
         generateContent (image_request part i s) = resolve response /\
         text response = Some t /\ t <> "" /\ JSON_parse t = resolve j) /\
    (forall e, op file = reject e ->
       readAsDataURL file = reject e \/
       (exists rq, generateContent rq = reject e) \/
       (exists t, JSON_parse t = reject e) \/
       e = Error "No response text") in
  outcome (classifyImage readAsDataURL generateContent JSON_parse)
          ClassifyInstruction ClassificationSchema /\
  outcome (detectObjects readAsDataURL generateContent JSON_parse)
          DetectInstruction DetectionSchema /\
  outcome (detectHandGestures readAsDataURL generateContent JSON_parse)
          GestureInstruction GestureSchema.
Proof.
  simpl. repeat split; intros x Hx;
    first [ exact (image_operation_resolves _ _ file x Hx)
          | exact (image_operation_rejects _ _ file x Hx) ].
Qed.

(** X14: [synthesizeSpeech] returns audio exactly when the first part of the
    first candidate carries non-empty inline data, and then that data; later
    candidates and parts are not looked at.  It fails with the failure of
    the service, with "No audio data returned", or, when the first candidate
    has no content, with a [TypeError]. *)
Theorem synthesizeSpeech_outcomes (text voice : string) :
  (forall audio,
     synthesizeSpeech generateContent text voice = resolve audio <->
     exists response candidate others c part more i,
       generateContent (speech_request text voice) = resolve response /\
       candidates response = Some (candidate :: others) /\
       content candidate = Some c /\ parts c = Some (part :: more) /\
       inlineData part = Some i /\ data i = Some audio /\ audio <> "") /\
  (forall e,
     synthesizeSpeech generateContent text voice = reject e ->
     generateContent (speech_request text voice) = reject e \/
     e = Error "No audio data returned" \/
     (e = TypeError /\
      exists response candidate others,
        generateContent (speech_request text voice) = resolve response /\
        candidates response = Some (candidate :: others) /\
        content candidate = None)).
Proof.
  unfold synthesizeSpeech. split.
  - intros audio. split.
    + destruct (generateContent (speech_request text voice)) as [e|r]; simpl;
        [discriminate|].
      destruct (candidates r) as [[|cand others]|] eqn:Hc; try discriminate.
      destruct (content cand) as [c|] eqn:Hct; [|discriminate].
      destruct (parts c) as [[|p more]|] eqn:Hp; try discriminate.
      destruct (inlineData p) as [i|] eqn:Hi; [|discriminate].
      unfold truthy. destruct (data i) as [d|] eqn:Hd; [|discriminate].
      destruct (String.eqb_spec d "") as [->|Hne]; simpl; [discriminate|].
      intros [= <-]. exists r, cand, others, c, p, more, i. auto 10.
    + intros (r & cand & others & c & p & more & i & -> & Hc & Hct & Hp & Hi & Hd & Hne).
      simpl. rewrite Hc, Hct, Hp, Hi. unfold truthy. rewrite Hd.
      apply String.eqb_neq in Hne. now rewrite Hne.
  - intros e.
    destruct (generateContent (speech_request text voice)) as [e0|r]; simpl;
      [intros [= ->]; now left|].
    destruct (candidates r) as [[|cand others]|] eqn:Hc;
      try (intros [= <-]; right; now left).
    destruct (content cand) as [c|] eqn:Hct.
    + destruct (parts c) as [[|p more]|]; try (intros [= <-]; right; now left).
      destruct (inlineData p) as [i|]; [|intros [= <-]; right; now left].
      destruct (truthy (data i)); [discriminate | intros [= <-]; right; now left].
    + intros [= <-]. right. right. split; [reflexivity|].
      exists r, cand, others. auto.
Qed.

(** X15: [transcribeAudio] fails exactly when the reader or the service does,
    with their error; otherwise it resolves, and never to the empty text:
    an answer without text becomes "No transcription generated.". *)
Theorem transcribeAudio_outcomes (audioBlob : Blob) :
  (forall e,
     transcribeAudio readAsDataURL generateContent audioBlob = reject e <->
     readAsDataURL audioBlob = reject e \/
     exists url, readAsDataURL audioBlob = resolve url /\
                 generateContent (transcribe_request audioBlob (split_comma url !! 1))
                 = reject e) /\
  (forall t, transcribeAudio readAsDataURL generateContent audioBlob = resolve t ->
             t <> "") /\
  (forall url response,
     readAsDataURL audioBlob = resolve url ->
     generateContent (transcribe_request audioBlob (split_comma url !! 1))
     = resolve response ->
     exists t, transcribeAudio readAsDataURL generateContent audioBlob = resolve t /\
               (truthy (text response) = true -> text response = Some t) /\
               (truthy (text response) = false -> t = "No transcription generated.")).
Proof.
  unfold transcribeAudio. split; [|split].
  - intros e. split.
    + destruct (readAsDataURL audioBlob) as [e0|url]; simpl; [intros [= ->]; now left|].
      destruct (generateContent _) as [e0|r] eqn:Hg; simpl; [|discriminate].
      intros [= ->]. right. eauto.
    + intros [->|(url & -> & Hg)]; simpl; [reflexivity|]. now rewrite Hg.
  - intros t.
    destruct (readAsDataURL audioBlob) as [e0|url]; simpl; [discriminate|].
    destruct (generateContent _) as [e0|r]; simpl; [discriminate|].
    unfold truthy. destruct (text r) as [s|]; simpl.
    + destruct (String.eqb_spec s "") as [->|Hne]; simpl; intros [= <-];
        [discriminate | exact Hne].
    + intros [= <-]. discriminate.
  - intros url r -> Hg. simpl. rewrite Hg. simpl. eexists. split; [reflexivity|].
    unfold truthy. destruct (text r) as [s|]; simpl.
    + destruct (String.eqb s ""); simpl; split; intros; congruence.
    + split; intros; congruence.
Qed.

End Outcomes.

End geminiServiceOutcomes.

(** ** More on the speech panel: a whole text-to-speech request *)

Module SpeechPanelRound.
Import SpeechPanel SpeechPanelSpec.

Section Round.

Variable atob : string -> Settled (list N).
Variable createObjectURL : Blob -> string.


Lemma performs_app st l l' : performs st (l ++ l') = performs (performs st l) l'.
Proof. unfold performs. apply fold_left_app. Qed.


End Round.

(** X17: The Generate button issues one request at a time: after a click the
    button does nothing until the cells change again, whether the click
    started a request (the progress flag is on) or not (the text is blank or
    a request was under way already). *)
Theorem generate_button_one_request (st : State) :
  click_generate (performs st (click_generate st)) = [] /\
  length (filter (fun a => is_call a = true) (click_generate st)) <= 1.
Proof.
  unfold click_generate, generate_disabled, handleTTS.
  destruct (falsy (trim (textInput st))) eqn:Htext; simpl.
  - rewrite Htext. simpl. split; [reflexivity | simpl; lia].
  - destruct (isLoading st) eqn:Hl; simpl.
    + rewrite Htext, Hl. split; [reflexivity | simpl; lia].
    + rewrite Htext. simpl. split; [reflexivity | vm_compute; lia].
Qed.

(** *** Instance *)





End SpeechPanelRound.

(** ** The recorder of the speech panel *)

Module SpeechRecorderSpec.
Import SpeechPanel SpeechRecorder.
Import VisionPanel(find_id, drop_id).

Lemma find_id_app {A} r (l l' : list (nat * A)) :
  find_id r (l ++ l') = match find_id r l with
                        | Some a => Some a
                        | None => find_id r l'
                        end.
Proof.
  induction l as [|[k a] l IH]; simpl; [reflexivity|]. now case_decide.
Qed.

Lemma find_id_drop_same {A} r (l : list (nat * A)) : find_id r (drop_id r l) = None.
Proof.
  unfold drop_id. induction l as [|[k a] l IH]; simpl; [reflexivity|].
  rewrite filter_cons. simpl. case_decide as Hk; simpl; [|exact IH].
  now rewrite decide_False by exact Hk.
Qed.

Lemma find_id_drop_other {A} r r' (l : list (nat * A)) :
  r' <> r -> find_id r' (drop_id r l) = find_id r' l.
Proof.
  intros Hne. unfold drop_id. induction l as [|[k a] l IH]; simpl; [reflexivity|].
  rewrite filter_cons. simpl. case_decide as Hk; simpl.
  - now rewrite IH.
  - subst k. rewrite decide_False by congruence. exact IH.
Qed.

(** Whether a call of [transcribeAudio] made by recorder [r] is outstanding. *)
Definition awaited (r : nat) (p : Panel) : bool :=
  match find_id r (transcribing p) with
  | Some _ => true
  | None => false
  end.

(** The stream of a recorder is live while it records, while its [stop]
    event is queued, and while its transcription is outstanding. *)
Definition holds_microphone (p : Panel) (r : nat) (rec : MediaRecorder) : bool :=
  match rec_state rec with
  | recording => true
  | inactive => rec_stopping rec || awaited r p
  end.

Record phase_ok (p : Panel) (r : nat) (rec : MediaRecorder) : Prop := {
  ph_range : rec_stream rec < length (streams p);
  ph_live : streams p !! rec_stream rec = Some (holds_microphone p r rec);
  ph_recording : rec_state rec = recording ->
                 rec_stopping rec = false /\ awaited r p = false;
  ph_stopping : rec_stopping rec = true -> awaited r p = false;
}.

Record RecInv (p : Panel) : Prop := {
  inv_phase : forall r rec, recorders p !! r = Some rec -> phase_ok p r rec;
  inv_own : forall r r' rec rec',
      recorders p !! r = Some rec -> recorders p !! r' = Some rec' ->
      rec_stream rec = rec_stream rec' -> r = r';
  inv_calls : forall r blob, find_id r (transcribing p) = Some blob ->
      r < length (recorders p) /\ blob_type blob = "audio/webm";
  inv_released : forall s, streams p !! s = Some false ->
      exists r rec, recorders p !! r = Some rec /\ rec_stream rec = s;
  inv_button : isRecording (cells p) = true ->
      exists r rec, mediaRecorder (cells p) = Some r /\
                    recorders p !! r = Some rec /\ rec_state rec = recording;
}.

(** [RecInv] does not look at the text-to-speech cells, the chunks, the mode
    or the pending [getUserMedia] calls. *)
Lemma RecInv_frame p p' :
  streams p' = streams p -> recorders p' = recorders p ->
  transcribing p' = transcribing p ->
  isRecording (cells p') = isRecording (cells p) ->
  mediaRecorder (cells p') = mediaRecorder (cells p) ->
  RecInv p -> RecInv p'.
Proof.
  intros Hs Hr Ht Hi Hm [H1 H2 H3 H4 H5]. split.
  - intros r rec. rewrite Hr. intros Hl. destruct (H1 r rec Hl) as [A B C D].
    split; unfold holds_microphone, awaited in *; rewrite ?Hs, ?Ht; auto.
  - rewrite Hr. exact H2.
  - rewrite Ht, Hr. exact H3.
  - rewrite Hs, Hr. exact H4.
  - rewrite Hi, Hm, Hr. exact H5.
Qed.

Lemma on_cells_streams f p : streams (on_cells f p) = streams p.
Proof. unfold on_cells. now destruct (alive p). Qed.
Lemma on_cells_recorders f p : recorders (on_cells f p) = recorders p.
Proof. unfold on_cells. now destruct (alive p). Qed.
Lemma on_cells_transcribing f p : transcribing (on_cells f p) = transcribing p.
Proof. unfold on_cells. now destruct (alive p). Qed.
Lemma on_cells_alive f p : alive (on_cells f p) = alive p.
Proof. unfold on_cells. destruct (alive p) eqn:E; simpl; congruence. Qed.
Lemma on_cells_cells f p :
  cells (on_cells f p) = if alive p then f (cells p) else cells p.
Proof. unfold on_cells. now destruct (alive p). Qed.

Lemma rec_on_cells_inv f p :
  (forall c, isRecording (f c) = isRecording c /\ mediaRecorder (f c) = mediaRecorder c) ->
  RecInv p -> RecInv (on_cells f p).
Proof.
  intros Hf. unfold on_cells. destruct (alive p); [|auto].
  apply RecInv_frame; simpl; auto; apply Hf.
Qed.

Lemma rec_initial_inv m : RecInv (initial m).
Proof. split; simpl; try discriminate; intros; discriminate. Qed.

Lemma awaited_frame p p' r :
  transcribing p' = transcribing p -> awaited r p' = awaited r p.
Proof. unfold awaited. now intros ->. Qed.

(** A stream is handed out. *)
Lemma rec_granted_inv p p' :
  streams p' = (streams p ++ [true])%list -> recorders p' = recorders p ->
  transcribing p' = transcribing p ->
  isRecording (cells p') = isRecording (cells p) ->
  mediaRecorder (cells p') = mediaRecorder (cells p) ->
  RecInv p -> RecInv p'.
Proof.
  intros Hs Hr Ht Hi Hm [H1 H2 H3 H4 H5]. split.
  - intros r rec. rewrite Hr. intros Hl. destruct (H1 r rec Hl) as [A B C D].
    split; unfold holds_microphone, awaited in *; rewrite ?Hs, ?Ht; auto.
    + rewrite length_app. simpl. lia.
    + rewrite lookup_app_l by exact A. exact B.
  - rewrite Hr. exact H2.
  - rewrite Ht, Hr. exact H3.
  - rewrite Hs, Hr. intros s Hl. apply H4.
    apply lookup_app_Some in Hl as [Hl|[_ Hl]]; [exact Hl|].
    destruct (s - length (streams p)); simpl in Hl; discriminate.
  - rewrite Hi, Hm, Hr. exact H5.
Qed.

(** A recorder is created on the stream handed out last and started. *)
Lemma rec_started_inv p p' :
  streams p' = streams p ->
  recorders p' = (recorders p ++ [{| rec_stream := pred (length (streams p));
                                     rec_state := recording;
                                     rec_stopping := false |}])%list ->
  transcribing p' = transcribing p ->
  (isRecording (cells p') = isRecording (cells p) /\
   mediaRecorder (cells p') = mediaRecorder (cells p) \/
   mediaRecorder (cells p') = Some (length (recorders p))) ->
  streams p !! pred (length (streams p)) = Some true ->
  (forall r rec, recorders p !! r = Some rec -> rec_stream rec < pred (length (streams p))) ->
  RecInv p -> RecInv p'.
Proof.
  intros Hs Hr Ht Hcells Hlast Hbelow [H1 H2 H3 H4 H5].
  assert (Hlen : pred (length (streams p)) < length (streams p)).
  { apply lookup_lt_Some in Hlast. exact Hlast. }
  assert (Hnew : forall r, find_id r (transcribing p) = None \/ r < length (recorders p)).
  { intros r. destruct (find_id r (transcribing p)) as [b|] eqn:Hf; [|now left].
    right. apply (H3 r b Hf). }
  split.
  - intros r rec. rewrite Hr. intros Hl.
    apply lookup_app_Some in Hl as [Hl|[Hge Hl]].
    + destruct (H1 r rec Hl) as [A B C D].
      split; unfold holds_microphone, awaited in *; rewrite ?Hs, ?Ht; auto.
    + destruct (r - length (recorders p)) as [|k] eqn:Hk; simpl in Hl; [|discriminate].
      injection Hl as <-.
      assert (Hf : find_id r (transcribing p) = None).
      { destruct (Hnew r) as [Hf|Hf]; [exact Hf | lia]. }
      split; unfold holds_microphone, awaited; rewrite ?Hs, ?Ht, ?Hf; simpl; auto.
  - rewrite Hr. intros r r' rec rec' Hl Hl' Heq.
    apply lookup_app_Some in Hl as [Hl|[Hge Hl]];
      apply lookup_app_Some in Hl' as [Hl'|[Hge' Hl']].
    + eauto.
    + destruct (r' - _); simpl in Hl'; [|discriminate]. injection Hl' as <-.
      simpl in Heq. specialize (Hbelow r rec Hl). lia.
    + destruct (r - _); simpl in Hl; [|discriminate]. injection Hl as <-.
      simpl in Heq. specialize (Hbelow r' rec' Hl'). lia.
    + destruct (r - length (recorders p)) eqn:E; simpl in Hl; [|discriminate].
      destruct (r' - length (recorders p)) eqn:E'; simpl in Hl'; [|discriminate]. lia.
  - rewrite Ht, Hr. intros r blob Hf. destruct (H3 r blob Hf) as [A B].
    split; [|exact B]. rewrite length_app. simpl. lia.
  - rewrite Hs, Hr. intros s Hl. destruct (H4 s Hl) as (r & rec & A & B).
    exists r, rec. split; [|exact B]. now apply lookup_app_l_Some.
  - rewrite Hr. destruct Hcells as [[Hi Hm]|Hm].
    + rewrite Hi, Hm. intros Hrec. destruct (H5 Hrec) as (r & rec & A & B & C).
      exists r, rec. split; [exact A|]. split; [|exact C]. now apply lookup_app_l_Some.
    + intros _. exists (length (recorders p)).
      exists {| rec_stream := pred (length (streams p)); rec_state := recording;
                rec_stopping := false |}.
      split; [exact Hm|]. split; [|reflexivity].
      rewrite lookup_app_r by lia. now rewrite Nat.sub_diag.
Qed.

Lemma startRecording_granted_inv supported p :
  RecInv p -> RecInv (startRecording_granted supported p).
Proof.
  intros HI. unfold startRecording_granted.
  set (p1 := set_streams _ _).
  assert (H1 : RecInv p1) by (revert HI; apply rec_granted_inv; reflexivity).
  destruct supported.
  - assert (Hlast : pred (length (streams p1)) = length (streams p)).
    { unfold p1. simpl. rewrite length_app. simpl. lia. }
    revert H1.
    unfold setTranscription, setError, setIsRecording, setMediaRecorder.
    apply rec_started_inv;
      rewrite ?on_cells_streams, ?on_cells_recorders, ?on_cells_transcribing,
              ?on_cells_cells, ?on_cells_alive.
    + reflexivity.
    + rewrite Hlast. reflexivity.
    + reflexivity.
    + simpl. destruct (alive p); simpl; auto.
    + rewrite Hlast. unfold p1. simpl. rewrite lookup_app_r by lia.
      now rewrite Nat.sub_diag.
    + intros r rec Hl. rewrite Hlast. destruct HI as [Hph _ _ _ _].
      apply (Hph r rec Hl).
  - revert H1. apply rec_on_cells_inv. auto.
Qed.

Lemma lookup_alter_recorder (f : MediaRecorder -> MediaRecorder) (r : nat)
    (l : list MediaRecorder) (x : nat) recx :
  alter f r l !! x = Some recx ->
  exists rec0, l !! x = Some rec0 /\
               (x <> r -> recx = rec0) /\ (x = r -> recx = f rec0).
Proof.
  rewrite list_lookup_alter. case_decide as Hx.
  - subst x. destruct (l !! r) as [rec0|]; simpl; [|discriminate].
    intros [= <-]. exists rec0. split; [reflexivity|]. split; [congruence | auto].
  - intros Hl. exists recx. split; [exact Hl|]. split; [auto | congruence].
Qed.

(** One recorder changes, on the same stream. *)
Lemma alter_recorder_inv (f : MediaRecorder -> MediaRecorder) r p p' :
  streams p' = streams p -> recorders p' = alter f r (recorders p) ->
  (forall rec, rec_stream (f rec) = rec_stream rec) ->
  (forall r', r' <> r -> awaited r' p' = awaited r' p) ->
  (forall rec, recorders p !! r = Some rec -> phase_ok p r rec -> phase_ok p' r (f rec)) ->
  (forall r' blob, find_id r' (transcribing p') = Some blob ->
     r' < length (recorders p) /\ blob_type blob = "audio/webm") ->
  (isRecording (cells p') = true ->
   exists r' rec, mediaRecorder (cells p') = Some r' /\
                  recorders p' !! r' = Some rec /\ rec_state rec = recording) ->
  RecInv p -> RecInv p'.
Proof.
  intros Hs Hr Hf Haw Hph Hcalls Hbutton [H1 H2 H3 H4 H5]. split.
  - intros x recx. rewrite Hr. intros Hl.
    destruct (lookup_alter_recorder f r _ x recx Hl) as (rec0 & Hl0 & Hne & Heq).
    destruct (decide (x = r)) as [->|Hx].
    + rewrite (Heq eq_refl). apply Hph; auto.
    + rewrite (Hne Hx). destruct (H1 x rec0 Hl0) as [A B C D].
      split; unfold holds_microphone in *; rewrite ?Hs, ?(Haw x Hx); auto.
  - rewrite Hr. intros a b reca recb Ha Hb Heq.
    destruct (lookup_alter_recorder f r _ a reca Ha) as (ra & Hla & Hna & Hea).
    destruct (lookup_alter_recorder f r _ b recb Hb) as (rb & Hlb & Hnb & Heb).
    apply (H2 a b ra rb Hla Hlb).
    assert (Hsa : rec_stream reca = rec_stream ra).
    { destruct (decide (a = r)) as [E|E]; [rewrite (Hea E); apply Hf | now rewrite (Hna E)]. }
    assert (Hsb : rec_stream recb = rec_stream rb).
    { destruct (decide (b = r)) as [E|E]; [rewrite (Heb E); apply Hf | now rewrite (Hnb E)]. }
    congruence.
  - rewrite Hr, length_alter. exact Hcalls.
  - rewrite Hs, Hr. intros s Hl. destruct (H4 s Hl) as (x & rec & A & B).
    exists x. rewrite list_lookup_alter. case_decide.
    + subst x. rewrite A. simpl. eexists. split; [reflexivity|]. now rewrite Hf.
    + eauto.
  - exact Hbutton.
Qed.

Lemma stopRecording_inv p : alive p = true -> RecInv p -> RecInv (stopRecording p).
Proof.
  intros Ha HI. unfold stopRecording.
  destruct (mediaRecorder (cells p)) as [r|] eqn:Hm; [|exact HI].
  destruct (isRecording (cells p)) eqn:Hrec; [|exact HI].
  pose proof HI as [_ _ H3 _ _].
  revert HI. unfold setIsRecording.
  apply (alter_recorder_inv MediaRecorder_stop r);
    rewrite ?on_cells_streams, ?on_cells_recorders, ?on_cells_transcribing,
            ?on_cells_cells, ?on_cells_alive; try reflexivity.
  - intros rec. unfold MediaRecorder_stop. now destruct (rec_state rec).
  - intros r' _. unfold awaited. now rewrite on_cells_transcribing.
  - intros rec Hl [A B C D]. unfold MediaRecorder_stop.
    destruct (rec_state rec) eqn:Hst.
    + split; unfold holds_microphone, awaited in *;
        rewrite ?on_cells_streams, ?on_cells_transcribing, ?Hst in *; auto.
    + destruct (C eq_refl) as [C1 C2].
      split; unfold holds_microphone, awaited in *;
        rewrite ?on_cells_streams, ?on_cells_transcribing, ?Hst in *; simpl; auto.
      intros [=].
  - intros r' blob. simpl. apply H3.
  - simpl. rewrite Ha. discriminate.
Qed.

Lemma onstop_fields r p :
  streams (onstop r p) = streams p /\
  recorders (onstop r p) = alter finish r (recorders p) /\
  transcribing (onstop r p)
  = (transcribing p ++ [(r, recorded (audioChunks p))])%list /\
  isRecording (cells (onstop r p)) = isRecording (cells p) /\
  mediaRecorder (cells (onstop r p)) = mediaRecorder (cells p) /\
  alive (onstop r p) = alive p.
Proof.
  unfold onstop, setIsLoading, on_cells. simpl.
  destruct (alive p) eqn:Ha; simpl; rewrite ?Ha; auto 10.
Qed.

Lemma onstop_inv r rec p :
  recorders p !! r = Some rec -> rec_stopping rec = true -> RecInv p -> RecInv (onstop r p).
Proof.
  intros Hl Hstop HI. pose proof HI as [H1 _ H3 _ H5].
  destruct (H1 r rec Hl) as [A B C D].
  assert (Hst : rec_state rec = inactive).
  { destruct (rec_state rec) eqn:E; [reflexivity|].
    destruct (C eq_refl) as [C1 _]. congruence. }
  assert (Hnone : find_id r (transcribing p) = None).
  { specialize (D Hstop). unfold awaited in D.
    now destruct (find_id r (transcribing p)). }
  destruct (onstop_fields r p) as (Fs & Fr & Ft & Fi & Fm & Fa).
  revert HI. generalize dependent (onstop r p). intros p' Fs Fr Ft Fi Fm Fa.
  apply (alter_recorder_inv finish r); auto.
  - intros r' Hne. unfold awaited. rewrite Ft, find_id_app.
    destruct (find_id r' (transcribing p)); [reflexivity|].
    simpl. now rewrite decide_False by congruence.
  - intros rec0. rewrite Hl. intros [= <-] _.
    split; unfold holds_microphone, awaited; rewrite ?Fs, ?Ft, ?find_id_app, ?Hnone;
      simpl; rewrite ?decide_True by reflexivity; rewrite ?Hst; auto;
      try discriminate.
    rewrite B. unfold holds_microphone. now rewrite Hst, Hstop.
  - intros r' blob. rewrite Ft, find_id_app.
    destruct (find_id r' (transcribing p)) as [b|] eqn:Hf.
    + intros [= <-]. now apply H3.
    + simpl. case_decide; [|discriminate]. subst r'. intros [= <-].
      split; [|reflexivity]. now apply lookup_lt_Some in Hl.
  - rewrite Fi, Fm, Fr. intros Hrec. destruct (H5 Hrec) as (r' & rec' & X & Y & Z).
    exists r'. rewrite list_lookup_alter. case_decide.
    + subst r'. rewrite Y. simpl. eexists. split; [exact X|].
      split; [reflexivity | exact Z].
    + eauto.
Qed.

(** The transcription of recorder [r] settles and the tracks of its stream
    are stopped. *)
Lemma released_inv r rec p p' :
  recorders p !! r = Some rec -> awaited r p = true ->
  streams p' = <[rec_stream rec := false]> (streams p) ->
  recorders p' = recorders p -> transcribing p' = drop_id r (transcribing p) ->
  isRecording (cells p') = isRecording (cells p) ->
  mediaRecorder (cells p') = mediaRecorder (cells p) ->
  RecInv p -> RecInv p'.
Proof.
  intros Hl Haw Hs Hr Ht Hi Hm [H1 H2 H3 H4 H5].
  destruct (H1 r rec Hl) as [A B C D].
  assert (Hst : rec_state rec = inactive).
  { destruct (rec_state rec) eqn:E; [reflexivity|].
    destruct (C eq_refl) as [_ C2]. congruence. }
  assert (Hstop : rec_stopping rec = false).
  { destruct (rec_stopping rec) eqn:E; [|reflexivity]. rewrite (D eq_refl) in Haw.
    discriminate. }
  assert (Hsame : awaited r p' = false).
  { unfold awaited. now rewrite Ht, find_id_drop_same. }
  assert (Hother : forall x, x <> r -> awaited x p' = awaited x p).
  { intros x Hx. unfold awaited. now rewrite Ht, find_id_drop_other. }
  split.
  - intros x recx. rewrite Hr. intros Hx.
    destruct (decide (x = r)) as [->|Hne].
    + assert (recx = rec) as -> by congruence.
      split; unfold holds_microphone; rewrite ?Hs, ?Hsame, ?Hst, ?Hstop; auto;
        try discriminate.
      * now rewrite length_insert.
      * now rewrite list_lookup_insert_eq by exact A.
    + destruct (H1 x recx Hx) as [A' B' C' D'].
      split; unfold holds_microphone in *; rewrite ?Hs, ?(Hother x Hne); auto.
      * now rewrite length_insert.
      * rewrite list_lookup_insert_ne; [exact B'|].
        intros Heq'. apply Hne. symmetry. now apply (H2 r x rec recx).
  - rewrite Hr. exact H2.
  - rewrite Ht, Hr. intros x blob Hf.
    destruct (decide (x = r)) as [->|Hne]; [now rewrite find_id_drop_same in Hf|].
    rewrite find_id_drop_other in Hf by exact Hne. now apply H3.
  - rewrite Hs, Hr. intros s Hls.
    destruct (decide (s = rec_stream rec)) as [->|Hne]; [eauto|].
    rewrite list_lookup_insert_ne in Hls by congruence. auto.
  - rewrite Hi, Hm, Hr. exact H5.
Qed.

Lemma onstop_resume_fields r text p rec :
  recorders p !! r = Some rec ->
  streams (onstop_resume r text p) = <[rec_stream rec := false]> (streams p) /\
  recorders (onstop_resume r text p) = recorders p /\
  transcribing (onstop_resume r text p) = transcribing p /\
  isRecording (cells (onstop_resume r text p)) = isRecording (cells p) /\
  mediaRecorder (cells (onstop_resume r text p)) = mediaRecorder (cells p) /\
  alive (onstop_resume r text p) = alive p.
Proof.
  intros Hl. unfold onstop_resume, setIsLoading, setTranscription, setError.
  rewrite on_cells_recorders.
  assert (Hrec : recorders match text with
                  | inl _ => on_cells (with_shared (SpeechPanel.setError
                                         (Some transcription_failed))) p
                  | inr t => on_cells (with_transcription t) p
                  end = recorders p)
    by (destruct text; apply on_cells_recorders).
  rewrite Hrec, Hl. unfold release. simpl.
  rewrite !on_cells_streams, !on_cells_recorders, !on_cells_transcribing,
          !on_cells_cells, !on_cells_alive.
  destruct text; rewrite ?on_cells_streams, ?on_cells_recorders,
    ?on_cells_transcribing, ?on_cells_cells, ?on_cells_alive;
    destruct (alive p); simpl; auto 10.
Qed.

Lemma onstop_resume_inv r blob text p :
  find_id r (transcribing p) = Some blob -> RecInv p ->
  RecInv (onstop_resume r text (set_transcribing (drop_id r (transcribing p)) p)).
Proof.
  intros Hf HI. pose proof HI as [H1 H2 H3 H4 H5].
  destruct (H3 r blob Hf) as [Hlt _].
  destruct (lookup_lt_is_Some_2 _ _ Hlt) as [rec Hl].
  assert (Haw : awaited r p = true) by (unfold awaited; now rewrite Hf).
  set (p0 := set_transcribing (drop_id r (transcribing p)) p).
  destruct (onstop_resume_fields r text p0 rec Hl) as (Fs & Fr & Ft & Fi & Fm & _).
  revert HI. apply (released_inv r rec); auto.
Qed.

Lemma rec_handle_inv ev p :
  alive p = true \/ user_event ev = false -> RecInv p -> RecInv (handle ev p).
Proof.
  intros Hlive HI. destruct ev; simpl.
  - destruct (App.shows_SpeechPanel m); revert HI; apply RecInv_frame; reflexivity.
  - destruct Hlive as [Ha|[=]].
    destruct (_ && _); [|exact HI].
    destruct (isRecording (cells p)); [now apply stopRecording_inv|].
    revert HI. apply RecInv_frame; reflexivity.
  - revert HI. apply rec_on_cells_inv. auto.
  - destruct (0 <? pendingUserMedia p); [|exact HI].
    now apply startRecording_granted_inv.
  - destruct (0 <? pendingUserMedia p); [|exact HI].
    unfold startRecording_denied, setError. apply rec_on_cells_inv; [auto|].
    revert HI. apply RecInv_frame; reflexivity.
  - unfold ondataavailable.
    destruct (recorders p !! r) as [rec|]; [|exact HI].
    destruct (rec_state rec); [destruct (rec_stopping rec)|];
      destruct (0 <? size); try exact HI; revert HI; apply RecInv_frame; reflexivity.
  - destruct (recorders p !! r) as [rec|] eqn:Hl; [|exact HI].
    destruct (rec_stopping rec) eqn:Hstop; [|exact HI].
    now apply (onstop_inv r rec).
  - destruct (find_id r (transcribing p)) as [blob|] eqn:Hf; [|exact HI].
    now apply (onstop_resume_inv r blob).
Qed.

Lemma rec_step_inv p ev : RecInv p -> RecInv (step p ev).
Proof.
  intros HI. unfold step. destruct (negb (alive p) && user_event ev) eqn:Hg; [exact HI|].
  apply rec_handle_inv; [|exact HI].
  destruct (alive p); [now left | right]. simpl in Hg. exact Hg.
Qed.

Lemma rec_reachable_inv p : reachable p -> RecInv p.
Proof.
  intros (m & evs & _ & ->). generalize (rec_initial_inv m). generalize (initial m).
  induction evs as [|ev evs IH]; intros p HI; simpl; [exact HI|].
  apply IH. now apply rec_step_inv.
Qed.

(** X18: While [isRecording] holds, the recorder in the [mediaRecorder] cell is
    recording and its microphone stream is live.  The guard of
    [stopRecording] therefore never fails on a shown stop button, and a click
    on it stops that recorder: it becomes inactive with its [stop] event
    queued, and the flag goes off.  The stream is not released by the
    click. *)
Theorem stop_button_stops_a_running_recorder (p : Panel) :
  reachable p -> isRecording (cells p) = true ->
  exists r rec,
    mediaRecorder (cells p) = Some r /\ recorders p !! r = Some rec /\
    rec_state rec = recording /\ streams p !! rec_stream rec = Some true /\
    (alive p = true -> mode p = SPEECH_TO_TEXT -> isLoading (shared (cells p)) = false ->
     let p' := step p ClickMic in
     isRecording (cells p') = false /\
     recorders p' !! r = Some {| rec_stream := rec_stream rec; rec_state := inactive;
                                 rec_stopping := true |} /\
     streams p' = streams p).
Proof.
  intros Hreach Hrec. destruct (rec_reachable_inv p Hreach) as [H1 _ _ _ H5].
  destruct (H5 Hrec) as (r & rec & Hm & Hl & Hst). exists r, rec.
  destruct (H1 r rec Hl) as [A B C D].
  split; [exact Hm|]. split; [exact Hl|]. split; [exact Hst|].
  split; [rewrite B; unfold holds_microphone; now rewrite Hst|].
  intros Ha Hmode Hload p'. subst p'. unfold step. rewrite Ha. simpl.
  rewrite Hmode, Hload, Hrec. simpl. unfold stopRecording. rewrite Hm, Hrec.
  unfold setIsRecording. rewrite on_cells_cells, on_cells_recorders, on_cells_streams.
  simpl. rewrite Ha. simpl. split; [reflexivity|]. split; [|reflexivity].
  rewrite list_lookup_alter, decide_True by reflexivity. rewrite Hl. simpl.
  unfold MediaRecorder_stop. now rewrite Hst.
Qed.

(** X19: A microphone stream is stopped only at the very end: whenever a stream
    is found released, it belongs to a recorder that is inactive, whose
    [stop] event has been handled and whose transcription has settled. *)
Theorem microphone_released_only_after_transcription (p : Panel) (s : nat) :
  reachable p -> streams p !! s = Some false ->
  exists r rec,
    recorders p !! r = Some rec /\ rec_stream rec = s /\
    rec_state rec = inactive /\ rec_stopping rec = false /\
    find_id r (transcribing p) = None.
Proof.
  intros Hreach Hs. destruct (rec_reachable_inv p Hreach) as [H1 _ _ H4 _].
  destruct (H4 s Hs) as (r & rec & Hl & <-). exists r, rec.
  destruct (H1 r rec Hl) as [A B C D]. rewrite B in Hs.
  unfold holds_microphone, awaited in Hs.
  destruct (rec_state rec); [|discriminate].
  destruct (rec_stopping rec); [discriminate|].
  destruct (find_id r (transcribing p)); [discriminate|]. auto.
Qed.

(** X20: Every call of [transcribeAudio] that is outstanding carries an
    [audio/webm] blob, which the request to the service declares as
    [audio/mp3]; the stream of its recorder is still live.  When the call
    settles the stream is released, the progress flag goes off, and either
    the text is shown or the fixed error message. *)
Theorem transcription_settles (p : Panel) (r : nat) (blob : Blob) :
  reachable p -> find_id r (transcribing p) = Some blob ->
  blob_type blob = "audio/webm" /\
  (forall base64Data,
     geminiService.contents (geminiService.transcribe_request blob base64Data)
     = [geminiService.InlinePart {| geminiService.data := base64Data;
                                    geminiService.mimeType := "audio/mp3" |};
        geminiService.TextPart geminiService.TranscribeInstruction]) /\
  exists rec,
    recorders p !! r = Some rec /\ streams p !! rec_stream rec = Some true /\
    forall text,
      let p' := step p (Transcribed r text) in
      streams p' !! rec_stream rec = Some false /\
      find_id r (transcribing p') = None /\
      (alive p = true ->
       isLoading (shared (cells p')) = false /\
       match text with
       | inr t => transcription (cells p') = t /\
                  error (shared (cells p')) = error (shared (cells p))
       | inl _ => error (shared (cells p')) = Some transcription_failed /\
                  transcription (cells p') = transcription (cells p)
       end).
Proof.
  intros Hreach Hf. destruct (rec_reachable_inv p Hreach) as [H1 _ H3 _ _].
  destruct (H3 r blob Hf) as [Hlt Hty].
  destruct (lookup_lt_is_Some_2 _ _ Hlt) as [rec Hl].
  destruct (H1 r rec Hl) as [A B C D].
  assert (Haw : awaited r p = true) by (unfold awaited; now rewrite Hf).
  split; [exact Hty|]. split.
  { intros d. unfold geminiService.transcribe_request. rewrite Hty. reflexivity. }
  exists rec. split; [exact Hl|].
  split.
  { rewrite B. unfold holds_microphone. rewrite Haw.
    destruct (rec_state rec); [|reflexivity]. now rewrite orb_true_r. }
  intros text p'. subst p'. unfold step. simpl. rewrite andb_false_r. rewrite Hf.
  set (p0 := set_transcribing (drop_id r (transcribing p)) p).
  destruct (onstop_resume_fields r text p0 rec Hl) as (Fs & Fr & Ft & Fi & Fm & Fa).
  split; [|split].
  - rewrite Fs. apply list_lookup_insert_eq. exact A.
  - rewrite Ft. apply find_id_drop_same.
  - intros Ha.
    unfold onstop_resume, setIsLoading, setTranscription, setError, on_cells, p0.
    destruct text; simpl; rewrite Ha; simpl; rewrite Hl; simpl; auto.
Qed.

(** *** Streams that nothing releases *)

(** No recorder was created on stream [n]. *)
Definition orphan (n : nat) (p : Panel) : Prop :=
  streams p !! n = Some true /\
  forall r rec, recorders p !! r = Some rec -> rec_stream rec <> n.

Lemma orphan_frame n p p' :
  streams p' = streams p -> recorders p' = recorders p -> orphan n p -> orphan n p'.
Proof. unfold orphan. now intros -> ->. Qed.

Lemma onstop_resume_orphan n r text q :
  orphan n q -> orphan n (onstop_resume r text q).
Proof.
  intros Hq. unfold onstop_resume.
  set (p2 := setIsLoading false _).
  assert (H2 : orphan n p2).
  { unfold p2, setIsLoading, setTranscription, setError.
    destruct text;
      (eapply orphan_frame; [apply on_cells_streams | apply on_cells_recorders |]);
      (eapply orphan_frame; [apply on_cells_streams | apply on_cells_recorders |]);
      exact Hq. }
  clearbody p2. destruct (recorders p2 !! r) as [rec|] eqn:Hl; [|exact H2].
  destruct H2 as [Hlive Hnone]. split; simpl; [|exact Hnone].
  rewrite list_lookup_insert_ne; [exact Hlive|]. exact (Hnone r rec Hl).
Qed.

Lemma orphan_step n p ev : orphan n p -> orphan n (step p ev).
Proof.
  intros [Hlive Hnone]. unfold step. destruct (_ && _); [now split|].
  assert (Hcells : forall f q, orphan n q -> orphan n (on_cells f q)).
  { intros f q. apply orphan_frame; [apply on_cells_streams | apply on_cells_recorders]. }
  destruct ev; simpl.
  - destruct (App.shows_SpeechPanel m); now split.
  - destruct (_ && _); [|now split].
    destruct (isRecording (cells p)); [|now split].
    unfold stopRecording. destruct (mediaRecorder (cells p)) as [r|]; [|now split].
    destruct (isRecording (cells p)); [|now split].
    apply Hcells. split; [exact Hlive|]. simpl. intros x recx Hx.
    destruct (lookup_alter_recorder _ _ _ _ _ Hx) as (rec0 & Hl0 & Hne & Heq).
    destruct (decide (x = r)) as [E|E].
    + rewrite (Heq E). unfold MediaRecorder_stop.
      destruct (rec_state rec0); simpl; eauto.
    + rewrite (Hne E). eauto.
  - apply Hcells. now split.
  - destruct (0 <? pendingUserMedia p); [|now split].
    unfold startRecording_granted.
    assert (Hn : n < length (streams p)) by now apply lookup_lt_Some in Hlive.
    destruct supported.
    + unfold setTranscription, setError, setIsRecording, setMediaRecorder.
      do 4 apply Hcells. split; simpl.
      * now apply lookup_app_l_Some.
      * intros r rec [Hl|[_ Hl]]%lookup_app_Some; [eauto|].
        destruct (r - _); simpl in Hl; [|discriminate]. injection Hl as <-. simpl. lia.
    + apply Hcells. split; simpl; [now apply lookup_app_l_Some | exact Hnone].
  - destruct (0 <? pendingUserMedia p); [|now split].
    apply Hcells. now split.
  - unfold ondataavailable. destruct (recorders p !! r) as [rec|]; [|now split].
    destruct (rec_state rec); [destruct (rec_stopping rec)|];
      destruct (0 <? size); now split.
  - destruct (recorders p !! r) as [rec|] eqn:Hl; [|now split].
    destruct (rec_stopping rec); [|now split].
    destruct (onstop_fields r p) as (Fs & Fr & _).
    split; [now rewrite Fs|]. rewrite Fr. intros x recx Hx.
    destruct (lookup_alter_recorder _ _ _ _ _ Hx) as (rec0 & Hl0 & Hne & Heq).
    destruct (decide (x = r)) as [E|E].
    + rewrite (Heq E). simpl. eauto.
    + rewrite (Hne E). eauto.
  - destruct (find_id r (transcribing p)); [|now split].
    apply onstop_resume_orphan. now split.
Qed.

(** X21: When the microphone is granted but the recorder cannot be created (or
    started), [startRecording] shows the "access denied" message and keeps
    the stream: no recorder owns it, and in no later state are its tracks
    stopped. *)
Theorem failed_recorder_keeps_the_microphone (p : Panel) (evs : list Event) :
  reachable p -> 0 < pendingUserMedia p ->
  let p1 := step p (MicGranted false) in
  recorders p1 = recorders p /\
  isRecording (cells p1) = isRecording (cells p) /\
  (alive p = true -> error (shared (cells p1)) = Some access_denied) /\
  streams (run evs p1) !! length (streams p) = Some true.
Proof.
  intros Hreach Hpend p1.
  destruct (rec_reachable_inv p Hreach) as [H1 _ _ _ _].
  assert (Hp1 : p1 = setError (Some access_denied)
                       (set_streams (streams p ++ [true])
                          (set_pendingUserMedia (pred (pendingUserMedia p)) p))).
  { unfold p1, step. simpl. rewrite andb_false_r.
    apply Nat.ltb_lt in Hpend. now rewrite Hpend. }
  assert (Horph : orphan (length (streams p)) p1).
  { rewrite Hp1. unfold setError. split.
    - rewrite on_cells_streams. simpl. rewrite lookup_app_r by lia.
      now rewrite Nat.sub_diag.
    - rewrite on_cells_recorders. simpl. intros r rec Hl.
      destruct (H1 r rec Hl) as [A _ _ _]. lia. }
  split; [rewrite Hp1; unfold setError; now rewrite on_cells_recorders|].
  split; [rewrite Hp1; unfold setError; rewrite on_cells_cells; simpl;
          now destruct (alive p)|].
  split; [intros Ha; rewrite Hp1; unfold setError; rewrite on_cells_cells; simpl;
          now rewrite Ha|].
  clear Hp1. revert Horph. generalize p1. clear.
  induction evs as [|ev evs IH]; intros q Hq; simpl; [apply Hq|].
  apply IH. now apply orphan_step.
Qed.

(** X22: The panel has no cleanup for the recorder.  When App replaces it by the
    vision panel while a recorder is recording, that recorder stays in the
    state [recording] and its microphone stream stays live in every later
    state: the controls that could stop it are gone. *)
Theorem leaving_while_recording_keeps_the_microphone (p : Panel) (m : AppMode)
    (r : nat) (rec : MediaRecorder) (evs : list Event) :
  reachable p -> alive p = true ->
  recorders p !! r = Some rec -> rec_state rec = recording ->
  App.shows_SpeechPanel m = false ->
  let p' := run evs (step p (SelectMode m)) in
  alive p' = false /\ recorders p' !! r = Some rec /\
  streams p' !! rec_stream rec = Some true.
Proof.
  intros Hreach Ha Hl Hst Hm p'.
  pose proof (rec_reachable_inv p Hreach) as HI.
  assert (H0 : RecInv (step p (SelectMode m)) /\ alive (step p (SelectMode m)) = false /\
               recorders (step p (SelectMode m)) !! r = Some rec).
  { split; [now apply rec_step_inv|]. unfold step. rewrite Ha. simpl. now rewrite Hm. }
  assert (H : RecInv p' /\ alive p' = false /\ recorders p' !! r = Some rec).
  { subst p'. revert H0. generalize (step p (SelectMode m)). clear - Hst.
    induction evs as [|ev evs IH]; intros q Hq; simpl; [exact Hq|].
    apply IH. destruct Hq as (HI & Hgone & Hl).
    split; [now apply rec_step_inv|].
    pose proof HI as [H1 _ H3 _ _]. destruct (H1 r rec Hl) as [_ _ C _].
    destruct (C Hst) as [Hstop Haw].
    unfold step. rewrite Hgone. simpl.
    destruct (user_event ev) eqn:Hu; [now split|].
    destruct ev; try discriminate Hu; simpl.
    - now rewrite on_cells_alive, on_cells_recorders.
    - destruct (0 <? pendingUserMedia q); [|now split].
      unfold startRecording_granted. destruct supported.
      + unfold setTranscription, setError, setIsRecording, setMediaRecorder.
        rewrite !on_cells_alive, !on_cells_recorders. simpl.
        split; [exact Hgone | now apply lookup_app_l_Some].
      + unfold setError. now rewrite on_cells_alive, on_cells_recorders.
    - destruct (0 <? pendingUserMedia q); [|now split].
      unfold startRecording_denied, setError.
      now rewrite on_cells_alive, on_cells_recorders.
    - unfold ondataavailable. destruct (recorders q !! r0) as [rec0|]; [|now split].
      destruct (rec_state rec0); [destruct (rec_stopping rec0)|];
        destruct (0 <? size); now split.
    - destruct (recorders q !! r0) as [rec0|] eqn:Hl0; [|now split].
      destruct (rec_stopping rec0) eqn:Hstop0; [|now split].
      destruct (onstop_fields r0 q) as (_ & Fr & _ & _ & _ & Fa).
      rewrite Fa, Fr. split; [exact Hgone|].
      rewrite list_lookup_alter_ne; [exact Hl|]. congruence.
    - destruct (find_id r0 (transcribing q)) as [blob|] eqn:Hf; [|now split].
      destruct (H3 r0 blob Hf) as [Hlt _].
      destruct (lookup_lt_is_Some_2 _ _ Hlt) as [rec0 Hl0].
      destruct (onstop_resume_fields r0 text
                  (set_transcribing (drop_id r0 (transcribing q)) q) rec0 Hl0)
        as (_ & Fr & _ & _ & _ & Fa).
      rewrite Fa, Fr. now split. }
  destruct H as ([H1 _ _ _ _] & Hgone & Hl').
  split; [exact Hgone|]. split; [exact Hl'|].
  destruct (H1 r rec Hl') as [_ B _ _]. rewrite B. unfold holds_microphone.
  now rewrite Hst.
Qed.

(** *** Instances *)

(** A state is reachable when a run from [initial] computes to it. *)
Ltac recorded_run m evs :=
  exists m, evs; split; [reflexivity | vm_compute; reflexivity].

(** The microphone was asked for; it was granted and the recorder runs; the
    stop button was pressed and the [stop] event has been handled. *)
Definition asked : Panel := run [ClickMic] (initial SPEECH_TO_TEXT).
Definition listening : Panel := run [ClickMic; MicGranted true] (initial SPEECH_TO_TEXT).
Definition sent : Panel :=
  run [ClickMic; MicGranted true; ClickMic; DataAvailable 0 5; Stopped 0]
      (initial SPEECH_TO_TEXT).

Lemma stop_button_stops_a_running_recorder_witness :
  exists r rec,
    mediaRecorder (cells listening) = Some r /\ recorders listening !! r = Some rec /\
    rec_state rec = recording /\ streams listening !! rec_stream rec = Some true /\
    (alive listening = true -> mode listening = SPEECH_TO_TEXT ->
     isLoading (shared (cells listening)) = false ->
     let p' := step listening ClickMic in
     isRecording (cells p') = false /\
     recorders p' !! r = Some {| rec_stream := rec_stream rec; rec_state := inactive;
                                 rec_stopping := true |} /\
     streams p' = streams listening).
Proof.
  assert (Hreach : reachable listening)
    by recorded_run SPEECH_TO_TEXT [ClickMic; MicGranted true].
  assert (Hrec : isRecording (cells listening) = true) by (vm_compute; reflexivity).
  exact (stop_button_stops_a_running_recorder listening Hreach Hrec).
Defined.

Lemma microphone_released_only_after_transcription_witness :
  exists r rec,
    recorders (step sent (Transcribed 0 (inr "hello"))) !! r = Some rec /\
    rec_stream rec = 0 /\ rec_state rec = inactive /\ rec_stopping rec = false /\
    find_id r (transcribing (step sent (Transcribed 0 (inr "hello")))) = None.
Proof.
  assert (Hreach : reachable (step sent (Transcribed 0 (inr "hello"))))
    by recorded_run SPEECH_TO_TEXT
         [ClickMic; MicGranted true; ClickMic; DataAvailable 0 5; Stopped 0;
          Transcribed 0 (inr "hello")].
  assert (Hs : streams (step sent (Transcribed 0 (inr "hello"))) !! 0 = Some false)
    by (vm_compute; reflexivity).
  exact (microphone_released_only_after_transcription _ 0 Hreach Hs).
Defined.

Lemma transcription_settles_witness :
  blob_type (recorded [5]) = "audio/webm" /\
  transcription (cells (step sent (Transcribed 0 (inr "hello")))) = "hello" /\
  error (shared (cells (step sent (Transcribed 0 (inl (Rejected "offline"))))))
  = Some transcription_failed.
Proof.
  assert (Hreach : reachable sent)
    by recorded_run SPEECH_TO_TEXT
         [ClickMic; MicGranted true; ClickMic; DataAvailable 0 5; Stopped 0].
  assert (Hf : find_id 0 (transcribing sent) = Some (recorded [5]))
    by (vm_compute; reflexivity).
  assert (Ha : alive sent = true) by (vm_compute; reflexivity).
  destruct (transcription_settles sent 0 (recorded [5]) Hreach Hf)
    as (Hty & _ & rec & _ & _ & Hafter).
  split; [exact Hty|]. split.
  - destruct (Hafter (inr "hello")) as (_ & _ & Hcells).
    exact (proj1 (proj2 (Hcells Ha))).
  - destruct (Hafter (inl (Rejected "offline"))) as (_ & _ & Hcells).
    exact (proj1 (proj2 (Hcells Ha))).
Defined.

Lemma failed_recorder_keeps_the_microphone_witness :
  let p1 := step asked (MicGranted false) in
  let later := [ClickMic; MicGranted true; ClickMic; Stopped 0;
                Transcribed 0 (inr "hello")] in
  recorders p1 = recorders asked /\
  isRecording (cells p1) = isRecording (cells asked) /\
  (alive asked = true -> error (shared (cells p1)) = Some access_denied) /\
  streams (run later p1) !! length (streams asked) = Some true.
Proof.
  assert (Hreach : reachable asked) by recorded_run SPEECH_TO_TEXT [ClickMic].
  assert (Hp : 0 < pendingUserMedia asked) by (vm_compute; lia).
  exact (failed_recorder_keeps_the_microphone asked
           [ClickMic; MicGranted true; ClickMic; Stopped 0; Transcribed 0 (inr "hello")]
           Hreach Hp).
Defined.

Lemma leaving_while_recording_keeps_the_microphone_witness :
  let rec := {| rec_stream := 0; rec_state := recording; rec_stopping := false |} in
  let p' := run [Stopped 0; DataAvailable 0 3; MicDenied; ClickMic]
                (step listening (SelectMode CLASSIFICATION)) in
  alive p' = false /\ recorders p' !! 0 = Some rec /\
  streams p' !! rec_stream rec = Some true.
Proof.
  assert (Hreach : reachable listening)
    by recorded_run SPEECH_TO_TEXT [ClickMic; MicGranted true].
  assert (Ha : alive listening = true) by (vm_compute; reflexivity).
  assert (Hl : recorders listening !! 0
               = Some {| rec_stream := 0; rec_state := recording; rec_stopping := false |})
    by (vm_compute; reflexivity).
  exact (leaving_while_recording_keeps_the_microphone listening CLASSIFICATION 0 _
           [Stopped 0; DataAvailable 0 3; MicDenied; ClickMic]
           Hreach Ha Hl eq_refl eq_refl).
Defined.

End SpeechRecorderSpec.

(** ** The sidebar and the shell *)

Module AppShellSpec.
Import Sidebar AppShell.

(** X23: The menu has one button for each mode (the React keys are distinct and
    every mode has one), exactly that button is highlighted, and a click on
    it selects the mode and closes the sidebar.  For whatever mode the shell
    is in, after any clicks, exactly one of the two panels is rendered. *)
Theorem menu_selects_every_mode (st : State) (m : AppMode) :
  NoDup keys /\
  (exists i item,
     menuItems !! i = Some item /\ item_mode item = m /\
     handle (ClickMenuItem i) st = {| currentMode := m; isSidebarOpen := false |} /\
     forall j other, menuItems !! j = Some other ->
                     (highlighted m other = true <-> j = i)) /\
  forall evs,
    App.shows_VisionPanel (currentMode (run evs st))
    = negb (App.shows_SpeechPanel (currentMode (run evs st))).
Proof.
  split; [|split].
  - apply (bool_decide_unpack _). vm_compute. exact I.
  - assert (Hi : exists i, keys !! i = Some m /\ i < 5).
    { destruct m; [exists 0 | exists 1 | exists 2 | exists 3 | exists 4];
        (split; [reflexivity | lia]). }
    destruct Hi as (i & Hk & Hlt).
    destruct (menuItems !! i) as [item|] eqn:Hl;
      [|unfold keys in Hk; rewrite list_lookup_fmap, Hl in Hk; discriminate].
    assert (Hm : item_mode item = m).
    { unfold keys in Hk. rewrite list_lookup_fmap, Hl in Hk. now injection Hk. }
    exists i, item. split; [exact Hl|]. split; [exact Hm|].
    split; [simpl; rewrite Hl; unfold onModeSelect; now rewrite Hm|].
    intros j other Hj. unfold highlighted.
    destruct i as [|[|[|[|[|i]]]]]; try lia;
      destruct j as [|[|[|[|[|j]]]]]; simpl in Hj, Hl; try discriminate;
      injection Hj as <-; injection Hl as <-; simpl in Hm; subst m; simpl;
      split; intros H; try reflexivity; try discriminate; try lia;
      try (apply bool_decide_eq_true_1 in H; discriminate).
  - intros evs. now destruct (currentMode (run evs st)).
Qed.

End AppShellSpec.

(** ** More on the vision panel: camera controls *)

Module VisionPanelCamera.
Import VisionPanel VisionPanelSpec.

(** What a render never touches: it only adds and cleans up runs of the loop
    effect, with their timers and captures. *)
Definition loop_only (st st' : State) : Prop :=
  alive st' = alive st /\ cells st' = cells st /\ streamRef st' = streamRef st /\
  video st' = video st /\ streams st' = streams st /\
  pendingUserMedia st' = pendingUserMedia st /\ requests st' = requests st.

Lemma loop_only_refl st : loop_only st st.
Proof. repeat split. Qed.

Lemma loop_only_trans st1 st2 st3 :
  loop_only st1 st2 -> loop_only st2 st3 -> loop_only st1 st3.
Proof.
  intros (A1 & B1 & C1 & D1 & E1 & F1 & G1) (A2 & B2 & C2 & D2 & E2 & F2 & G2).
  repeat split; congruence.
Qed.

Lemma analyzeLoop_tail_loop_only i st : loop_only st (analyzeLoop_tail i st).
Proof. unfold analyzeLoop_tail. cases; repeat split. Qed.

Lemma captureFrame_loop_only st : loop_only st (captureFrame st).1.
Proof. unfold captureFrame. cases; repeat split. Qed.

Lemma analyzeLoop_loop_only i st : loop_only st (analyzeLoop i st).
Proof.
  unfold analyzeLoop.
  destruct (effects st !! i) as [e|]; [|apply loop_only_refl].
  destruct (_ || _); [apply loop_only_refl|].
  destruct (isLoading (closure e)); [repeat split|].
  pose proof (captureFrame_loop_only st) as Hcf.
  pose proof (captureFrame_resolved st) as Hres.
  destruct (captureFrame st) as [st1 [b|b]]; simpl in *.
  - rewrite (Hres b eq_refl). simpl.
    eapply loop_only_trans; [exact Hcf | apply analyzeLoop_tail_loop_only].
  - eapply loop_only_trans; [exact Hcf | repeat split].
Qed.

Lemma cleanup_loop_only i st : loop_only st (cleanup i st).
Proof. unfold cleanup, clearTimeout. cases; repeat split. Qed.

Lemma loopEffect_loop_only st : loop_only st (loopEffect st).
Proof.
  unfold loopEffect.
  eapply loop_only_trans; [apply (cleanup_loop_only (current st))|].
  set (st1 := cleanup _ st). clearbody st1.
  destruct (isAutoAnalyze _); [|repeat split].
  eapply loop_only_trans; [|apply analyzeLoop_loop_only]. repeat split.
Qed.

Lemma rerender_loop_only st : loop_only st (rerender st).
Proof. unfold rerender. cases; first [apply loop_only_refl | apply loopEffect_loop_only]. Qed.

(** A step of a mounted panel whose handler leaves it mounted. *)
Lemma step_alive st ev :
  alive st = true -> alive (handle ev st) = true ->
  step st ev = rerender (handle ev st).
Proof. intros Ha Hh. unfold step. now rewrite Ha, Hh. Qed.

(** X1: [stopCamera] may be called on an inactive camera: a second call changes
    nothing, and after any call no stream is referenced, the video element
    plays nothing, and both [isStreaming] and the live-analyze flag are off. *)
Theorem stopCamera_idempotent (st : State) :
  stopCamera (stopCamera st) = stopCamera st /\
  streamRef (stopCamera st) = None /\
  isStreaming (cells (stopCamera st)) = false /\
  isAutoAnalyze (cells (stopCamera st)) = false /\
  (forall v, video (stopCamera st) = Some v -> srcObject v = None).
Proof.
  unfold stopCamera.
  destruct (streamRef st) as [s|] eqn:Href, (video st) as [v|] eqn:Hv; simpl;
    rewrite ?Href, ?Hv; simpl; repeat split; try congruence;
    try (intros v' [= <-]; reflexivity); rewrite Hv; reflexivity.
Qed.

Lemma flip_involutive f : flip (flip f) = f.
Proof. now destruct f. Qed.

(** X2: Flipping the camera: the facing mode is inverted, the present stream is
    stopped and forgotten, streaming and live analysis are switched off, and
    exactly one new [getUserMedia] call is pending, for the new facing mode.
    Until it is answered the panel is inactive. *)
Theorem flip_restarts_the_camera (st : State) :
  alive st = true -> camera_controls (cells st) = true ->
  let st' := step st ClickFlip in
  facingMode (cells st') = flip (facingMode (cells st)) /\
  flip (facingMode (cells st')) = facingMode (cells st) /\
  isStreaming (cells st') = false /\
  isAutoAnalyze (cells st') = false /\
  cameraError (cells st') = None /\
  streamRef st' = None /\
  streams st' = streams (stopCamera st) /\
  pendingUserMedia st' = (pendingUserMedia st ++ [flip (facingMode (cells st))])%list.
Proof.
  intros Ha Hc st'. subst st'.
  assert (Hs : isStreaming (cells st) = true).
  { unfold camera_controls in Hc. now apply andb_prop in Hc as [_ ?]. }
  assert (Hh : handle ClickFlip st
               = startCamera (flip (facingMode (cells st)))
                   (stopCamera (setFacingMode (flip (facingMode (cells st))) st))).
  { simpl. now rewrite Hc, Hs. }
  assert (Hal : alive (handle ClickFlip st) = true).
  { rewrite Hh.
    transitivity (alive (stopCamera (setFacingMode (flip (facingMode (cells st))) st)));
      [reflexivity|].
    destruct (stopCamera_effects
      (setFacingMode (flip (facingMode (cells st))) st)) as (_ & _ & _ & ->). exact Ha. }
  rewrite (step_alive st ClickFlip Ha Hal).
  destruct (rerender_loop_only (handle ClickFlip st)) as (_ & -> & -> & _ & -> & -> & _).
  rewrite Hh. unfold startCamera, stopCamera. simpl.
  destruct (streamRef st) eqn:Href; simpl; destruct (video st); simpl;
    rewrite ?flip_involutive; repeat split; exact Href.
Qed.


(** X4: The answer to [getUserMedia].  Granted: the new stream is the one
    referenced, all its tracks are live, the panel streams, and a later
    [stopCamera] stops exactly these tracks.  Denied: the camera error is
    shown, nothing is acquired, [isStreaming] is as before, and the retry
    button issues a new call. *)
Theorem getUserMedia_answers (st : State) (facing : FacingMode)
    (rest : list FacingMode) (tracks : nat) :
  alive st = true -> pendingUserMedia st = facing :: rest ->
  (let st' := step st (UserMediaGranted tracks) in
   streamRef st' = Some (length (streams st)) /\
   streams st' = (streams st ++ [replicate tracks true])%list /\
   isStreaming (cells st') = true /\
   pendingUserMedia st' = rest /\
   streams (stopCamera st') = (streams st ++ [replicate tracks false])%list) /\
  (let st' := step st UserMediaDenied in
   cameraError (cells st')
   = Some "Unable to access camera. Please check permissions." /\
   streamRef st' = streamRef st /\ streams st' = streams st /\
   isStreaming (cells st') = isStreaming (cells st) /\
   pendingUserMedia st' = rest /\
   (source (cells st) = camera ->
    pendingUserMedia (step st' ClickStartCamera)
    = (rest ++ [facingMode (cells st)])%list)).
Proof.
  intros Ha Hp. split.
  - intros st'. subst st'.
    assert (Hal : alive (handle (UserMediaGranted tracks) st) = true).
    { simpl. rewrite Hp. unfold startCamera_granted. simpl. now destruct (video st). }
    rewrite (step_alive _ _ Ha Hal).
    destruct (rerender_loop_only (handle (UserMediaGranted tracks) st))
      as (_ & Hc & Hr & _ & Hs & Hpm & _).
    rewrite stopCamera_streams, Hc, Hr, Hs, Hpm. simpl. rewrite Hp.
    unfold startCamera_granted. simpl.
    assert (Halter : alter (fmap (fun _ : bool => false)) (length (streams st))
                       (streams st ++ [replicate tracks true])%list
                     = (streams st ++ [replicate tracks false])%list).
    { rewrite alter_app_r_alt by lia. rewrite Nat.sub_diag. simpl.
      now rewrite fmap_replicate. }
    destruct (video st); simpl; rewrite Halter; repeat split.
  - intros st'. subst st'.
    assert (Hh0 : handle UserMediaDenied st
                  = startCamera_denied (set_pendingUserMedia rest st)).
    { simpl. now rewrite Hp. }
    assert (Hal : alive (handle UserMediaDenied st) = true).
    { rewrite Hh0. exact Ha. }
    rewrite (step_alive _ _ Ha Hal).
    destruct (rerender_loop_only (handle UserMediaDenied st))
      as (Hra & Hc & Hr & _ & Hs & Hpm & _).
    set (st1 := rerender (handle UserMediaDenied st)) in *.
    rewrite Hh0 in Hra, Hc, Hr, Hs, Hpm. simpl in Hra, Hc, Hr, Hs, Hpm.
    rewrite Hc, Hr, Hs, Hpm. simpl. repeat split.
    intros Hsrc.
    assert (Hal1 : alive st1 = true) by (rewrite Hra; exact Ha).
    assert (Hh : handle ClickStartCamera st1 = startCamera (facingMode (cells st1)) st1).
    { unfold handle. rewrite Hc. simpl. rewrite Hsrc. simpl.
      now rewrite orb_true_r. }
    rewrite (step_alive st1 ClickStartCamera Hal1) by (rewrite Hh; exact Hal1).
    destruct (rerender_loop_only (handle ClickStartCamera st1)) as (_ & _ & _ & _ & _ & -> & _).
    rewrite Hh. simpl. rewrite Hpm, Hc. reflexivity.
Qed.

(** *** The stream, the flag and the video element *)

(** What the analysis side never touches. *)
Definition same_camera (st st' : State) : Prop :=
  alive st' = alive st /\ isStreaming (cells st') = isStreaming (cells st) /\
  streamRef st' = streamRef st /\ video st' = video st /\ streams st' = streams st.

Lemma same_camera_trans st1 st2 st3 :
  same_camera st1 st2 -> same_camera st2 st3 -> same_camera st1 st3.
Proof.
  intros (A1 & B1 & C1 & D1 & E1) (A2 & B2 & C2 & D2 & E2). repeat split; congruence.
Qed.

Lemma loop_only_same_camera st st' : loop_only st st' -> same_camera st st'.
Proof. intros (A & B & C & D & E & _). repeat split; congruence. Qed.

Lemma processImage_return_same_camera o st : same_camera st (processImage_return o st).
Proof.
  destruct o; simpl;
    [apply loop_only_same_camera, analyzeLoop_tail_loop_only | repeat split..].
Qed.

Lemma processImage_same_camera c o image st : same_camera st (processImage c o image st).
Proof.
  unfold processImage. destruct (service_of (mode c)).
  - destruct (isAutoAnalyze c); repeat split.
  - eapply same_camera_trans; [|apply processImage_return_same_camera].
    destruct (isAutoAnalyze c); repeat split.
Qed.

Lemma processImage_settled_same_camera rq r st :
  same_camera st (processImage_settled rq r st).
Proof.
  unfold processImage_settled.
  eapply same_camera_trans; [|apply processImage_return_same_camera].
  destruct r; [destruct (isAutoAnalyze (rq_closure rq))|]; repeat split.
Qed.

Lemma captureFrame_settled_same_camera pc st :
  same_camera st (captureFrame_settled pc st).
Proof.
  unfold captureFrame_settled, analyzeLoop_resume.
  destruct (pc_origin pc), (pc_blob pc);
    first [apply processImage_same_camera
          | apply loop_only_same_camera, analyzeLoop_tail_loop_only
          | repeat split].
Qed.

Lemma handleManualCapture_same_camera st : same_camera st (handleManualCapture st).
Proof.
  unfold handleManualCapture.
  pose proof (loop_only_same_camera _ _ (captureFrame_loop_only st)) as Hcf.
  destruct (captureFrame st) as [st1 [[b|]|b]]; simpl in *; try exact Hcf.
  eapply same_camera_trans; [exact Hcf | apply processImage_same_camera].
Qed.

Lemma onModeChange_same_camera m st : same_camera st (onModeChange m st).
Proof.
  unfold onModeChange.
  apply (same_camera_trans st (on_cells (with_mode m) st)); [repeat split|].
  apply (same_camera_trans _ (loopEffect (on_cells (with_mode m) st)));
    [apply loop_only_same_camera, loopEffect_loop_only | repeat split].
Qed.

(** While the panel is mounted it streams exactly when [streamRef] holds a
    stream; the video element plays no other stream than that one; and every
    track of that stream is live. *)
Record Camera (st : State) : Prop := {
  cam_flag : alive st = true ->
             (isStreaming (cells st) = true <-> is_Some (streamRef st));
  cam_video : forall v s, video st = Some v -> srcObject v = Some s ->
                          streamRef st = Some s;
  cam_tracks : forall s, streamRef st = Some s ->
               exists tracks, streams st !! s = Some tracks /\
                              Forall (fun t => t = true) tracks;
}.

Lemma Camera_same st st' : same_camera st st' -> Camera st -> Camera st'.
Proof.
  intros (A & B & C & D & E) [H1 H2 H3]. split.
  - rewrite A, B, C. exact H1.
  - rewrite C, D. exact H2.
  - rewrite C, E. exact H3.
Qed.

Lemma stopCamera_video st :
  video (stopCamera st)
  = match video st with
    | Some _ => Some {| srcObject := None; frameWidth := 0; frameHeight := 0 |}
    | None => None
    end.
Proof.
  unfold stopCamera. destruct (streamRef st); simpl; destruct (video st) eqn:Hv;
    simpl; rewrite ?Hv; reflexivity.
Qed.

Lemma stopCamera_isStreaming st : isStreaming (cells (stopCamera st)) = false.
Proof. reflexivity. Qed.

Lemma stopCamera_camera st : Camera (stopCamera st).
Proof.
  split.
  - intros _. rewrite stopCamera_streamRef. split; [discriminate|].
    intros [? ?]. discriminate.
  - intros v s. rewrite stopCamera_video. destruct (video st); [|discriminate].
    intros [= <-]. discriminate.
  - intros s. rewrite stopCamera_streamRef. discriminate.
Qed.

Lemma startCamera_granted_camera tracks st :
  Camera st -> Camera (startCamera_granted tracks st).
Proof.
  intros _. unfold startCamera_granted. split.
  - intros _. simpl. split; [|reflexivity]. intros _.
    destruct (video st); simpl; eauto.
  - intros v s. simpl. destruct (video st) eqn:Hv; simpl; rewrite ?Hv.
    + intros [= <-]. simpl. intros [= <-]. reflexivity.
    + discriminate.
  - intros s. simpl.
    assert (Hr : streamRef match video st with
                   | Some _ => set_video (Some {| srcObject := Some (length (streams st));
                                                  frameWidth := 0; frameHeight := 0 |})
                                 (set_streamRef (Some (length (streams st)))
                                    (set_streams (streams st ++ [replicate tracks true]) st))
                   | None => set_streamRef (Some (length (streams st)))
                               (set_streams (streams st ++ [replicate tracks true]) st)
                   end = Some (length (streams st)) /\
                 streams match video st with
                   | Some _ => set_video (Some {| srcObject := Some (length (streams st));
                                                  frameWidth := 0; frameHeight := 0 |})
                                 (set_streamRef (Some (length (streams st)))
                                    (set_streams (streams st ++ [replicate tracks true]) st))
                   | None => set_streamRef (Some (length (streams st)))
                               (set_streams (streams st ++ [replicate tracks true]) st)
                   end = (streams st ++ [replicate tracks true])%list).
    { destruct (video st); split; reflexivity. }
    destruct Hr as [-> ->]. intros [= <-].
    exists (replicate tracks true). split.
    + rewrite lookup_app_r by lia. now rewrite Nat.sub_diag.
    + apply Forall_replicate. reflexivity.
Qed.

Lemma handle_camera ev st : Camera st -> Camera (handle ev st).
Proof.
  intros HC. pose proof HC as [H1 H2 H3].
  destruct ev; simpl.
  - (* SelectMode *)
    case_decide; [exact HC|]. destruct (App.shows_VisionPanel m).
    + revert HC. apply Camera_same, onModeChange_same_camera.
    + unfold unmount. split.
      * discriminate.
      * intros v s. apply (cam_video _ (stopCamera_camera _)).
      * intros s. apply (cam_tracks _ (stopCamera_camera _)).
  - (* ClickSourceUpload *)
    split; [exact H1 | discriminate | exact H3].
  - (* ClickSourceCamera *)
    case_decide.
    + revert HC. apply Camera_same. repeat split.
    + split; [exact H1 | | exact H3]. simpl. intros v s [= <-]. discriminate.
  - (* ClickStartCamera *)
    destruct (_ && _); [|exact HC]. revert HC. apply Camera_same. repeat split.
  - (* ClickFlip *)
    destruct (camera_controls (cells st)); [|exact HC].
    destruct (isStreaming (cells st)).
    + generalize (stopCamera_camera
        (setFacingMode (flip (facingMode (cells st))) st)).
      apply Camera_same. repeat split.
    + revert HC. apply Camera_same. repeat split.
  - (* ClickCapture *)
    destruct (_ && _); [|exact HC]. revert HC.
    apply Camera_same, handleManualCapture_same_camera.
  - (* ClickToggleAuto *)
    destruct (camera_controls (cells st)); [|exact HC].
    revert HC. apply Camera_same. repeat split.
  - (* ClickAnalyze *)
    destruct (selectedImage (cells st)); [|exact HC].
    destruct (_ && _); [|exact HC]. revert HC.
    apply Camera_same, processImage_same_camera.
  - (* SelectFile *)
    destruct (_ && _); [|exact HC]. revert HC. apply Camera_same. repeat split.
  - (* ClearImage *)
    destruct (_ && _); [|exact HC]. revert HC. apply Camera_same. repeat split.
  - (* UserMediaGranted *)
    destruct (pendingUserMedia st); [exact HC|].
    apply startCamera_granted_camera. revert HC. apply Camera_same. repeat split.
  - (* UserMediaDenied *)
    destruct (pendingUserMedia st); [exact HC|].
    revert HC. apply Camera_same. repeat split.
  - (* VideoFrameSize *)
    destruct (video st) as [v|] eqn:Hv; [|exact HC].
    destruct (srcObject v) as [s|] eqn:Hs; [|exact HC].
    split; [exact H1 | | exact H3]. simpl. intros v' s' [= <-]. simpl.
    intros [= <-]. now apply (H2 v).
  - (* TimerFired *)
    destruct (list_find _ _) as [[k t]|]; [|exact HC].
    revert HC. apply Camera_same.
    eapply same_camera_trans; [|apply loop_only_same_camera, analyzeLoop_loop_only].
    repeat split.
  - (* BlobReady *)
    destruct (find_id id (captures st)); [|exact HC].
    revert HC. apply Camera_same.
    eapply same_camera_trans; [|apply captureFrame_settled_same_camera].
    repeat split.
  - (* Response *)
    destruct (find_id id (requests st)); [|exact HC].
    revert HC. apply Camera_same.
    eapply same_camera_trans; [|apply processImage_settled_same_camera].
    repeat split.
Qed.

Lemma step_camera st ev : Camera st -> Camera (step st ev).
Proof.
  intros HC. unfold step. destruct (negb (alive st) && user_event ev); [exact HC|].
  pose proof (handle_camera ev st HC) as HC'.
  destruct (alive (handle ev st)) eqn:Hal.
  - revert HC'. apply Camera_same, loop_only_same_camera, rerender_loop_only.
  - destruct HC' as [_ H2 H3]. split; [simpl; congruence | exact H2 | exact H3].
Qed.

Lemma initial_camera m : Camera (initial m).
Proof.
  split; simpl; try discriminate. intros _. split; [discriminate|].
  intros [? ?]. discriminate.
Qed.

(** X5: In every state the panel can reach: while it is mounted, [isStreaming]
    holds exactly when [streamRef] holds a stream; the video element plays
    no stream but the one in [streamRef]; all tracks of that stream are
    live, so [stopCamera] is the only thing that ever stops a track. *)
Theorem streaming_means_a_held_stream (st : State) :
  reachable st ->
  (alive st = true -> (isStreaming (cells st) = true <-> is_Some (streamRef st))) /\
  (forall v s, video st = Some v -> srcObject v = Some s -> streamRef st = Some s) /\
  (forall s, streamRef st = Some s ->
     exists tracks, streams st !! s = Some tracks /\ Forall (fun t => t = true) tracks).
Proof.
  intros (m & evs & _ & ->).
  assert (HC : Camera (run evs (initial m))).
  { generalize (initial_camera m). generalize (initial m).
    induction evs as [|ev evs IH]; intros st H; simpl; [exact H|].
    apply IH. now apply step_camera. }
  destruct HC as [H1 H2 H3]. auto.
Qed.

(** *** A grant that arrives after teardown *)

Lemma step_gone st ev :
  alive st = false ->
  alive (step st ev) = false /\
  forall s tracks, streams st !! s = Some tracks ->
                   streams (step st ev) !! s = Some tracks.
Proof.
  intros Ha. unfold step. rewrite Ha. simpl.
  destruct (user_event ev) eqn:Hu; [now split|].
  assert (Hh : alive (handle ev st) = false /\
               forall s tracks, streams st !! s = Some tracks ->
                                streams (handle ev st) !! s = Some tracks).
  { assert (Hsame : forall st', same_camera st st' ->
              alive st' = false /\
              forall s tracks, streams st !! s = Some tracks ->
                               streams st' !! s = Some tracks).
    { intros st' (A & _ & _ & _ & E). rewrite A, E. now split. }
    destruct ev; try discriminate Hu; simpl.
    - destruct (pendingUserMedia st); [now split|].
      unfold startCamera_granted. simpl. split.
      + now destruct (video st).
      + intros s tr Hl.
        assert (Hs : streams match video st with
                   | Some _ => set_video (Some {| srcObject := Some (length (streams st));
                                                  frameWidth := 0; frameHeight := 0 |})
                                 (set_streamRef (Some (length (streams st)))
                                    (set_streams (streams st ++ [replicate tracks true])
                                       (set_pendingUserMedia l st)))
                   | None => set_streamRef (Some (length (streams st)))
                               (set_streams (streams st ++ [replicate tracks true])
                                  (set_pendingUserMedia l st))
                   end = (streams st ++ [replicate tracks true])%list).
        { now destruct (video st). }
        rewrite Hs. apply lookup_app_l_Some. exact Hl.
    - destruct (pendingUserMedia st); now split.
    - destruct (video st) as [v|]; [|now split].
      destruct (srcObject v); now split.
    - destruct (list_find _ _) as [[k t]|]; [|now split].
      apply Hsame.
      eapply same_camera_trans; [|apply loop_only_same_camera, analyzeLoop_loop_only].
      repeat split.
    - destruct (find_id id (captures st)); [|now split].
      apply Hsame.
      eapply same_camera_trans; [|apply captureFrame_settled_same_camera].
      repeat split.
    - destruct (find_id id (requests st)); [|now split].
      apply Hsame.
      eapply same_camera_trans; [|apply processImage_settled_same_camera].
      repeat split. }
  destruct Hh as [Hal Hs]. rewrite Hal. split; [exact Hal | exact Hs].
Qed.

Lemma run_gone evs st :
  alive st = false ->
  alive (run evs st) = false /\
  forall s tracks, streams st !! s = Some tracks ->
                   streams (run evs st) !! s = Some tracks.
Proof.
  revert st. induction evs as [|ev evs IH]; intros st Ha; simpl; [now split|].
  destruct (step_gone st ev Ha) as [Ha' Hs'].
  destruct (IH _ Ha') as [Ha'' Hs'']. split; [exact Ha''|]. auto.
Qed.

(** X6: [startCamera] does not look at whether the panel is still there when
    [getUserMedia] answers.  A stream granted after teardown is stored in
    [streamRef], and whatever happens afterwards its tracks stay live:
    nothing is left that would call [stopCamera]. *)
Theorem stream_granted_after_teardown_stays_live (st : State)
    (facing : FacingMode) (rest : list FacingMode) (tracks : nat) (evs : list Event) :
  alive st = false -> pendingUserMedia st = facing :: rest ->
  let st1 := step st (UserMediaGranted tracks) in
  streamRef st1 = Some (length (streams st)) /\
  alive (run evs st1) = false /\
  streams (run evs st1) !! length (streams st) = Some (replicate tracks true).
Proof.
  intros Ha Hp st1.
  assert (H1 : alive st1 = false) by apply (step_gone st _ Ha).
  assert (Hh : handle (UserMediaGranted tracks) st
               = startCamera_granted tracks (set_pendingUserMedia rest st)).
  { simpl. now rewrite Hp. }
  assert (Hal : alive (handle (UserMediaGranted tracks) st) = false).
  { rewrite Hh. unfold startCamera_granted. simpl. now destruct (video st). }
  assert (Hst : streamRef st1 = Some (length (streams st)) /\
                streams st1 = (streams st ++ [replicate tracks true])%list).
  { subst st1. unfold step. rewrite Ha, Hal. simpl. rewrite Hp.
    unfold startCamera_granted. simpl. now destruct (video st). }
  destruct Hst as [Hr Hs]. split; [exact Hr|].
  destruct (run_gone evs st1 H1) as [Hg Hk]. split; [exact Hg|].
  apply Hk. rewrite Hs, lookup_app_r by lia. now rewrite Nat.sub_diag.
Qed.

(** *** Instances *)

(** The camera view was opened and [getUserMedia] is not answered yet. *)
Definition asking : State := step (initial CLASSIFICATION) ClickSourceCamera.

(** The panel was replaced by the speech panel before the answer. *)
Definition left_while_asking : State := step asking (SelectMode SPEECH_TO_TEXT).

Lemma flip_restarts_the_camera_witness :
  let st := streaming CLASSIFICATION in
  let st' := step st ClickFlip in
  facingMode (cells st') = flip (facingMode (cells st)) /\
  flip (facingMode (cells st')) = facingMode (cells st) /\
  isStreaming (cells st') = false /\
  isAutoAnalyze (cells st') = false /\
  cameraError (cells st') = None /\
  streamRef st' = None /\
  streams st' = streams (stopCamera st) /\
  pendingUserMedia st' = (pendingUserMedia st ++ [flip (facingMode (cells st))])%list.
Proof.
  assert (Ha : alive (streaming CLASSIFICATION) = true) by (vm_compute; reflexivity).
  assert (Hc : camera_controls (cells (streaming CLASSIFICATION)) = true)
    by (vm_compute; reflexivity).
  exact (flip_restarts_the_camera (streaming CLASSIFICATION) Ha Hc).
Defined.


Lemma getUserMedia_answers_witness :
  streams (step asking (UserMediaGranted 2)) = [[true; true]] /\
  streams (stopCamera (step asking (UserMediaGranted 2))) = [[false; false]] /\
  cameraError (cells (step asking UserMediaDenied))
  = Some "Unable to access camera. Please check permissions.".
Proof.
  assert (Ha : alive asking = true) by (vm_compute; reflexivity).
  assert (Hp : pendingUserMedia asking = [environment]) by (vm_compute; reflexivity).
  destruct (getUserMedia_answers asking environment [] 2 Ha Hp)
    as ((_ & Hs & _ & _ & Hstop) & (He & _)).
  split; [exact Hs|]. split; [exact Hstop | exact He].
Defined.

Lemma streaming_means_a_held_stream_witness :
  (isStreaming (cells (streaming CLASSIFICATION)) = true <->
   is_Some (streamRef (streaming CLASSIFICATION))) /\
  streamRef (streaming CLASSIFICATION) = Some 0.
Proof.
  assert (Hreach : reachable (streaming CLASSIFICATION))
    by reached CLASSIFICATION camera_on.
  destruct (streaming_means_a_held_stream (streaming CLASSIFICATION) Hreach)
    as (Hflag & _ & _).
  split; [apply Hflag; vm_compute; reflexivity | vm_compute; reflexivity].
Defined.

Lemma stream_granted_after_teardown_stays_live_witness :
  let st1 := step left_while_asking (UserMediaGranted 1) in
  let later := [VideoFrameSize 640 480; SelectMode CLASSIFICATION; ClickFlip] in
  streamRef st1 = Some (length (streams left_while_asking)) /\
  alive (run later st1) = false /\
  streams (run later st1) !! length (streams left_while_asking)
  = Some (replicate 1 true).
Proof.
  assert (Ha : alive left_while_asking = false) by (vm_compute; reflexivity).
  assert (Hp : pendingUserMedia left_while_asking = [environment])
    by (vm_compute; reflexivity).
  exact (stream_granted_after_teardown_stays_live left_while_asking environment [] 1
           [VideoFrameSize 640 480; SelectMode CLASSIFICATION; ClickFlip] Ha Hp).
Defined.

End VisionPanelCamera.

(** ** More on the vision panel: what the loop waits for *)

Module VisionPanelLoop.
Import VisionPanel VisionPanelSpec VisionPanelCamera.

(** The pending captures that run [i] of the loop effect awaits. *)
Definition from_run (i : nat) (pc : PendingCapture) : bool :=
  match pc_origin pc with
  | FromLoop j => bool_decide (j = i)
  | _ => false
  end.

Fixpoint awaiting (i : nat) (l : list (nat * PendingCapture)) : nat :=
  match l with
  | [] => 0
  | p :: r => (if from_run i p.2 then 1 else 0) + awaiting i r
  end.

(** What the current run of the loop effect waits for: timers and frames
    being encoded. *)
Definition waits (st : State) : nat :=
  length (timers st) + awaiting (current st) (captures st).

(** A pending timer was set by run [e], which is run number [cur], with the
    delay that [analyzeLoop] chooses for the values of that run. *)
Definition tick_ok (e : LoopEffect) (cur : nat) (t : Timer) : Prop :=
  t_effect t = cur /\ timeoutId e = Some (t_id t) /\
  t_delay t = if isLoading (closure e) then retry_delay
              else cadence (mode (closure e)).

(** The current run waits for one thing at most, and only when its render
    had the loop on and the camera streaming; a run that was cleaned up
    leaves no timer behind. *)
Definition Ticks (st : State) : Prop :=
  match effects st !! current st with
  | Some e =>
      if mounted e then
        waits st <= 1 /\ Forall (tick_ok e (current st)) (timers st) /\
        (waits st = 1 ->
         isAutoAnalyze (closure e) = true /\ isStreaming (closure e) = true)
      else timers st = []
  | None => timers st = []
  end.

Lemma awaiting_app i l l' : awaiting i (l ++ l') = awaiting i l + awaiting i l'.
Proof. induction l as [|p l IH]; simpl; [reflexivity|]. rewrite IH. lia. Qed.

Lemma awaiting_drop_le i id l : awaiting i (drop_id id l) <= awaiting i l.
Proof.
  unfold drop_id. induction l as [|p l IH]; simpl; [lia|].
  rewrite filter_cons. case_decide; simpl; lia.
Qed.

Lemma awaiting_drop_found i id l pc :
  find_id id l = Some pc -> from_run i pc = true ->
  awaiting i (drop_id id l) + 1 <= awaiting i l.
Proof.
  unfold drop_id. induction l as [|[k a] l IH]; simpl; [discriminate|].
  rewrite filter_cons. simpl. case_decide as Hk.
  - subst k. intros [= ->] Hf. rewrite Hf.
    rewrite decide_False by (intros Hne; now apply Hne).
    pose proof (awaiting_drop_le i id l) as Hle. unfold drop_id in Hle. lia.
  - intros Hfind Hf. rewrite decide_True by exact Hk. simpl.
    specialize (IH Hfind Hf). lia.
Qed.

Lemma awaiting_out_of_range i (l : list (nat * PendingCapture)) effs Q :
  Forall (fun p => run_of effs (pc_origin p.2) Q) l -> length effs <= i ->
  awaiting i l = 0.
Proof.
  intros Hall Hi. induction Hall as [|p l Hp _ IH]; simpl; [reflexivity|].
  rewrite IH, Nat.add_0_r. unfold from_run.
  destruct (pc_origin p.2) as [j| |]; simpl in *; try reflexivity.
  destruct Hp as (e & He & _). apply lookup_lt_Some in He.
  rewrite bool_decide_eq_false_2 by lia. reflexivity.
Qed.

(** [Ticks] looks at the runs, the timers and the captures only. *)
Lemma Ticks_fewer st st' :
  effects st' = effects st -> timers st' = timers st ->
  awaiting (current st) (captures st') <= awaiting (current st) (captures st) ->
  Ticks st -> Ticks st'.
Proof.
  unfold Ticks, waits, current. intros -> -> Hle.
  destruct (effects st !! _) as [e|]; [|auto].
  destruct (mounted e); [|auto].
  intros (H1 & H2 & H3). split; [lia|]. split; [exact H2|].
  intros Hw. apply H3. lia.
Qed.

Lemma Ticks_frame st st' :
  effects st' = effects st -> timers st' = timers st -> captures st' = captures st ->
  Ticks st -> Ticks st'.
Proof. intros He Ht Hc. apply Ticks_fewer; auto. rewrite Hc. lia. Qed.

Lemma Ticks_no_timer st st' :
  effects st' = effects st -> timers st' = [] -> captures st' = captures st ->
  Ticks st -> Ticks st'.
Proof.
  unfold Ticks, waits, current. intros -> -> ->.
  destruct (effects st !! _) as [e|]; [|auto].
  destruct (mounted e); [|auto].
  intros (H1 & H2 & H3). simpl. split; [lia|]. split; [constructor|].
  intros Hw. apply H3. lia.
Qed.

(** What must hold when run [i] goes on after an [await]: if it is still
    mounted it is the current run and waits for nothing. *)
Definition resumes (i : nat) (st : State) : Prop :=
  forall e, effects st !! i = Some e -> mounted e = true ->
    i = current st /\ timers st = [] /\ awaiting (current st) (captures st) = 0.

Lemma setTimeout_ticks i d st e :
  effects st !! i = Some e -> mounted e = true -> resumes i st ->
  isAutoAnalyze (closure e) = true -> isStreaming (closure e) = true ->
  d = (if isLoading (closure e) then retry_delay else cadence (mode (closure e))) ->
  Ticks (setTimeout i d st).
Proof.
  intros He Hm Hres Hauto Hstr Hd. destruct (Hres e He Hm) as (Hi & Ht & Hc).
  unfold Ticks, waits, setTimeout, current in *. simpl.
  rewrite length_alter, <- Hi, list_lookup_alter, decide_True by reflexivity.
  rewrite He. simpl. rewrite Hm, Ht. simpl. rewrite <- Hi in Hc.
  rewrite Hc. split; [lia|]. split; [|auto].
  constructor; [|constructor]. repeat split; assumption.
Qed.

Lemma analyzeLoop_tail_ticks i st :
  Ticks st -> resumes i st ->
  (forall e, effects st !! i = Some e -> mounted e = true ->
     isLoading (closure e) = false /\ isStreaming (closure e) = true) ->
  Ticks (analyzeLoop_tail i st).
Proof.
  intros HT Hres Hidle. unfold analyzeLoop_tail.
  destruct (effects st !! i) as [e|] eqn:He; [|exact HT].
  destruct (mounted e) eqn:Hm; [|exact HT]. simpl.
  destruct (isAutoAnalyze (closure e)) eqn:Hauto; [|exact HT].
  destruct (Hidle e eq_refl Hm) as [Hl Hs].
  apply (setTimeout_ticks i _ st e); auto. now rewrite Hl.
Qed.

Lemma captureFrame_quiet st :
  effects (captureFrame st).1 = effects st /\ timers (captureFrame st).1 = timers st /\
  captures (captureFrame st).1 = captures st.
Proof. unfold captureFrame. cases. Qed.

Lemma analyzeLoop_ticks i st :
  Ticks st -> resumes i st -> Ticks (analyzeLoop i st).
Proof.
  intros HT Hres. unfold analyzeLoop.
  destruct (effects st !! i) as [e|] eqn:He; [|exact HT].
  destruct (isAutoAnalyze (closure e)) eqn:Hauto; [|exact HT].
  destruct (mounted e) eqn:Hm; [|exact HT].
  destruct (isStreaming (closure e)) eqn:Hstr; [|exact HT]. simpl.
  destruct (isLoading (closure e)) eqn:Hl.
  { apply (setTimeout_ticks i _ st e); auto. now rewrite Hl. }
  destruct (captureFrame_quiet st) as (Hce & Hct & Hcc).
  pose proof (captureFrame_resolved st) as Hnone.
  destruct (captureFrame st) as [st1 [b|b]]; simpl in *.
  - rewrite (Hnone b eq_refl). simpl.
    assert (HT1 : Ticks st1) by now apply (Ticks_frame st).
    apply analyzeLoop_tail_ticks; [exact HT1 | |].
    + intros e1. unfold current. rewrite Hce, Hct, Hcc. apply Hres.
    + intros e1. rewrite Hce, He. intros [= <-] _. now split.
  - destruct (Hres e He Hm) as (Hi & Ht & Hc).
    unfold Ticks, waits, add_capture, current in *. simpl.
    rewrite Hce, Hct, Hcc, <- Hi, He, Hm, Ht, awaiting_app. simpl.
    rewrite <- Hi in Hc. rewrite Hc.
    unfold from_run. simpl. rewrite bool_decide_eq_true_2 by reflexivity.
    simpl. split; [lia|]. split; [constructor | auto].
Qed.

Lemma cleanup_quiet i st :
  length (effects (cleanup i st)) = length (effects st) /\
  captures (cleanup i st) = captures st.
Proof.
  unfold cleanup, clearTimeout. cases; simpl; rewrite ?length_alter; auto.
Qed.

(** The cleanup of the current run clears the timer the run has set. *)
Lemma cleanup_no_timer st : Ticks st -> timers (cleanup (current st) st) = [].
Proof.
  unfold Ticks, cleanup, clearTimeout.
  destruct (effects st !! current st) as [e|]; [|auto].
  destruct (mounted e).
  - intros (_ & Hall & _). destruct (timeoutId e) as [id|] eqn:Hto; simpl.
    + induction Hall as [|t l (_ & Hid & _) _ IH]; [reflexivity|].
      rewrite filter_cons. rewrite decide_False; [exact IH|].
      intros Hne. apply Hne. congruence.
    + destruct Hall as [|t l (_ & Hid & _) _]; [reflexivity | congruence].
  - intros Ht. destruct (timeoutId e); simpl; rewrite Ht; reflexivity.
Qed.

Lemma loopEffect_ticks Q st : Runs Q st -> Ticks st -> Ticks (loopEffect st).
Proof.
  intros HR HT. unfold loopEffect.
  pose proof (cleanup_no_timer st HT) as Ht.
  destruct (cleanup_quiet (current st) st) as [Hlen Hc].
  set (st1 := cleanup (current st) st) in *.
  set (new := {| closure := cells st1; mounted := true; timeoutId := None |}).
  set (st2 := set_effects (effects st1 ++ [new]) st1).
  assert (Hcur : current st2 = length (effects st1)).
  { unfold current, st2. simpl. rewrite length_app. simpl. lia. }
  assert (Hnew : effects st2 !! length (effects st1) = Some new).
  { unfold st2. simpl. rewrite lookup_app_r by lia. now rewrite Nat.sub_diag. }
  assert (Haw : awaiting (current st2) (captures st2) = 0).
  { rewrite Hcur. unfold st2. simpl. rewrite Hc, Hlen.
    destruct HR as [_ R2 _]. eapply awaiting_out_of_range; [exact R2 | lia]. }
  assert (HT2 : Ticks st2).
  { unfold Ticks, waits. rewrite Haw, Hcur, Hnew. simpl.
    unfold st2. simpl. rewrite Ht. simpl. split; [lia|]. split; [constructor|].
    discriminate. }
  destruct (isAutoAnalyze (cells st2)); [|exact HT2].
  apply analyzeLoop_ticks; [exact HT2|].
  intros e _ _. split; [now rewrite Hcur|]. split; [|exact Haw].
  unfold st2. simpl. exact Ht.
Qed.

Lemma rerender_ticks Q st : Runs Q st -> Ticks st -> Ticks (rerender st).
Proof.
  intros HR HT. unfold rerender.
  destruct (effects st !! current st); [case_decide|];
    first [exact HT | now apply (loopEffect_ticks Q)].
Qed.

(** The readiness of whoever awaits [processImage]. *)
Definition returns_ready (o : Origin) (st : State) : Prop :=
  match o with
  | FromLoop i =>
      resumes i st /\
      forall e, effects st !! i = Some e -> mounted e = true ->
        isLoading (closure e) = false /\ isStreaming (closure e) = true
  | _ => True
  end.

Lemma returns_ready_frame o st st' :
  effects st' = effects st -> timers st' = timers st -> captures st' = captures st ->
  returns_ready o st -> returns_ready o st'.
Proof.
  intros He Ht Hc. destruct o; simpl; auto. unfold resumes, current.
  rewrite He, Ht, Hc. auto.
Qed.

Lemma processImage_return_ticks o st :
  Ticks st -> returns_ready o st -> Ticks (processImage_return o st).
Proof.
  destruct o; simpl; auto. intros HT [H1 H2]. now apply analyzeLoop_tail_ticks.
Qed.

Lemma processImage_ticks c o image st :
  Ticks st -> returns_ready o st -> Ticks (processImage c o image st).
Proof.
  intros HT Hready. unfold processImage.
  set (st3 := setError None _).
  assert (H3 : effects st3 = effects st /\ timers st3 = timers st /\
               captures st3 = captures st).
  { subst st3. now destruct (isAutoAnalyze c). }
  destruct H3 as (He & Ht & Hc). clearbody st3.
  destruct (service_of (mode c)).
  - now apply (Ticks_frame st).
  - apply processImage_return_ticks.
    + now apply (Ticks_frame st).
    + now apply (returns_ready_frame o st).
Qed.

Lemma processImage_settled_ticks rq r st :
  Ticks st -> returns_ready (rq_origin rq) st -> Ticks (processImage_settled rq r st).
Proof.
  intros HT Hready. unfold processImage_settled.
  set (st1 := setIsLoading false _).
  assert (H1 : effects st1 = effects st /\ timers st1 = timers st /\
               captures st1 = captures st).
  { subst st1. destruct r; [destruct (isAutoAnalyze (rq_closure rq))|]; auto. }
  destruct H1 as (He & Ht & Hc). clearbody st1.
  apply processImage_return_ticks.
  - now apply (Ticks_frame st).
  - now apply (returns_ready_frame _ st).
Qed.

Lemma handleManualCapture_ticks st : Ticks st -> Ticks (handleManualCapture st).
Proof.
  intros HT. unfold handleManualCapture.
  destruct (captureFrame_quiet st) as (Hce & Hct & Hcc).
  destruct (captureFrame st) as [st1 [[b|]|b]]; simpl in *.
  - apply processImage_ticks; [now apply (Ticks_frame st) | exact I].
  - now apply (Ticks_frame st).
  - apply (Ticks_fewer st); simpl; auto.
    rewrite Hcc, awaiting_app. simpl. lia.
Qed.

(** The encoder calls back for a capture that was pending. *)
Lemma captureFrame_settled_ticks st id pc :
  Runs finished st -> Ticks st -> find_id id (captures st) = Some pc ->
  Ticks (captureFrame_settled pc (set_captures (drop_id id (captures st)) st)).
Proof.
  intros [R1 R2 _] HT Hf.
  set (st' := set_captures (drop_id id (captures st)) st).
  assert (HT' : Ticks st').
  { apply (Ticks_fewer st); auto. apply awaiting_drop_le. }
  pose proof (find_id_Forall (fun pc => run_of (effects st) (pc_origin pc) idle)
                _ _ _ R2 Hf) as Hrun.
  cbv beta in Hrun.
  assert (Hready : returns_ready (pc_origin pc) st').
  { destruct (pc_origin pc) as [i| |] eqn:Ho; simpl; auto.
    destruct Hrun as (e0 & He0 & Hidle).
    assert (Hres : forall e, effects st !! i = Some e -> mounted e = true ->
              i = current st /\ timers st = [] /\
              awaiting (current st) (drop_id id (captures st)) = 0 /\
              isStreaming (closure e) = true).
    { intros e He Hm. destruct (R1 i e He Hm) as [Hi _]. subst i.
      unfold Ticks in HT. rewrite He, Hm in HT. destruct HT as (Hw & _ & Hon).
      unfold waits in *.
      assert (Hfrom : from_run (current st) pc = true).
      { unfold from_run. rewrite Ho. now apply bool_decide_eq_true_2. }
      pose proof (awaiting_drop_found (current st) id _ pc Hf Hfrom) as Hdrop.
      split; [reflexivity|]. split; [destruct (timers st); [reflexivity | simpl in *; lia]|].
      split; [lia|]. apply Hon. destruct (timers st); simpl in *; lia. }
    split.
    - intros e He Hm. destruct (Hres e He Hm) as (A & B & C & _). auto.
    - intros e He Hm. destruct (Hres e He Hm) as (_ & _ & _ & D).
      split; [|exact D]. simpl in He. unfold idle in Hidle. congruence. }
  unfold captureFrame_settled, analyzeLoop_resume.
  destruct (pc_origin pc) as [i| |] eqn:Ho; destruct (pc_blob pc);
    first [ now apply processImage_ticks
          | exact HT'
          | destruct Hready; now apply analyzeLoop_tail_ticks ].
Qed.

(** The service answers a request that was outstanding. *)
Lemma Response_ticks st id rq r :
  Runs finished st -> Ticks st -> find_id id (requests st) = Some rq ->
  Ticks (processImage_settled rq r (set_requests (drop_id id (requests st)) st)).
Proof.
  intros [_ _ R3] HT Hf.
  pose proof (find_id_Forall (fun rq => run_of (effects st) (rq_origin rq) finished)
                _ _ _ R3 Hf) as Hrun.
  cbv beta in Hrun.
  apply processImage_settled_ticks; [now apply (Ticks_frame st)|].
  destruct (rq_origin rq) as [i| |]; simpl; auto.
  destruct Hrun as (e0 & He0 & Hfin). unfold finished in Hfin.
  split; intros e He Hm; simpl in He; congruence.
Qed.

(** A timer fires. *)
Lemma TimerFired_ticks st id k t :
  Runs finished st -> Ticks st ->
  list_find (fun t => t_id t = id) (timers st) = Some (k, t) ->
  Ticks (analyzeLoop (t_effect t)
           (set_timers (filter (fun t => t_id t <> id) (timers st)) st)).
Proof.
  intros [R1 _ _] HT Hfind.
  apply list_find_Some in Hfind as (Hk & Hid & _).
  set (st' := set_timers _ st).
  assert (Hone : forall e, effects st !! current st = Some e -> mounted e = true ->
            timers st = [t] /\ awaiting (current st) (captures st) = 0).
  { intros e He Hm. unfold Ticks in HT. rewrite He, Hm in HT.
    destruct HT as (Hw & _ & _). unfold waits in Hw.
    destruct (timers st) as [|t0 [|t1 l]]; simpl in *; try lia; try discriminate.
    destruct k; simpl in Hk; [|discriminate]. split; [congruence | lia]. }
  assert (Hnone : timers st' = []).
  { unfold Ticks in HT. subst st'. simpl.
    destruct (effects st !! current st) as [e|] eqn:He;
      [destruct (mounted e) eqn:Hm|]; try (rewrite HT; reflexivity).
    destruct (Hone e eq_refl Hm) as [-> _].
    rewrite filter_cons, decide_False; [reflexivity|]. intros Hne. now apply Hne. }
  apply analyzeLoop_ticks.
  - now apply (Ticks_no_timer st).
  - intros e He Hm. simpl in He. destruct (R1 _ e He Hm) as [Hi _].
    split; [exact Hi|]. split; [exact Hnone|]. simpl.
    rewrite Hi in He. exact (proj2 (Hone e He Hm)).
Qed.

Lemma unmount_ticks st : Runs finished st -> Ticks st -> Ticks (unmount st).
Proof.
  intros HR HT. unfold unmount.
  pose proof (cleanup_no_timer st HT) as Ht.
  pose proof (fun i e => cleanup_current_finished _ st i e HR) as Hfin.
  set (st1 := cleanup (current st) st) in *.
  set (st2 := stopCamera (set_canvas None (set_video None st1))).
  assert (H2 : effects st2 = effects st1 /\ timers st2 = []).
  { subst st2. unfold stopCamera. cases. }
  destruct H2 as [He2 Ht2]. clearbody st2.
  unfold Ticks, current. simpl. rewrite He2.
  destruct (effects st1 !! _) as [e|] eqn:He; [|exact Ht2].
  now rewrite (Hfin _ _ He).
Qed.

Lemma handle_ticks ev st :
  alive st = true \/ user_event ev = false ->
  Runs finished st -> Ticks st -> Ticks (handle ev st).
Proof.
  intros Hlive HR HT.
  assert (Hframe : forall st', effects st' = effects st -> timers st' = timers st ->
            captures st' = captures st -> Ticks st').
  { intros st' He Ht Hc. now apply (Ticks_frame st). }
  destruct ev; unfold handle.
  - case_decide; [exact HT|]. destruct (App.shows_VisionPanel m).
    + unfold onModeChange.
      assert (H1 : Ticks (loopEffect (on_cells (with_mode m) st))).
      { apply (loopEffect_ticks finished).
        - now unchanged st.
        - now apply Hframe. }
      revert H1. apply Ticks_frame; reflexivity.
    + now apply unmount_ticks.
  - now apply Hframe.
  - case_decide; now apply Hframe.
  - cases; now apply Hframe.
  - destruct (camera_controls _); [|exact HT].
    destruct (isStreaming _); [|now apply Hframe].
    apply Hframe; unfold startCamera, stopCamera; cases; reflexivity.
  - destruct (_ && _); [now apply handleManualCapture_ticks | exact HT].
  - cases; now apply Hframe.
  - destruct (selectedImage (cells st)); [|exact HT].
    destruct (_ && _); [now apply processImage_ticks | exact HT].
  - cases; now apply Hframe.
  - cases; now apply Hframe.
  - cases; apply Hframe; unfold startCamera_granted; cases; reflexivity.
  - cases; now apply Hframe.
  - cases; now apply Hframe.
  - destruct (list_find _ _) as [[k t]|] eqn:Hfind; [|exact HT].
    now apply (TimerFired_ticks st id k t).
  - destruct (find_id id (captures st)) as [pc|] eqn:Hf; [|exact HT].
    now apply captureFrame_settled_ticks.
  - destruct (find_id id (requests st)) as [rq|] eqn:Hf; [|exact HT].
    now apply Response_ticks.
Qed.

Lemma step_ticks st ev : Runs finished st -> Ticks st -> Ticks (step st ev).
Proof.
  intros HR HT. unfold step.
  destruct (negb (alive st) && user_event ev) eqn:Hg; [exact HT|].
  assert (Hlive : alive st = true \/ user_event ev = false).
  { destruct (alive st); [now left | right]. simpl in Hg. exact Hg. }
  pose proof (handle_ticks ev st Hlive HR HT) as HT'.
  pose proof (handle_runs ev st Hlive HR) as HR'.
  destruct (alive (handle ev st)).
  - now apply (rerender_ticks _ _ HR').
  - revert HT'. apply Ticks_frame; reflexivity.
Qed.

Lemma initial_ticks m : Ticks (initial m).
Proof. unfold Ticks, waits. simpl. split; [lia|]. split; [constructor | discriminate]. Qed.

Lemma reachable_ticks st : reachable st -> Ticks st.
Proof.
  intros (m & evs & _ & ->).
  assert (H : Runs finished (run evs (initial m)) /\ Ticks (run evs (initial m))).
  { generalize (initial_runs m) (initial_ticks m). generalize (initial m).
    induction evs as [|ev evs IH]; intros st HR HT; simpl; [now split|].
    apply IH; [now apply step_runs | now apply step_ticks]. }
  exact (proj2 H).
Qed.

(** X7: In every state the panel can reach at most one timer of the loop is
    pending.  A pending timer belongs to the current run of the loop effect
    of a mounted panel whose loop is on and whose camera streams; that run
    awaits no capture at the same time; and the delay is 200 ms when a
    request was outstanding at the tick, the delay of the mode otherwise. *)
Theorem one_timer_of_the_current_run (st : State) :
  reachable st ->
  length (timers st) <= 1 /\
  forall t, t ∈ timers st ->
    alive st = true /\ t_effect t = current st /\
    isAutoAnalyze (cells st) = true /\ isStreaming (cells st) = true /\
    awaiting (current st) (captures st) = 0 /\
    t_delay t = if isLoading (cells st) then retry_delay else cadence (mode (cells st)).
Proof.
  intros Hreach.
  pose proof (reachable_ticks st Hreach) as HT.
  destruct (reachable_runs st Hreach) as [R1 _ _].
  destruct (reachable_inv st Hreach) as [_ Hcur].
  unfold Ticks in HT.
  destruct (effects st !! current st) as [e|] eqn:He;
    [destruct (mounted e) eqn:Hm|]; try (rewrite HT; split; [simpl; lia|];
                                          intros t Ht; now apply elem_of_nil in Ht).
  destruct HT as (Hw & Hall & Hon). unfold waits in *.
  split; [lia|]. intros t Ht.
  destruct (R1 _ e He Hm) as [_ Ha].
  destruct (Hcur Ha) as (e' & He' & Hdeps).
  assert (e' = e) as -> by congruence.
  unfold deps in Hdeps. injection Hdeps as Hd1 Hd2 Hd3 Hd4.
  rewrite list.Forall_forall in Hall. destruct (Hall t Ht) as (Hi & _ & Hd).
  assert (Hlen : length (timers st) = 1).
  { destruct (timers st); [now apply elem_of_nil in Ht | simpl in *; lia]. }
  destruct Hon as [Hauto Hstr]; [lia|].
  rewrite <- Hd1, <- Hd2, <- Hd3, <- Hd4.
  repeat split; auto. lia.
Qed.

(** *** The identifiers of pending captures *)

(** Every pending capture has an identifier of its own, below the next one
    to be handed out. *)
Definition Fresh (st : State) : Prop :=
  Forall (fun p => p.1 < fresh st) (captures st) /\ NoDup (captures st).*1.

(** No capture is added and no identifier is taken back. *)
Definition grows (st st' : State) : Prop :=
  fresh st <= fresh st' /\ captures st' = captures st.

Lemma grows_refl st : grows st st.
Proof. split; [lia | reflexivity]. Qed.

Lemma grows_trans st1 st2 st3 : grows st1 st2 -> grows st2 st3 -> grows st1 st3.
Proof. intros [A1 B1] [A2 B2]. split; [lia | congruence]. Qed.

Lemma Fresh_grows st st' : grows st st' -> Fresh st -> Fresh st'.
Proof.
  intros [Hf Hc] [H1 H2]. unfold Fresh. rewrite Hc. split; [|exact H2].
  eapply List.Forall_impl; [|exact H1]. simpl. intros p Hp. lia.
Qed.

Lemma add_capture_fresh pc st : Fresh st -> Fresh (add_capture pc st).
Proof.
  intros [H1 H2]. unfold Fresh, add_capture. simpl. split.
  - apply Forall_app. split.
    + eapply List.Forall_impl; [|exact H1]. simpl. intros p Hp. lia.
    + constructor; [simpl; lia | constructor].
  - rewrite fmap_app. simpl. apply list.NoDup_app. split; [exact H2|]. split.
    + intros k Hk Hin. apply list_elem_of_singleton in Hin. subst k.
      apply list_elem_of_fmap in Hk as (p & Heq & Hp).
      rewrite list.Forall_forall in H1. specialize (H1 p Hp). lia.
    + apply NoDup_singleton.
Qed.

Lemma drop_id_keys {A} id (l : list (nat * A)) k :
  k ∈ (drop_id id l).*1 -> k ∈ l.*1.
Proof.
  unfold drop_id. intros (p & -> & Hp)%list_elem_of_fmap.
  apply list_elem_of_filter in Hp as [_ Hp]. now apply list_elem_of_fmap_2.
Qed.

Lemma drop_id_unique {A} id (l : list (nat * A)) :
  NoDup l.*1 -> NoDup (drop_id id l).*1.
Proof.
  unfold drop_id. induction l as [|[k a] l IH]; simpl; [constructor|].
  intros [Hk Hl]%list.NoDup_cons. rewrite filter_cons. simpl.
  case_decide; [|auto]. simpl. apply list.NoDup_cons. split; [|auto].
  intros Hin. apply Hk. now apply (drop_id_keys id).
Qed.

Lemma drop_id_absent {A} id (l : list (nat * A)) : id ∉ l.*1 -> drop_id id l = l.
Proof.
  unfold drop_id. induction l as [|[k a] l IH]; simpl; [reflexivity|].
  intros Hid. apply not_elem_of_cons in Hid as [Hne Hid].
  rewrite filter_cons. simpl. rewrite decide_True by congruence.
  now rewrite IH.
Qed.

Lemma drop_id_fresh id st :
  Fresh st -> Fresh (set_captures (drop_id id (captures st)) st).
Proof.
  intros [H1 H2]. split; simpl; [|now apply drop_id_unique].
  now apply Forall_drop_id.
Qed.

(** With identifiers of their own, a callback takes exactly its own capture
    off the list. *)
Lemma awaiting_drop_exact i id l pc :
  NoDup l.*1 -> find_id id l = Some pc ->
  awaiting i (drop_id id l) + (if from_run i pc then 1 else 0) = awaiting i l.
Proof.
  induction l as [|[k a] l IH]; simpl; [discriminate|].
  intros [Hk Hl]%list.NoDup_cons. case_decide as Hid.
  - subst k. intros [= ->]. unfold drop_id. rewrite filter_cons. simpl.
    rewrite decide_False by (intros Hne; now apply Hne).
    fold (drop_id id l). rewrite drop_id_absent by exact Hk. lia.
  - intros Hf. unfold drop_id. rewrite filter_cons. simpl.
    rewrite decide_True by exact Hid. simpl. fold (drop_id id l).
    specialize (IH Hl Hf). lia.
Qed.

Lemma setTimeout_grows i d st : grows st (setTimeout i d st).
Proof. split; simpl; [lia | reflexivity]. Qed.

Lemma analyzeLoop_tail_grows i st : grows st (analyzeLoop_tail i st).
Proof.
  unfold analyzeLoop_tail. cases; first [apply grows_refl | apply setTimeout_grows].
Qed.

Lemma processImage_return_grows o st : grows st (processImage_return o st).
Proof. destruct o; simpl; first [apply analyzeLoop_tail_grows | apply grows_refl]. Qed.

Lemma processImage_grows c o image st : grows st (processImage c o image st).
Proof.
  unfold processImage. destruct (service_of (mode c)).
  - destruct (isAutoAnalyze c); split; simpl; auto.
  - eapply grows_trans; [|apply processImage_return_grows].
    destruct (isAutoAnalyze c); split; simpl; auto.
Qed.

Lemma processImage_settled_grows rq r st : grows st (processImage_settled rq r st).
Proof.
  unfold processImage_settled.
  eapply grows_trans; [|apply processImage_return_grows].
  destruct r; [destruct (isAutoAnalyze (rq_closure rq))|]; split; simpl; auto.
Qed.

Lemma captureFrame_grows st : grows st (captureFrame st).1.
Proof. unfold captureFrame. cases; split; simpl; auto. Qed.

Lemma captureFrame_settled_grows pc st : grows st (captureFrame_settled pc st).
Proof.
  unfold captureFrame_settled, analyzeLoop_resume.
  destruct (pc_origin pc), (pc_blob pc);
    first [apply processImage_grows | apply analyzeLoop_tail_grows | apply grows_refl].
Qed.

Lemma cleanup_grows i st : grows st (cleanup i st).
Proof. unfold cleanup, clearTimeout. cases; split; simpl; auto. Qed.

Lemma analyzeLoop_fresh i st : Fresh st -> Fresh (analyzeLoop i st).
Proof.
  intros HF. unfold analyzeLoop.
  destruct (effects st !! i) as [e|]; [|exact HF].
  destruct (_ || _); [exact HF|].
  destruct (isLoading (closure e)).
  { revert HF. apply Fresh_grows, setTimeout_grows. }
  pose proof (captureFrame_grows st) as Hcf.
  destruct (captureFrame st) as [st1 [b|b]]; simpl in *.
  - destruct b; unfold analyzeLoop_resume; revert HF; apply Fresh_grows;
      (eapply grows_trans; [exact Hcf|]);
      first [apply processImage_grows | apply analyzeLoop_tail_grows].
  - apply add_capture_fresh. revert HF. now apply Fresh_grows.
Qed.

Lemma loopEffect_fresh st : Fresh st -> Fresh (loopEffect st).
Proof.
  intros HF. unfold loopEffect.
  apply (Fresh_grows _ _ (cleanup_grows (current st) st)) in HF.
  set (st1 := cleanup _ st) in *. clearbody st1.
  destruct (isAutoAnalyze _); [apply analyzeLoop_fresh|]; exact HF.
Qed.

Lemma rerender_fresh st : Fresh st -> Fresh (rerender st).
Proof.
  intros HF. unfold rerender. cases; first [exact HF | now apply loopEffect_fresh].
Qed.

Lemma handleManualCapture_fresh st : Fresh st -> Fresh (handleManualCapture st).
Proof.
  intros HF. unfold handleManualCapture.
  pose proof (captureFrame_grows st) as Hcf.
  destruct (captureFrame st) as [st1 [[b|]|b]]; simpl in *.
  - revert HF. apply Fresh_grows.
    eapply grows_trans; [exact Hcf | apply processImage_grows].
  - revert HF. now apply Fresh_grows.
  - apply add_capture_fresh. revert HF. now apply Fresh_grows.
Qed.

Lemma handle_fresh ev st : Fresh st -> Fresh (handle ev st).
Proof.
  intros HF.
  assert (Hframe : forall st', fresh st' = fresh st -> captures st' = captures st ->
                               Fresh st').
  { intros st' Hf Hc. apply (Fresh_grows st); [|exact HF]. split; [lia | exact Hc]. }
  destruct ev; unfold handle.
  - case_decide; [exact HF|]. destruct (App.shows_VisionPanel m).
    + unfold onModeChange.
      assert (H1 : Fresh (loopEffect (on_cells (with_mode m) st))).
      { apply loopEffect_fresh. now apply Hframe. }
      revert H1. apply Fresh_grows. split; simpl; auto.
    + unfold unmount.
      pose proof (Fresh_grows _ _ (cleanup_grows (current st) st) HF) as H1.
      revert H1. apply Fresh_grows. unfold stopCamera. cases; split; simpl; auto.
  - now apply Hframe.
  - case_decide; now apply Hframe.
  - cases; now apply Hframe.
  - destruct (camera_controls _); [|exact HF].
    destruct (isStreaming _); [|now apply Hframe].
    apply Hframe; unfold startCamera, stopCamera; cases; reflexivity.
  - destruct (_ && _); [now apply handleManualCapture_fresh | exact HF].
  - cases; now apply Hframe.
  - destruct (selectedImage (cells st)); [|exact HF].
    destruct (_ && _); [|exact HF]. revert HF. apply Fresh_grows, processImage_grows.
  - cases; now apply Hframe.
  - cases; now apply Hframe.
  - cases; apply Hframe; unfold startCamera_granted; cases; reflexivity.
  - cases; now apply Hframe.
  - cases; now apply Hframe.
  - destruct (list_find _ _) as [[k t]|]; [|exact HF].
    apply analyzeLoop_fresh. now apply Hframe.
  - destruct (find_id id (captures st)) as [pc|]; [|exact HF].
    apply (Fresh_grows _ _ (captureFrame_settled_grows pc _)).
    now apply drop_id_fresh.
  - destruct (find_id id (requests st)) as [rq|]; [|exact HF].
    apply (Fresh_grows _ _ (processImage_settled_grows rq r _)).
    now apply Hframe.
Qed.

Lemma step_fresh st ev : Fresh st -> Fresh (step st ev).
Proof.
  intros HF. unfold step. destruct (_ && _); [exact HF|].
  pose proof (handle_fresh ev st HF) as HF'.
  destruct (alive (handle ev st)); [now apply rerender_fresh|].
  revert HF'. apply Fresh_grows. split; simpl; auto.
Qed.

Lemma initial_fresh m : Fresh (initial m).
Proof. split; simpl; constructor. Qed.

(** *** The loop keeps going *)

(** Run [e] waits for exactly one thing when its render had the loop on and
    the camera streaming. *)
Definition ticking (st : State) (e : LoopEffect) : Prop :=
  isAutoAnalyze (closure e) = true -> isStreaming (closure e) = true -> waits st = 1.

(** The current run of state [st'] is mounted, belongs to the render with
    values [c], and [P] holds of it. *)
Definition current_run (st' : State) (c : Cells) (P : Prop) : Prop :=
  exists e', effects st' !! current st' = Some e' /\ mounted e' = true /\
             closure e' = c /\ P.

(** After a committed render of a mounted panel. *)
Definition Live (st : State) : Prop :=
  alive st = true ->
  exists e, effects st !! current st = Some e /\ mounted e = true /\ ticking st e.

(** After a handler, before the render it causes is committed. *)
Definition Live_pending (st : State) : Prop :=
  alive st = true ->
  exists e, effects st !! current st = Some e /\ mounted e = true /\
            (deps (closure e) = deps (cells st) -> ticking st e).

Lemma setTimeout_live i d st e :
  effects st !! i = Some e -> mounted e = true -> resumes i st ->
  current_run (setTimeout i d st) (closure e) (waits (setTimeout i d st) = 1).
Proof.
  intros He Hm Hres. destruct (Hres e He Hm) as (Hi & Ht & Hc).
  exists (set_timeoutId (Some (fresh st)) e).
  unfold waits, setTimeout, current in *. simpl.
  rewrite length_alter, <- Hi, list_lookup_alter, decide_True by reflexivity.
  rewrite He, Ht. rewrite <- Hi in Hc. rewrite Hc. simpl. auto.
Qed.

Lemma current_run_impl st c (P P' : Prop) :
  (P -> P') -> current_run st c P -> current_run st c P'.
Proof. intros HP (e & H1 & H2 & H3 & H4). exists e. auto. Qed.

Lemma analyzeLoop_tail_live i st e :
  effects st !! i = Some e -> mounted e = true -> resumes i st ->
  current_run (analyzeLoop_tail i st) (closure e)
    (isAutoAnalyze (closure e) = true -> waits (analyzeLoop_tail i st) = 1).
Proof.
  intros He Hm Hres. unfold analyzeLoop_tail. rewrite He, Hm. simpl.
  destruct (isAutoAnalyze (closure e)) eqn:Hauto.
  - eapply current_run_impl; [|now apply setTimeout_live]. auto.
  - destruct (Hres e He Hm) as (Hi & _). exists e. rewrite <- Hi.
    repeat split; auto. discriminate.
Qed.

Lemma analyzeLoop_live i st e :
  effects st !! i = Some e -> mounted e = true -> resumes i st ->
  current_run (analyzeLoop i st) (closure e)
    (isAutoAnalyze (closure e) = true -> isStreaming (closure e) = true ->
     waits (analyzeLoop i st) = 1).
Proof.
  intros He Hm Hres. destruct (Hres e He Hm) as (Hi & Ht & Hc).
  unfold analyzeLoop. rewrite He, Hm.
  destruct (isAutoAnalyze (closure e)) eqn:Hauto;
    [|simpl; exists e; rewrite <- Hi; repeat split; auto; discriminate].
  destruct (isStreaming (closure e)) eqn:Hstr;
    [|simpl; exists e; rewrite <- Hi; repeat split; auto; discriminate].
  simpl. destruct (isLoading (closure e)).
  { eapply current_run_impl; [|now apply setTimeout_live]. auto. }
  destruct (captureFrame_quiet st) as (Hce & Hct & Hcc).
  pose proof (captureFrame_resolved st) as Hnone.
  destruct (captureFrame st) as [st1 [b|b]]; simpl in *.
  - rewrite (Hnone b eq_refl). simpl.
    assert (Hres1 : resumes i st1).
    { intros e1. unfold current. rewrite Hce, Hct, Hcc. apply Hres. }
    rewrite <- Hce in He.
    eapply current_run_impl; [|exact (analyzeLoop_tail_live i st1 e He Hm Hres1)].
    auto.
  - exists e. unfold waits, add_capture, current in *. simpl.
    rewrite Hce, Hct, Hcc, <- Hi, He, Ht, awaiting_app. simpl.
    rewrite <- Hi in Hc. rewrite Hc.
    unfold from_run. simpl. rewrite bool_decide_eq_true_2 by reflexivity.
    repeat split; auto.
Qed.

Lemma loopEffect_live Q st :
  Runs Q st -> Ticks st ->
  exists e, effects (loopEffect st) !! current (loopEffect st) = Some e /\
            mounted e = true /\ ticking (loopEffect st) e.
Proof.
  intros HR HT. unfold loopEffect.
  pose proof (cleanup_no_timer st HT) as Ht.
  destruct (cleanup_quiet (current st) st) as [Hlen Hc].
  set (st1 := cleanup (current st) st) in *.
  set (new := {| closure := cells st1; mounted := true; timeoutId := None |}).
  set (st2 := set_effects (effects st1 ++ [new]) st1).
  assert (Hcur : current st2 = length (effects st1)).
  { unfold current, st2. simpl. rewrite length_app. simpl. lia. }
  assert (Hnew : effects st2 !! length (effects st1) = Some new).
  { unfold st2. simpl. rewrite lookup_app_r by lia. now rewrite Nat.sub_diag. }
  assert (Haw : awaiting (current st2) (captures st2) = 0).
  { rewrite Hcur. unfold st2. simpl. rewrite Hc, Hlen.
    destruct HR as [_ R2 _]. eapply awaiting_out_of_range; [exact R2 | lia]. }
  destruct (isAutoAnalyze (cells st2)) eqn:Hauto.
  - assert (Hres : resumes (length (effects st1)) st2).
    { intros e _ _. split; [now rewrite Hcur|]. split; [|exact Haw].
      unfold st2. simpl. exact Ht. }
    destruct (analyzeLoop_live _ st2 new Hnew eq_refl Hres) as (e' & H1 & H2 & H3 & H4).
    exists e'. split; [exact H1|]. split; [exact H2|]. unfold ticking.
    rewrite H3. exact H4.
  - exists new. rewrite Hcur. split; [exact Hnew|]. split; [reflexivity|].
    unfold ticking. simpl. unfold st2 in Hauto. simpl in Hauto. congruence.
Qed.

Lemma rerender_live Q st :
  Runs Q st -> Ticks st -> Live_pending st -> Live (rerender st).
Proof.
  intros HR HT HL Ha. rewrite rerender_alive in Ha. unfold rerender.
  destruct (effects st !! current st) as [ec|] eqn:Hc;
    [case_decide as Hd|]; try now apply (loopEffect_live Q).
  destruct (HL Ha) as (e & He & Hm & Htick).
  assert (e = ec) as -> by congruence. eauto.
Qed.

Lemma Live_frame st st' :
  effects st' = effects st -> timers st' = timers st ->
  awaiting (current st) (captures st') = awaiting (current st) (captures st) ->
  alive st = true -> Live st -> Live_pending st'.
Proof.
  intros He Ht Hc Ha HL _. destruct (HL Ha) as (e & H1 & H2 & H3).
  exists e. unfold current, ticking, waits, current in *.
  rewrite He, Ht, Hc. auto.
Qed.

Lemma analyzeLoop_tail_finished i st :
  (forall e, effects st !! i = Some e -> mounted e = false) ->
  analyzeLoop_tail i st = st.
Proof.
  intros Hfin. unfold analyzeLoop_tail.
  destruct (effects st !! i) as [e|] eqn:He; [|reflexivity].
  now rewrite (Hfin e eq_refl).
Qed.

(** Whoever awaits [processImage] is not a mounted run of the loop. *)
Definition returns_nowhere (o : Origin) (st : State) : Prop :=
  match o with
  | FromLoop i => forall e, effects st !! i = Some e -> mounted e = false
  | _ => True
  end.

Lemma processImage_return_nowhere o st :
  returns_nowhere o st -> processImage_return o st = st.
Proof. destruct o; simpl; auto using analyzeLoop_tail_finished. Qed.

Lemma processImage_quiet c o image st :
  returns_nowhere o st ->
  effects (processImage c o image st) = effects st /\
  timers (processImage c o image st) = timers st /\
  captures (processImage c o image st) = captures st.
Proof.
  intros Hno. unfold processImage. destruct (service_of (mode c)).
  - destruct (isAutoAnalyze c); auto.
  - rewrite processImage_return_nowhere by (destruct (isAutoAnalyze c), o; exact Hno).
    destruct (isAutoAnalyze c); auto.
Qed.

Lemma processImage_settled_quiet rq r st :
  returns_nowhere (rq_origin rq) st ->
  effects (processImage_settled rq r st) = effects st /\
  timers (processImage_settled rq r st) = timers st /\
  captures (processImage_settled rq r st) = captures st.
Proof.
  intros Hno. unfold processImage_settled.
  rewrite processImage_return_nowhere
    by (destruct r; [destruct (isAutoAnalyze (rq_closure rq))|];
        destruct (rq_origin rq); exact Hno).
  destruct r; [destruct (isAutoAnalyze (rq_closure rq))|]; auto.
Qed.

Lemma handleManualCapture_live st :
  alive st = true -> Live st -> Live_pending (handleManualCapture st).
Proof.
  intros Ha HL. unfold handleManualCapture.
  destruct (captureFrame_quiet st) as (Hce & Hct & Hcc).
  destruct (captureFrame st) as [st1 [[b|]|b]]; simpl in *.
  - destruct (processImage_quiet (cells st) FromManual b st1 I) as (He & Ht & Hc).
    apply (Live_frame st); auto; congruence.
  - apply (Live_frame st); auto; congruence.
  - apply (Live_frame st); simpl; auto.
    rewrite Hcc, awaiting_app. simpl. lia.
Qed.

Lemma captureFrame_settled_live st id pc :
  alive st = true -> Runs finished st -> Ticks st -> Fresh st -> Live st ->
  find_id id (captures st) = Some pc ->
  Live_pending (captureFrame_settled pc (set_captures (drop_id id (captures st)) st)).
Proof.
  intros Ha [R1 R2 _] HT [_ Huniq] HL Hf.
  set (st' := set_captures (drop_id id (captures st)) st).
  pose proof (awaiting_drop_exact (current st) id _ pc Huniq Hf) as Hdrop.
  pose proof (find_id_Forall (fun pc => run_of (effects st) (pc_origin pc) idle)
                _ _ _ R2 Hf) as Hrun.
  cbv beta in Hrun.
  destruct (HL Ha) as (e & He & Hm & Htick).
  destruct (from_run (current st) pc) eqn:Hfrom.
  - (* the capture of the current run *)
    assert (Ho : pc_origin pc = FromLoop (current st)).
    { unfold from_run in Hfrom. destruct (pc_origin pc); try discriminate.
      apply bool_decide_eq_true_1 in Hfrom. now subst. }
    rewrite Ho in Hrun. destruct Hrun as (e0 & He0 & Hidle).
    assert (e0 = e) as -> by congruence. unfold idle in Hidle.
    assert (Hres : resumes (current st) st').
    { intros e1 _ _. split; [reflexivity|].
      unfold Ticks in HT. rewrite He, Hm in HT. destruct HT as (Hw & _).
      unfold waits in Hw.
      split; [|change (awaiting (current st) (drop_id id (captures st)) = 0); lia].
      change (timers st = []).
      destruct (timers st); [reflexivity | simpl in *; lia]. }
    unfold captureFrame_settled, analyzeLoop_resume. rewrite Ho.
    destruct (pc_blob pc) as [b|].
    + unfold processImage. intros _.
      destruct (service_of (mode (pc_closure pc))).
      * exists e. split; [|split; [exact Hm|]].
        { destruct (isAutoAnalyze (pc_closure pc)); exact He. }
        intros Hd. exfalso. unfold deps in Hd.
        destruct (isAutoAnalyze (pc_closure pc)); simpl in Hd; congruence.
      * set (st3 := setIsLoading false _).
        assert (H3 : effects st3 = effects st' /\ timers st3 = timers st' /\
                     captures st3 = captures st').
        { subst st3. now destruct (isAutoAnalyze (pc_closure pc)). }
        destruct H3 as (He3 & Ht3 & Hc3). clearbody st3. simpl.
        assert (Hres3 : resumes (current st) st3).
        { intros e1. unfold current. rewrite He3, Ht3, Hc3. apply Hres. }
        assert (He' : effects st3 !! current st = Some e) by now rewrite He3.
        destruct (analyzeLoop_tail_live _ st3 e He' Hm Hres3) as (e' & H1 & H2 & H3 & H4).
        exists e'. split; [exact H1|]. split; [exact H2|]. intros _.
        unfold ticking. rewrite H3. auto.
    + intros _.
      destruct (analyzeLoop_tail_live _ st' e He Hm Hres) as (e' & H1 & H2 & H3 & H4).
      exists e'. split; [exact H1|]. split; [exact H2|]. intros _.
      unfold ticking. rewrite H3. auto.
  - (* a capture of an earlier run, or of the capture button *)
    assert (Hno : returns_nowhere (pc_origin pc) st').
    { destruct (pc_origin pc) as [i| |] eqn:Ho; simpl; auto.
      intros e1 He1. destruct (mounted e1) eqn:Hm1; [|reflexivity].
      destruct (R1 i e1 He1 Hm1) as [-> _].
      unfold from_run in Hfrom. rewrite Ho in Hfrom.
      now rewrite bool_decide_eq_true_2 in Hfrom. }
    assert (Hsame : effects (captureFrame_settled pc st') = effects st' /\
                    timers (captureFrame_settled pc st') = timers st' /\
                    captures (captureFrame_settled pc st') = captures st').
    { unfold captureFrame_settled, analyzeLoop_resume. clearbody st'.
      destruct (pc_origin pc) as [i| |] eqn:Ho; destruct (pc_blob pc) as [b|];
        first [ now apply processImage_quiet
              | rewrite analyzeLoop_tail_finished by exact Hno; auto
              | auto ]. }
    destruct Hsame as (H1 & H2 & H3).
    apply (Live_frame st); auto. rewrite H3. simpl. lia.
Qed.

Lemma TimerFired_live st id k t :
  alive st = true -> Runs finished st -> Ticks st -> Live st ->
  list_find (fun t => t_id t = id) (timers st) = Some (k, t) ->
  Live_pending (analyzeLoop (t_effect t)
                  (set_timers (filter (fun t => t_id t <> id) (timers st)) st)).
Proof.
  intros Ha [R1 _ _] HT HL Hfind _.
  apply list_find_Some in Hfind as (Hk & Hid & _).
  destruct (HL Ha) as (e & He & Hm & Htick).
  unfold Ticks in HT. rewrite He, Hm in HT. destruct HT as (Hw & Hall & _).
  unfold waits in Hw.
  assert (Hone : timers st = [t] /\ awaiting (current st) (captures st) = 0).
  { destruct (timers st) as [|t0 [|t1 l]]; simpl in *; try lia; try discriminate.
    destruct k; simpl in Hk; [|discriminate]. split; [congruence | lia]. }
  destruct Hone as [Hts Haw]. rewrite Hts in Hall.
  apply list.Forall_cons in Hall as [(Hi & _) _].
  set (st' := set_timers _ st).
  assert (Hnone : timers st' = []).
  { subst st'. simpl. rewrite Hts, filter_cons, decide_False; [reflexivity|].
    intros Hne. now apply Hne. }
  assert (Hres : resumes (current st) st').
  { intros e1 _ _. auto. }
  rewrite Hi.
  destruct (analyzeLoop_live _ st' e He Hm Hres) as (e' & H1 & H2 & H3 & H4).
  exists e'. split; [exact H1|]. split; [exact H2|]. intros _.
  unfold ticking. rewrite H3. exact H4.
Qed.

Lemma handle_live ev st :
  alive st = true -> Runs finished st -> Ticks st -> Fresh st -> Live st ->
  Live_pending (handle ev st).
Proof.
  intros Ha HR HT HF HL.
  assert (Hframe : forall st', effects st' = effects st -> timers st' = timers st ->
            captures st' = captures st -> Live_pending st').
  { intros st' He Ht Hc. apply (Live_frame st); auto. now rewrite Hc. }
  destruct ev; unfold handle.
  - case_decide; [now apply Hframe|]. destruct (App.shows_VisionPanel m).
    + unfold onModeChange. intros _.
      destruct (loopEffect_live finished (on_cells (with_mode m) st))
        as (e & H1 & H2 & H3).
      * now unchanged st.
      * revert HT. apply Ticks_frame; reflexivity.
      * exists e. auto.
    + intros [=].
  - now apply Hframe.
  - case_decide; now apply Hframe.
  - cases; now apply Hframe.
  - destruct (camera_controls _); [|now apply Hframe].
    destruct (isStreaming _); [|now apply Hframe].
    apply Hframe; unfold startCamera, stopCamera; cases; reflexivity.
  - destruct (_ && _); [now apply handleManualCapture_live | now apply Hframe].
  - cases; now apply Hframe.
  - destruct (selectedImage (cells st)) as [image|]; [|now apply Hframe].
    destruct (_ && _); [|now apply Hframe].
    destruct (processImage_quiet (cells st) FromUpload image st I) as (He & Ht & Hc).
    now apply Hframe.
  - cases; now apply Hframe.
  - cases; now apply Hframe.
  - cases; apply Hframe; unfold startCamera_granted; cases; reflexivity.
  - cases; now apply Hframe.
  - cases; now apply Hframe.
  - destruct (list_find _ _) as [[k t]|] eqn:Hfind; [|now apply Hframe].
    now apply (TimerFired_live st id k t).
  - destruct (find_id id (captures st)) as [pc|] eqn:Hf; [|now apply Hframe].
    now apply captureFrame_settled_live.
  - destruct (find_id id (requests st)) as [rq|] eqn:Hf; [|now apply Hframe].
    destruct HR as [_ _ R3].
    pose proof (find_id_Forall (fun rq => run_of (effects st) (rq_origin rq) finished)
                  _ _ _ R3 Hf) as Hrun.
    cbv beta in Hrun.
    destruct (processImage_settled_quiet rq r
                (set_requests (drop_id id (requests st)) st)) as (He & Ht & Hc).
    { destruct (rq_origin rq); simpl; auto.
      destruct Hrun as (e0 & He0 & Hfin). unfold finished in Hfin.
      intros e He. congruence. }
    now apply Hframe.
Qed.

Lemma step_live st ev :
  Runs finished st -> Ticks st -> Fresh st -> Live st -> Live (step st ev).
Proof.
  intros HR HT HF HL. unfold step.
  destruct (alive st) eqn:Ha; simpl.
  - pose proof (handle_live ev st Ha HR HT HF HL) as HL'.
    pose proof (handle_ticks ev st (or_introl Ha) HR HT) as HT'.
    pose proof (handle_runs ev st (or_introl Ha) HR) as HR'.
    destruct (alive (handle ev st)) eqn:Ha'.
    + now apply (rerender_live _ _ HR' HT').
    + intros Hal. simpl in Hal. congruence.
  - destruct (user_event ev) eqn:Hu; [exact HL|].
    assert (Hgone : alive (step st ev) = false) by apply (step_gone st ev Ha).
    unfold step in Hgone. rewrite Ha, Hu in Hgone. simpl in Hgone.
    intros Hal. congruence.
Qed.

Lemma initial_live m : Live (initial m).
Proof.
  intros _. eexists. split; [reflexivity|]. split; [reflexivity|].
  unfold ticking. simpl. discriminate.
Qed.

Lemma reachable_live st : reachable st -> Live st.
Proof.
  intros (m & evs & _ & ->).
  assert (H : (Runs finished (run evs (initial m)) /\ Ticks (run evs (initial m))) /\
              Fresh (run evs (initial m)) /\ Live (run evs (initial m))).
  { generalize (initial_runs m) (initial_ticks m) (initial_fresh m) (initial_live m).
    generalize (initial m).
    induction evs as [|ev evs IH]; intros st HR HT HF HL; simpl; [auto|].
    apply IH; [now apply step_runs | now apply step_ticks | now apply step_fresh
              | now apply step_live]. }
  apply H.
Qed.

(** X8: While the panel is mounted with the loop on and the camera streaming,
    the current run of the loop effect waits for exactly one thing, a timer
    or a frame that is being encoded.  The loop cannot come to a halt by
    itself: every way through [analyzeLoop] and [processImage] either sets a
    timer, starts a capture, or changes [isLoading], which starts the next
    run. *)
Theorem live_loop_waits_for_one_thing (st : State) :
  reachable st ->
  alive st = true -> isAutoAnalyze (cells st) = true -> isStreaming (cells st) = true ->
  length (timers st) + awaiting (current st) (captures st) = 1.
Proof.
  intros Hreach Ha Hauto Hstr.
  destruct (reachable_inv st Hreach) as [_ Hcur].
  pose proof (reachable_live st Hreach) as HL.
  destruct (HL Ha) as (e & He & Hm & Htick).
  destruct (Hcur Ha) as (e' & He' & Hdeps).
  assert (e' = e) as -> by congruence.
  unfold deps in Hdeps. injection Hdeps as Hd1 Hd2 Hd3 Hd4.
  apply Htick; congruence.
Qed.

(** *** The progress indicator *)

(** [isLoading] is on only while a request is outstanding. *)
Definition Busy (st : State) : Prop :=
  alive st = true -> isLoading (cells st) = true -> requests st <> [].

Lemma Busy_frame st st' :
  alive st' = alive st -> isLoading (cells st') = isLoading (cells st) ->
  requests st' = requests st -> Busy st -> Busy st'.
Proof. unfold Busy. intros -> -> ->. auto. Qed.

Lemma Busy_loop_only st st' : loop_only st st' -> Busy st -> Busy st'.
Proof.
  intros (A & B & _ & _ & _ & _ & G). apply Busy_frame; congruence.
Qed.

Lemma processImage_return_loop_only o st : loop_only st (processImage_return o st).
Proof.
  destruct o; simpl; first [apply analyzeLoop_tail_loop_only | apply loop_only_refl].
Qed.

Lemma processImage_busy c o image st : Busy (processImage c o image st).
Proof.
  unfold processImage. destruct (service_of (mode c)).
  - intros _ _. destruct (isAutoAnalyze c); simpl; now destruct (requests st).
  - apply (Busy_loop_only _ _ (processImage_return_loop_only o _)).
    intros _. destruct (isAutoAnalyze c); discriminate.
Qed.

Lemma processImage_settled_busy rq r st : Busy (processImage_settled rq r st).
Proof.
  unfold processImage_settled.
  apply (Busy_loop_only _ _ (processImage_return_loop_only _ _)).
  intros _. destruct r; [destruct (isAutoAnalyze (rq_closure rq))|]; discriminate.
Qed.

Lemma handle_busy ev st : Busy st -> Busy (handle ev st).
Proof.
  intros HB.
  assert (Hframe : forall st', alive st' = alive st ->
            isLoading (cells st') = isLoading (cells st) ->
            requests st' = requests st -> Busy st').
  { intros st' H1 H2 H3. now apply (Busy_frame st). }
  destruct ev; unfold handle.
  - case_decide; [exact HB|]. destruct (App.shows_VisionPanel m).
    + unfold onModeChange.
      destruct (loopEffect_loop_only (on_cells (with_mode m) st))
        as (A & B & _ & _ & _ & _ & G).
      apply Hframe; simpl; [exact A | now rewrite B | exact G].
    + intros [=].
  - now apply Hframe.
  - case_decide; now apply Hframe.
  - cases; now apply Hframe.
  - destruct (camera_controls _); [|exact HB].
    destruct (isStreaming _); [|now apply Hframe].
    apply Hframe; unfold startCamera, stopCamera; cases; reflexivity.
  - destruct (_ && _); [|exact HB]. unfold handleManualCapture.
    destruct (captureFrame_loop_only st) as (A & B & _ & _ & _ & _ & G).
    destruct (captureFrame st) as [st1 [[b|]|b]]; simpl in *.
    + apply processImage_busy.
    + apply Hframe; congruence.
    + apply Hframe; simpl; congruence.
  - cases; now apply Hframe.
  - destruct (selectedImage (cells st)); [|exact HB].
    destruct (_ && _); [apply processImage_busy | exact HB].
  - cases; now apply Hframe.
  - cases; now apply Hframe.
  - cases; apply Hframe; unfold startCamera_granted; cases; reflexivity.
  - cases; now apply Hframe.
  - cases; now apply Hframe.
  - destruct (list_find _ _) as [[k t]|]; [|exact HB].
    apply (Busy_loop_only _ _ (analyzeLoop_loop_only _ _)). now apply Hframe.
  - destruct (find_id id (captures st)) as [pc|]; [|exact HB].
    unfold captureFrame_settled, analyzeLoop_resume.
    destruct (pc_origin pc), (pc_blob pc);
      first [ apply processImage_busy
            | apply (Busy_loop_only _ _ (analyzeLoop_tail_loop_only _ _));
              now apply Hframe
            | now apply Hframe ].
  - destruct (find_id id (requests st)) as [rq|]; [|exact HB].
    apply processImage_settled_busy.
Qed.

Lemma step_busy st ev : Busy st -> Busy (step st ev).
Proof.
  intros HB. unfold step. destruct (_ && _); [exact HB|].
  pose proof (handle_busy ev st HB) as HB'.
  destruct (alive (handle ev st)) eqn:Ha.
  - now apply (Busy_loop_only _ _ (rerender_loop_only _)).
  - intros Hal. simpl in Hal. congruence.
Qed.

(** X10: The progress indicator never stays on with nothing outstanding: in
    every state a mounted panel can reach, [isLoading] implies that a request
    is with the service.  Every path that sets the flag either hands a
    request to the service or resets the flag before it returns. *)
Theorem spinner_means_a_request_is_outstanding (st : State) :
  reachable st -> alive st = true -> isLoading (cells st) = true ->
  requests st <> [].
Proof.
  intros (m & evs & _ & ->).
  assert (HB : Busy (run evs (initial m))).
  { assert (H0 : Busy (initial m)) by (intros _; discriminate).
    revert H0. generalize (initial m).
    induction evs as [|ev evs IH]; intros st HB; simpl; [exact HB|].
    apply IH. now apply step_busy. }
  exact HB.
Qed.

(** *** Every frame finds its service *)

(** The modes that the code of a state can still read: the mode of the
    committed render, and the modes in the closures of the loop runs and of
    the pending captures. *)
Definition modes_of (st : State) : list AppMode :=
  mode (cells st)
  :: ((fun e => mode (closure e)) <$> effects st)
  ++ ((fun p : nat * PendingCapture => mode (pc_closure p.2)) <$> captures st).

Lemma modes_alter (f : LoopEffect -> LoopEffect) i (l : list LoopEffect) :
  (forall e, closure (f e) = closure e) ->
  (fun e => mode (closure e)) <$> alter f i l = (fun e => mode (closure e)) <$> l.
Proof.
  intros Hf. revert i. induction l as [|e l IH]; intros [|i]; simpl; try reflexivity.
  - now rewrite Hf.
  - f_equal. apply IH.
Qed.

Lemma modes_eq st st' :
  mode (cells st') = mode (cells st) ->
  (fun e => mode (closure e)) <$> effects st' = (fun e => mode (closure e)) <$> effects st ->
  captures st' = captures st -> modes_of st' = modes_of st.
Proof. unfold modes_of. now intros -> -> ->. Qed.

Lemma setTimeout_modes i d st : modes_of (setTimeout i d st) = modes_of st.
Proof. apply modes_eq; simpl; auto. now apply modes_alter. Qed.

Lemma analyzeLoop_tail_modes i st : modes_of (analyzeLoop_tail i st) = modes_of st.
Proof. unfold analyzeLoop_tail. cases. apply setTimeout_modes. Qed.

Lemma processImage_return_modes o st : modes_of (processImage_return o st) = modes_of st.
Proof. destruct o; simpl; auto using analyzeLoop_tail_modes. Qed.

Lemma processImage_modes c o image st : modes_of (processImage c o image st) = modes_of st.
Proof.
  unfold processImage. destruct (service_of (mode c)).
  - destruct (isAutoAnalyze c); reflexivity.
  - rewrite processImage_return_modes. destruct (isAutoAnalyze c); reflexivity.
Qed.

Lemma processImage_settled_modes rq r st :
  modes_of (processImage_settled rq r st) = modes_of st.
Proof.
  unfold processImage_settled. rewrite processImage_return_modes.
  destruct r; [destruct (isAutoAnalyze (rq_closure rq))|]; reflexivity.
Qed.

Lemma captureFrame_modes st : modes_of (captureFrame st).1 = modes_of st.
Proof. unfold captureFrame. cases. Qed.

Lemma cleanup_modes i st : modes_of (cleanup i st) = modes_of st.
Proof.
  unfold cleanup, clearTimeout. cases; apply modes_eq; simpl; auto;
    now apply modes_alter.
Qed.

Lemma stopCamera_modes st : modes_of (stopCamera st) = modes_of st.
Proof. unfold stopCamera. cases. Qed.

Lemma analyzeLoop_modes i st : modes_of (analyzeLoop i st) ⊆ modes_of st.
Proof.
  unfold analyzeLoop.
  destruct (effects st !! i) as [e|] eqn:He; [|done].
  destruct (_ || _); [done|].
  destruct (isLoading (closure e)); [now rewrite setTimeout_modes|].
  pose proof (captureFrame_modes st) as Hm.
  pose proof (captureFrame_effects st) as Heff.
  pose proof (captureFrame_resolved st) as Hnone.
  destruct (captureFrame st) as [st1 [b|b]]; simpl in *.
  - rewrite (Hnone b eq_refl). simpl. now rewrite analyzeLoop_tail_modes, Hm.
  - rewrite <- Hm. unfold modes_of, add_capture. simpl. rewrite fmap_app. simpl.
    intros m Hin. rewrite !elem_of_cons, !elem_of_app in *.
    destruct Hin as [->|[Hin|[Hin|Hin]]]; auto.
    apply list_elem_of_singleton in Hin. subst m. right. left.
    apply list_elem_of_fmap. exists e. split; [reflexivity|].
    rewrite Heff. now apply list_elem_of_lookup_2 in He.
Qed.

Lemma loopEffect_modes st : modes_of (loopEffect st) ⊆ modes_of st.
Proof.
  unfold loopEffect.
  pose proof (cleanup_modes (current st) st) as Hc.
  set (st1 := cleanup _ st) in *. clearbody st1. rewrite <- Hc.
  set (st2 := set_effects _ st1).
  assert (H2 : modes_of st2 ⊆ modes_of st1).
  { unfold st2, modes_of. simpl. rewrite fmap_app. simpl.
    intros m. rewrite !elem_of_cons, !elem_of_app, list_elem_of_singleton.
    intros [->|[[Hin| ->]|Hin]]; auto. }
  destruct (isAutoAnalyze _); [|exact H2].
  etrans; [apply analyzeLoop_modes | exact H2].
Qed.

Lemma rerender_modes st : modes_of (rerender st) ⊆ modes_of st.
Proof. unfold rerender. cases; first [done | apply loopEffect_modes]. Qed.

Lemma handleManualCapture_modes st : modes_of (handleManualCapture st) ⊆ modes_of st.
Proof.
  unfold handleManualCapture.
  pose proof (captureFrame_modes st) as Hm.
  pose proof (captureFrame_cells st) as Hc.
  destruct (captureFrame st) as [st1 [[b|]|b]]; simpl in *.
  - now rewrite processImage_modes, Hm.
  - now rewrite Hm.
  - rewrite <- Hm. unfold modes_of, add_capture. simpl. rewrite fmap_app. simpl.
    intros m. rewrite !elem_of_cons, !elem_of_app, list_elem_of_singleton.
    rewrite <- Hc. intros [->|[Hin|[Hin| ->]]]; auto.
Qed.

Lemma drop_capture_modes id st :
  modes_of (set_captures (drop_id id (captures st)) st) ⊆ modes_of st.
Proof.
  unfold modes_of. simpl. intros m.
  rewrite !elem_of_cons, !elem_of_app.
  intros [->|[Hin|Hin]]; auto. right. right.
  apply list_elem_of_fmap in Hin as (p & -> & Hp).
  apply list_elem_of_fmap. exists p. split; [reflexivity|].
  unfold drop_id in Hp. now apply list_elem_of_filter in Hp as [_ Hp].
Qed.

Lemma captureFrame_settled_modes pc st :
  modes_of (captureFrame_settled pc st) = modes_of st.
Proof.
  unfold captureFrame_settled, analyzeLoop_resume.
  destruct (pc_origin pc), (pc_blob pc);
    auto using processImage_modes, analyzeLoop_tail_modes.
Qed.

(** The modes the panel is ever run in. *)
Definition vision (m : AppMode) : Prop := App.shows_VisionPanel m = true.

Lemma handle_modes ev st :
  Forall vision (modes_of st) -> Forall vision (modes_of (handle ev st)).
Proof.
  intros HV.
  assert (Hsub : forall st', modes_of st' ⊆ modes_of st -> Forall vision (modes_of st')).
  { intros st' Hs. rewrite list.Forall_forall in *. auto. }
  assert (Heq : forall st', modes_of st' = modes_of st -> Forall vision (modes_of st')).
  { intros st' ->. exact HV. }
  destruct ev; unfold handle.
  - case_decide; [exact HV|].
    destruct (App.shows_VisionPanel m) eqn:Hm.
    + unfold onModeChange.
      assert (H1 : Forall vision (modes_of (on_cells (with_mode m) st))).
      { unfold modes_of in *. simpl. apply list.Forall_cons in HV as [_ HV].
        apply list.Forall_cons. split; [exact Hm | exact HV]. }
      assert (H2 : Forall vision (modes_of (loopEffect (on_cells (with_mode m) st)))).
      { rewrite list.Forall_forall in *. intros x Hx.
        apply H1. now apply loopEffect_modes. }
      exact H2.
    + apply Heq. unfold unmount.
      change (modes_of (stopCamera (set_canvas None (set_video None
                (cleanup (current st) st)))) = modes_of st).
      rewrite stopCamera_modes. apply (cleanup_modes (current st) st).
  - now apply Heq.
  - case_decide; now apply Heq.
  - cases; now apply Heq.
  - destruct (camera_controls _); [|exact HV].
    destruct (isStreaming _); [|now apply Heq].
    apply Heq. unfold startCamera.
    change (modes_of (stopCamera (setFacingMode (flip (facingMode (cells st))) st))
            = modes_of st).
    now rewrite stopCamera_modes.
  - destruct (_ && _); [|exact HV]. apply Hsub, handleManualCapture_modes.
  - cases; now apply Heq.
  - destruct (selectedImage (cells st)); [|exact HV].
    destruct (_ && _); [|exact HV]. apply Heq, processImage_modes.
  - cases; now apply Heq.
  - cases; now apply Heq.
  - cases; apply Heq; unfold startCamera_granted; cases; reflexivity.
  - cases; now apply Heq.
  - cases; now apply Heq.
  - destruct (list_find _ _) as [[k t]|]; [|exact HV].
    apply Hsub. etrans; [apply analyzeLoop_modes|]. done.
  - destruct (find_id id (captures st)) as [pc|]; [|exact HV].
    apply Hsub. rewrite captureFrame_settled_modes. apply drop_capture_modes.
  - destruct (find_id id (requests st)) as [rq|]; [|exact HV].
    apply Heq. now rewrite processImage_settled_modes.
Qed.

Lemma step_modes st ev :
  Forall vision (modes_of st) -> Forall vision (modes_of (step st ev)).
Proof.
  intros HV. unfold step. destruct (_ && _); [exact HV|].
  pose proof (handle_modes ev st HV) as HV'.
  destruct (alive (handle ev st)).
  - rewrite list.Forall_forall in *. intros x Hx. apply HV'. now apply rerender_modes.
  - unfold modes_of in *. simpl.
    apply list.Forall_cons in HV as [Hm _]. apply list.Forall_cons in HV' as [_ HV'].
    apply list.Forall_cons. split; assumption.
Qed.

Lemma reachable_modes st : reachable st -> Forall vision (modes_of st).
Proof.
  intros (m & evs & Hm & ->).
  assert (H0 : Forall vision (modes_of (initial m))).
  { unfold modes_of. simpl. repeat constructor; exact Hm. }
  revert H0. generalize (initial m).
  induction evs as [|ev evs IH]; intros st HV; simpl; [exact HV|].
  apply IH. now apply step_modes.
Qed.

(** X11: [processImage] has a branch for each of the three vision modes and none
    for the others.  In every reachable state the mode of the panel and the
    mode in the closure of every pending capture is one of the three, so no
    frame falls through: when the encoder delivers the frame of a pending
    capture, exactly one request is issued, to the service of the mode of
    the render that started the capture (which need not be the present
    mode), and with that frame. *)
Theorem every_frame_finds_its_service (st : State) (id : nat) (pc : PendingCapture)
    (frame : Blob) :
  reachable st -> find_id id (captures st) = Some pc -> pc_blob pc = Some frame ->
  is_Some (service_of (mode (cells st))) /\
  exists call,
    service_of (mode (pc_closure pc)) = Some call /\
    requests (step st (BlobReady id))
    = (requests st ++ [(fresh st, {| rq_origin := pc_origin pc;
                                     rq_closure := pc_closure pc;
                                     rq_call := call; rq_image := frame |})])%list.
Proof.
  intros Hreach Hf Hb.
  pose proof (reachable_modes st Hreach) as HV.
  rewrite list.Forall_forall in HV.
  assert (Hcells : vision (mode (cells st))).
  { apply HV. unfold modes_of. apply list_elem_of_here. }
  assert (Hpc : vision (mode (pc_closure pc))).
  { apply HV. unfold modes_of. apply list_elem_of_further, elem_of_app. right.
    assert (Hin : exists k, (k, pc) ∈ captures st).
    { clear - Hf. induction (captures st) as [|[k a] l IH]; simpl in *; [discriminate|].
      case_decide.
      - injection Hf as ->. exists k. apply list_elem_of_here.
      - destruct (IH Hf) as (k' & Hk'). exists k'. now apply list_elem_of_further. }
    destruct Hin as (k & Hin).
    apply list_elem_of_fmap. exists (k, pc). split; [reflexivity | exact Hin]. }
  assert (Hservice : forall m, vision m -> is_Some (service_of m)).
  { intros m Hm. unfold vision in Hm. destruct m; simpl in *; eauto; discriminate. }
  split; [now apply Hservice|].
  destruct (Hservice _ Hpc) as [call Hcall]. exists call. split; [exact Hcall|].
  assert (Hh : requests (handle (BlobReady id) st)
               = (requests st ++ [(fresh st, {| rq_origin := pc_origin pc;
                                                rq_closure := pc_closure pc;
                                                rq_call := call;
                                                rq_image := frame |})])%list).
  { simpl. rewrite Hf. unfold captureFrame_settled, analyzeLoop_resume. rewrite Hb.
    assert (Hp : forall o, requests (processImage (pc_closure pc) o frame
                             (set_captures (drop_id id (captures st)) st))
                 = (requests st ++ [(fresh st, {| rq_origin := o;
                                                  rq_closure := pc_closure pc;
                                                  rq_call := call;
                                                  rq_image := frame |})])%list).
    { intros o. unfold processImage. rewrite Hcall.
      now destruct (isAutoAnalyze (pc_closure pc)). }
    destruct (pc_origin pc); apply Hp. }
  unfold step. destruct (negb (alive st) && user_event (BlobReady id)) eqn:Hg.
  { rewrite andb_false_r in Hg. discriminate. }
  destruct (alive (handle (BlobReady id) st)).
  - destruct (rerender_loop_only (handle (BlobReady id) st)) as (_ & _ & _ & _ & _ & _ & ->).
    exact Hh.
  - exact Hh.
Qed.

(** *** Instances *)

Lemma one_timer_of_the_current_run_witness :
  length (timers (requesting CLASSIFICATION)) <= 1 /\
  timers (requesting CLASSIFICATION)
  = [{| t_id := 2; t_effect := 3; t_delay := retry_delay |}] /\
  isLoading (cells (requesting CLASSIFICATION)) = true.
Proof.
  assert (Hreach : reachable (requesting CLASSIFICATION))
    by reached CLASSIFICATION (camera_on ++ [ClickToggleAuto; BlobReady 0])%list.
  split; [exact (proj1 (one_timer_of_the_current_run _ Hreach))|].
  split; vm_compute; reflexivity.
Defined.

Lemma live_loop_waits_for_one_thing_witness :
  length (timers (encoding HAND_GESTURES))
  + awaiting (current (encoding HAND_GESTURES)) (captures (encoding HAND_GESTURES)) = 1.
Proof.
  assert (Hreach : reachable (encoding HAND_GESTURES))
    by reached HAND_GESTURES (camera_on ++ [ClickToggleAuto])%list.
  apply (live_loop_waits_for_one_thing _ Hreach); vm_compute; reflexivity.
Defined.

Lemma spinner_means_a_request_is_outstanding_witness :
  requests (requesting OBJECT_DETECTION) <> [].
Proof.
  assert (Hreach : reachable (requesting OBJECT_DETECTION))
    by reached OBJECT_DETECTION (camera_on ++ [ClickToggleAuto; BlobReady 0])%list.
  apply (spinner_means_a_request_is_outstanding _ Hreach); vm_compute; reflexivity.
Defined.

Lemma awaiting_run_is_finished_witness :
  (exists e, effects (requesting HAND_GESTURES) !! 2 = Some e /\ mounted e = false) /\
  timers (handle (Response 1 (inr waving)) (requesting HAND_GESTURES))
  = timers (requesting HAND_GESTURES).
Proof.
  assert (Hreach : reachable (requesting HAND_GESTURES))
    by reached HAND_GESTURES (camera_on ++ [ClickToggleAuto; BlobReady 0])%list.
  eassert (Hf : find_id 1 (requests (requesting HAND_GESTURES)) = Some _)
    by (vm_compute; reflexivity).
  destruct (awaiting_run_is_finished (requesting HAND_GESTURES) 1 _ 2 Hreach Hf eq_refl)
    as [Hrun Hafter].
  split; [exact Hrun | exact (proj1 (Hafter (inr waving)))].
Defined.

Lemma every_frame_finds_its_service_witness :
  let st := step (encoding CLASSIFICATION) (SelectMode OBJECT_DETECTION) in
  mode (cells st) = OBJECT_DETECTION /\
  exists call frame,
    service_of CLASSIFICATION = Some call /\
    requests (step st (BlobReady 0))
    = (requests st ++ [(fresh st, {| rq_origin := FromLoop 2;
                                     rq_closure := cells (encoding CLASSIFICATION);
                                     rq_call := call; rq_image := frame |})])%list.
Proof.
  assert (Hreach : reachable (step (encoding CLASSIFICATION) (SelectMode OBJECT_DETECTION)))
    by reached CLASSIFICATION
         (camera_on ++ [ClickToggleAuto; SelectMode OBJECT_DETECTION])%list.
  eassert (Hf : find_id 0 (captures (step (encoding CLASSIFICATION)
                                          (SelectMode OBJECT_DETECTION)))
                = Some {| pc_origin := FromLoop 2;
                          pc_closure := cells (encoding CLASSIFICATION);
                          pc_blob := Some _ |})
    by (vm_compute; reflexivity).
  split; [vm_compute; reflexivity|].
  destruct (every_frame_finds_its_service _ 0 _ _ Hreach Hf eq_refl)
    as (_ & call & Hcall & Hreq).
  exists call. eexists. split; [exact Hcall | exact Hreq].
Defined.

End VisionPanelLoop.

(** ** The main area and the switch of the mode *)

Module AppMainSpec.
Import AppMain.

(** The transient state of the session on display is empty: in the vision
    panel no result, no error, and the live-analyze flag off; in the speech
    panel, whose results are the transcription and the audio and which has
    no such flag, neither of the two and no error. *)
Definition session_reset (s : Shown) : Prop :=
  match s with
  | Vision st =>
      VisionPanel.result (VisionPanel.cells st) = None /\
      VisionPanel.error (VisionPanel.cells st) = None /\
      VisionPanel.isAutoAnalyze (VisionPanel.cells st) = false
  | Speech p =>
      SpeechRecorder.transcription (SpeechRecorder.cells p) = "" /\
      SpeechPanel.audioUrl (SpeechRecorder.shared (SpeechRecorder.cells p)) = None /\
      SpeechPanel.error (SpeechRecorder.shared (SpeechRecorder.cells p)) = None
  end.

(** What holds of the panel on display: the vision panel is mounted and in a
    state it can reach (so its mode is a vision mode); the speech panel is
    mounted and in a speech mode. *)
Definition routed (s : Shown) : Prop :=
  match s with
  | Vision st => VisionPanel.reachable st /\ VisionPanel.alive st = true
  | Speech p => SpeechRecorder.alive p = true /\
                App.shows_SpeechPanel (SpeechRecorder.mode p) = true
  end.

Lemma vision_or_speech m : App.shows_SpeechPanel m = negb (App.shows_VisionPanel m).
Proof. now destruct m. Qed.

Lemma mount_routed m : routed (mount m).
Proof.
  unfold mount. destruct (App.shows_VisionPanel m) eqn:Hm; simpl.
  - split; [|reflexivity]. exists m, []. now split.
  - split; [reflexivity|]. now rewrite vision_or_speech, Hm.
Qed.

Section VisionSide.
Import VisionPanel VisionPanelSpec VisionPanelCamera.

Lemma stopCamera_alive st : alive (stopCamera st) = alive st.
Proof.
  unfold stopCamera. destruct (streamRef st); simpl; destruct (video st) eqn:Hv;
    simpl; rewrite ?Hv; reflexivity.
Qed.

(** Nothing but a switch to a speech mode removes the vision panel. *)
Lemma vision_handle_stays ev st :
  (forall m, ev = SelectMode m -> App.shows_VisionPanel m = true) ->
  alive (handle ev st) = alive st.
Proof.
  intros Hev.
  assert (Hsame : forall st', same_camera st st' -> alive st' = alive st).
  { now intros st' (A & _). }
  destruct ev; simpl.
  - case_decide; [reflexivity|]. rewrite (Hev m eq_refl).
    apply Hsame, onModeChange_same_camera.
  - reflexivity.
  - now case_decide.
  - now destruct (_ && _).
  - destruct (camera_controls (cells st)); [|reflexivity].
    destruct (isStreaming (cells st)); [|reflexivity].
    exact (stopCamera_alive (setFacingMode (flip (facingMode (cells st))) st)).
  - destruct (_ && _); [|reflexivity]. apply Hsame, handleManualCapture_same_camera.
  - now destruct (camera_controls (cells st)).
  - destruct (selectedImage (cells st)); [|reflexivity].
    destruct (_ && _); [|reflexivity]. apply Hsame, processImage_same_camera.
  - now destruct (_ && _).
  - now destruct (_ && _).
  - destruct (pendingUserMedia st); [reflexivity|].
    unfold startCamera_granted. simpl. now destruct (video st).
  - now destruct (pendingUserMedia st).
  - destruct (video st) as [v|]; [|reflexivity]. now destruct (srcObject v).
  - destruct (list_find _ _) as [[k t]|]; [|reflexivity].
    now rewrite analyzeLoop_alive.
  - destruct (find_id id (captures st)); [|reflexivity].
    now rewrite captureFrame_settled_alive.
  - destruct (find_id id (requests st)); [|reflexivity].
    now rewrite processImage_settled_alive.
Qed.

Lemma vision_step_stays ev st :
  (forall m, ev = SelectMode m -> App.shows_VisionPanel m = true) ->
  alive st = true -> alive (step st ev) = true.
Proof.
  intros Hev Ha. unfold step. rewrite Ha. simpl.
  rewrite (vision_handle_stays ev st Hev), Ha. now rewrite rerender_alive, vision_handle_stays.
Qed.

End VisionSide.

Section SpeechSide.
Import SpeechPanel SpeechRecorder SpeechRecorderSpec.

Lemma on_cells_mode f p : mode (on_cells f p) = mode p.
Proof. unfold on_cells. now destruct (alive p). Qed.

(** The events of the speech panel itself neither remove it nor change its
    mode. *)
Lemma speech_handle_stays ev p :
  (forall m, ev <> SelectMode m) ->
  alive (handle ev p) = alive p /\ mode (handle ev p) = mode p.
Proof.
  intros Hev.
  destruct ev; unfold handle.
  - now destruct (Hev m).
  - destruct (_ && _); [|now split].
    unfold stopRecording, setIsRecording.
    destruct (isRecording (cells p)); [|now split].
    destruct (mediaRecorder (cells p)); [|now split].
    now rewrite on_cells_alive, on_cells_mode.
  - now rewrite on_cells_alive, on_cells_mode.
  - destruct (0 <? pendingUserMedia p); [|now split].
    unfold startRecording_granted, setTranscription, setError, setIsRecording,
      setMediaRecorder.
    destruct supported; now rewrite !on_cells_alive, !on_cells_mode.
  - destruct (0 <? pendingUserMedia p); [|now split].
    unfold startRecording_denied, setError. now rewrite on_cells_alive, on_cells_mode.
  - destruct (recorders p !! r) as [rec|]; [|now split].
    unfold ondataavailable.
    destruct (rec_state rec); [destruct (rec_stopping rec)|];
      destruct (0 <? size); now split.
  - destruct (recorders p !! r) as [rec|]; [|now split].
    destruct (rec_stopping rec); [|now split].
    unfold onstop, setIsLoading. simpl. now rewrite on_cells_alive, on_cells_mode.
  - destruct (VisionPanel.find_id r (transcribing p)); [|now split].
    unfold onstop_resume, setIsLoading, setTranscription, setError.
    destruct (recorders _ !! r); simpl;
      destruct text; now rewrite !on_cells_alive, !on_cells_mode.
Qed.

Lemma speech_step_stays ev p :
  (forall m, ev <> SelectMode m) ->
  alive p = true -> alive (step p ev) = true /\ mode (step p ev) = mode p.
Proof.
  intros Hev Ha. unfold step. rewrite Ha. simpl.
  destruct (speech_handle_stays ev p Hev) as [-> ->]. now split.
Qed.

Lemma speech_step_SelectMode m p :
  alive p = true -> App.shows_SpeechPanel m = true ->
  step p (SelectMode m) = set_mode m p.
Proof. intros Ha Hm. unfold step. rewrite Ha. simpl. now rewrite Hm. Qed.

End SpeechSide.

(** *** The panel on display is mounted and in a mode of its group *)

Lemma setCurrentMode_routed m s : routed s -> routed (setCurrentMode m s).
Proof.
  destruct s as [st|p]; simpl.
  - intros [Hr Ha]. destruct (App.shows_VisionPanel m) eqn:Hm; [|apply mount_routed].
    split; [now apply VisionPanelSpec.reachable_step|].
    apply vision_step_stays; [|exact Ha]. now intros m' [= <-].
  - intros [Ha Hp]. destruct (App.shows_SpeechPanel m) eqn:Hm; [|apply mount_routed].
    rewrite (speech_step_SelectMode m p Ha Hm). now split.
Qed.

Lemma step_routed ev s : routed s -> routed (step s ev).
Proof.
  intros H. destruct ev as [m|ev|ev]; [now apply setCurrentMode_routed| |].
  - destruct s as [st|p]; [|now destruct ev].
    destruct H as [Hr Ha].
    destruct ev; try (now split);
      (split; [now apply VisionPanelSpec.reachable_step|];
       apply vision_step_stays; [discriminate | exact Ha]).
  - destruct s as [st|p]; [now destruct ev|].
    destruct H as [Ha Hp].
    destruct ev; try (now split);
      match goal with
      | |- routed (step _ (InSpeech ?e)) =>
          destruct (speech_step_stays e p) as [A B]; [discriminate | exact Ha |];
          split; [exact A | simpl; rewrite B; exact Hp]
      end.
Qed.

Lemma reachable_routed s : reachable s -> routed s.
Proof.
  intros [evs ->]. unfold run.
  generalize (mount_routed CLASSIFICATION). fold initial. generalize initial.
  induction evs as [|ev evs IH]; intros s H; simpl; [exact H|].
  apply IH. now apply step_routed.
Qed.

(** *** The switch of the mode *)

(** C5 (amended): every switch of the mode, except a switch between the two
    speech modes, leaves the session on display empty.  A switch among the
    vision modes runs the reset effect of the vision panel: no result, no
    error, the live-analyze flag off.  A switch between a vision mode and a
    speech mode replaces the panel by a newly mounted one: a vision panel
    with no result, no error and the flag off, or a speech panel, which has
    no such flag, with no transcription, no audio and no error.  A switch
    between the two speech modes resets nothing: the speech panel stays
    mounted and every cell, the error and the transcription among them, is
    as before. *)
Theorem mode_switch_resets_except_between_speech_modes (s : Shown) (m : AppMode) :
  reachable s -> m <> currentMode s ->
  let s' := setCurrentMode m s in
  currentMode s' = m /\
  if App.shows_SpeechPanel (currentMode s) && App.shows_SpeechPanel m
  then exists p p', s = Speech p /\ s' = Speech p' /\
                    SpeechRecorder.alive p' = true /\
                    SpeechRecorder.cells p' = SpeechRecorder.cells p
  else session_reset s'.
Proof.
  intros Hr Hne. apply reachable_routed in Hr.
  destruct s as [st|p]; simpl in *.
  - destruct Hr as [Hr Ha].
    assert (Hv : App.shows_VisionPanel (VisionPanel.mode (VisionPanel.cells st)) = true).
    { pose proof (VisionPanelLoop.reachable_modes st Hr) as HV.
      unfold VisionPanelLoop.modes_of in HV. now apply list.Forall_cons in HV as [HV _]. }
    rewrite (vision_or_speech (VisionPanel.mode _)), Hv. simpl.
    pose proof (VisionPanelSpec.step_SelectMode_resets st m Ha Hne) as H. simpl in H.
    destruct (App.shows_VisionPanel m) eqn:Hm.
    + destruct H as (A & B & C & D). simpl. auto.
    + unfold mount. rewrite Hm. simpl. auto.
  - destruct Hr as [Ha Hp]. rewrite Hp. simpl.
    destruct (App.shows_SpeechPanel m) eqn:Hm.
    + rewrite (speech_step_SelectMode m p Ha Hm). split; [reflexivity|].
      exists p, (SpeechRecorder.set_mode m p). auto.
    + unfold mount. rewrite vision_or_speech in Hm.
      apply negb_false_iff in Hm. rewrite Hm. simpl. auto.
Qed.

(** *** Runs of the main area *)

(** The microphone is refused in the speech-to-text view. *)
Definition refused : Shown :=
  run [Select SPEECH_TO_TEXT; InSpeech SpeechRecorder.ClickMic;
       InSpeech SpeechRecorder.MicDenied] initial.

(** A recording is made in the speech-to-text view and transcribed. *)
Definition heard : Shown :=
  run [Select SPEECH_TO_TEXT; InSpeech SpeechRecorder.ClickMic;
       InSpeech (SpeechRecorder.MicGranted true);
       InSpeech (SpeechRecorder.DataAvailable 0 4096);
       InSpeech SpeechRecorder.ClickMic;
       InSpeech (SpeechRecorder.Stopped 0);
       InSpeech (SpeechRecorder.Transcribed 0 (inr "hello"))] initial.

(** A frame is classified in the vision panel. *)
Definition classified : Shown :=
  run (InVision <$> (VisionPanelSpec.camera_on
                       ++ [VisionPanel.ClickCapture; VisionPanel.BlobReady 0;
                           VisionPanel.Response 1 (inr VisionPanelSpec.cat)])%list)
      initial.

(** C5, as stated, fails: the error of a refused microphone is on display
    in the speech-to-text view, and after the switch to text-to-speech it is
    on display in that view; a transcription is kept through the switch to
    text-to-speech, and it is on display after the switch back. *)
Lemma speech_mode_switch_keeps_error_and_transcription :
  (currentMode refused = SPEECH_TO_TEXT /\
   currentMode (setCurrentMode TEXT_TO_SPEECH refused) = TEXT_TO_SPEECH /\
   error_shown (setCurrentMode TEXT_TO_SPEECH refused)
   = Some SpeechRecorder.access_denied) /\
  (let s := setCurrentMode TEXT_TO_SPEECH heard in
   currentMode s = TEXT_TO_SPEECH /\
   exists p, setCurrentMode SPEECH_TO_TEXT s = Speech p /\
             SpeechRecorder.mode p = SPEECH_TO_TEXT /\
             SpeechRecorder.transcription (SpeechRecorder.cells p) = "hello" /\
             SpeechPanel.error (SpeechRecorder.shared (SpeechRecorder.cells p)) = None /\
             SpeechPanel.isLoading (SpeechRecorder.shared (SpeechRecorder.cells p)) = false).
Proof.
  split; [vm_compute; repeat split|].
  cbv zeta. split; [vm_compute; reflexivity|].
  eexists. split; [vm_compute; reflexivity|]. vm_compute. repeat split.
Qed.

Lemma mode_switch_resets_except_between_speech_modes_witness :
  (* among the vision modes *)
  (let s' := setCurrentMode HAND_GESTURES classified in
   currentMode s' = HAND_GESTURES /\ session_reset s') /\
  (* from a vision mode to a speech mode *)
  (let s' := setCurrentMode TEXT_TO_SPEECH classified in
   currentMode s' = TEXT_TO_SPEECH /\ session_reset s') /\
  (* from a speech mode to a vision mode *)
  (let s' := setCurrentMode OBJECT_DETECTION refused in
   currentMode s' = OBJECT_DETECTION /\ session_reset s') /\
  (* between the speech modes *)
  (let s' := setCurrentMode TEXT_TO_SPEECH refused in
   currentMode s' = TEXT_TO_SPEECH /\
   exists p p', refused = Speech p /\ s' = Speech p' /\
                SpeechRecorder.alive p' = true /\
                SpeechRecorder.cells p' = SpeechRecorder.cells p).
Proof.
  assert (Hc : reachable classified) by (eexists; reflexivity).
  assert (Hf : reachable refused) by (eexists; reflexivity).
  assert (Hmc : currentMode classified = CLASSIFICATION) by (vm_compute; reflexivity).
  assert (Hmf : currentMode refused = SPEECH_TO_TEXT) by (vm_compute; reflexivity).
  split; [|split; [|split]].
  - pose proof (mode_switch_resets_except_between_speech_modes
                  classified HAND_GESTURES Hc) as H.
    cbv zeta in H. rewrite Hmc in H. apply H. discriminate.
  - pose proof (mode_switch_resets_except_between_speech_modes
                  classified TEXT_TO_SPEECH Hc) as H.
    cbv zeta in H. rewrite Hmc in H. apply H. discriminate.
  - pose proof (mode_switch_resets_except_between_speech_modes
                  refused OBJECT_DETECTION Hf) as H.
    cbv zeta in H. rewrite Hmf in H. apply H. discriminate.
  - pose proof (mode_switch_resets_except_between_speech_modes
                  refused TEXT_TO_SPEECH Hf) as H.
    cbv zeta in H. rewrite Hmf in H. apply H. discriminate.
Defined.

End AppMainSpec.
